(** * j.nvim: the command layer of the journal CLI ([src/j/main.ts]),
      its entry point ([index.bun.ts]) and the section engine it drives.

    - [Js]: the JavaScript values the command layer computes with: strings
      as sequences of UTF-16 code units, Number values as IEEE-754 binary64
      ([SpecFloat]), [String.prototype.split] on the pattern [/[,\s]+/],
      [trim], and [Number] applied to a string.
    - [Cli]: [parseSectionListArg], the parsed options, mode selection,
      [main] and the entry point's [program].  A run is the trace of the
      calls made to the option parser, the platform and the actions of
      [./actions], and of the lines printed, with the way it ends.
    - [Engine]: the section splitter and extractor behind [listSections]
      and [extractSectionsToNote].
    - [Shell]: the quoting of the words handed to [sh -c] by the command
      runner; [Help]: [compactHelpDoc]; [Dates]: [formatDate]; [Plugin]:
      the callbacks of the Neovim plugin ([lua/modules/journal.lua]) that
      read a run of the CLI and that start an extraction.
    - [Samples], the vocabulary of the statements, checks of the embedding
      on concrete inputs, and the properties. *)

From Stdlib Require Import List ZArith NArith String Ascii Bool Lia.
From Stdlib Require Import Sorting.Sorted Sorting.Permutation.
From Stdlib Require Import SpecFloat.
Import ListNotations.

Set Implicit Arguments.

(* ================================================================== *)
(** * JavaScript values *)
(* ================================================================== *)

Module Js.

(** A JavaScript string is a sequence of 16-bit code units. *)
Definition codeUnit := N.
Definition jsstring := list codeUnit.

(** An ASCII literal as a JavaScript string. *)
Definition lit (s : string) : jsstring :=
  map N_of_ascii (list_ascii_of_string s).

Definition jsstring_eqb (a b : jsstring) : bool :=
  if list_eq_dec N.eq_dec a b then true else false.

(** [s.startsWith(p)] *)
Fixpoint startsWith (p s : jsstring) : bool :=
  match p, s with
  | [], _ => true
  | _ :: _, [] => false
  | a :: p', b :: s' => N.eqb a b && startsWith p' s'
  end.

(** [s.slice(n)] for [0 <= n]. *)
Definition slice (n : nat) (s : jsstring) : jsstring := skipn n s.

(** Truthiness of a string: every string but the empty one. *)
Definition truthy (s : jsstring) : bool :=
  match s with [] => false | _ :: _ => true end.

(** ** White space

    The code units of the productions WhiteSpace and LineTerminator.  The
    same set is the class [\s] of a regular expression, what [trim] strips,
    and StrWhiteSpaceChar of the StringToNumber grammar. *)
Definition isWhiteSpace (c : codeUnit) : bool :=
  existsb (N.eqb c)
    [9; 10; 11; 12; 13; 32; 160; 5760; 8232; 8233; 8239; 8287; 12288; 65279]%N
  || ((8192 <=? c) && (c <=? 8202))%N.

Fixpoint trimStart (s : jsstring) : jsstring :=
  match s with
  | c :: s' => if isWhiteSpace c then trimStart s' else s
  | [] => []
  end.

Definition trimEnd (s : jsstring) : jsstring := rev (trimStart (rev s)).

(** [s.trim()] *)
Definition trim (s : jsstring) : jsstring := trimEnd (trimStart s).

(** ** [value.split(/[,\s]+/)]

    The separator pattern matches a maximal non-empty run of commas and
    white space; it never matches the empty string.  The pieces are the
    substrings between consecutive matches, with an empty first piece when
    the string starts with a separator run and an empty last piece when it
    ends with one; the empty string gives one empty piece. *)
Definition isSeparatorUnit (c : codeUnit) : bool :=
  N.eqb c 44 || isWhiteSpace c.

(** [inRun]: the previous code unit belonged to a separator match;
    [cur]: the piece being read, reversed. *)
Fixpoint splitFrom (inRun : bool) (cur : jsstring) (s : jsstring)
  : list jsstring :=
  match s with
  | [] => [rev cur]
  | c :: s' =>
      if isSeparatorUnit c
      then if inRun then splitFrom true [] s'
           else rev cur :: splitFrom true [] s'
      else splitFrom false (c :: cur) s'
  end.

Definition splitCommaSpace (s : jsstring) : list jsstring :=
  splitFrom false [] s.

(** ** Number values: IEEE-754 binary64 *)

Definition number := spec_float.
Definition prec : Z := 53.
Definition emax : Z := 1024.

Definition NaN : number := S754_nan.
Definition ofZ (z : Z) : number := binary_normalize prec emax z 0 false.

(** [Number.isFinite(x)] for a Number [x]. *)
Definition isFinite (x : number) : bool :=
  match x with
  | S754_zero _ | S754_finite _ _ _ => true
  | S754_infinity _ | S754_nan => false
  end.

(** [x > y] on Numbers (false as soon as one side is NaN). *)
Definition gt (x y : number) : bool := SFltb y x.

(** [Number.isInteger(x)] *)
Definition isInteger (x : number) : bool :=
  match x with
  | S754_zero _ => true
  | S754_finite _ m e =>
      (0 <=? e)%Z || (Z.pos m mod 2 ^ (- e) =? 0)%Z
  | S754_infinity _ | S754_nan => false
  end.

(** The Number value for [m * 10^e], [0 <= m]: the nearest binary64,
    ties to even, with the sign [neg]; a zero keeps the sign of the
    literal. *)
Definition roundDecimal (neg : bool) (m e : Z) : number :=
  match m with
  | Zpos p =>
      if (0 <=? e)%Z
      then binary_round prec emax neg (p * Z.to_pos (10 ^ e)) 0
      else
        let '(q, e', l) :=
          SFdiv_core_binary prec emax (Zpos p) 0 (10 ^ (- e))%Z 0 in
        binary_round_aux prec emax neg q e' l
  | _ => S754_zero neg
  end.

(** ** [Number(string)]: StringToNumber *)

Definition isDigit (c : codeUnit) : bool := ((48 <=? c) && (c <=? 57))%N.

(** The value of a digit in a radix up to 16, when it is one. *)
Definition digitValue (c : codeUnit) : option Z :=
  if isDigit c then Some (Z.of_N (c - 48))
  else if ((97 <=? c) && (c <=? 102))%N then Some (Z.of_N (c - 87))
  else if ((65 <=? c) && (c <=? 70))%N then Some (Z.of_N (c - 55))
  else None.

Definition isRadixDigit (radix : Z) (c : codeUnit) : bool :=
  match digitValue c with
  | Some d => (d <? radix)%Z
  | None => false
  end.

Definition radixValue (radix : Z) (ds : jsstring) : Z :=
  fold_left
    (fun acc c => match digitValue c with
                  | Some d => radix * acc + d
                  | None => acc
                  end)%Z
    ds 0%Z.

Fixpoint span (p : codeUnit -> bool) (s : jsstring) : jsstring * jsstring :=
  match s with
  | c :: s' =>
      if p c then let '(a, b) := span p s' in (c :: a, b) else ([], s)
  | [] => ([], [])
  end.

(** ExponentPart_opt at the end of a decimal literal: [Some e] when the
    rest of the literal is empty ([e = 0]) or an exponent part. *)
Definition exponentPart (rest : jsstring) : option Z :=
  match rest with
  | [] => Some 0%Z
  | c :: r =>
      if N.eqb c 101 || N.eqb c 69 then
        let '(neg, ds) :=
          match r with
          | 43%N :: t => (false, t)
          | 45%N :: t => (true, t)
          | _ => (false, r)
          end in
        if truthy ds && forallb isDigit ds
        then Some (if neg then - radixValue 10 ds else radixValue 10 ds)%Z
        else None
      else None
  end.

(** StrUnsignedDecimalLiteral with the sign read before it. *)
Definition strUnsignedDecimalLiteral (neg : bool) (s : jsstring) : number :=
  if jsstring_eqb s (lit "Infinity") then S754_infinity neg
  else
    let '(ip, r1) := span isDigit s in
    let '(fp, r2) :=
      match r1 with
      | 46%N :: t => span isDigit t
      | _ => ([], r1)
      end in
    if truthy ip || truthy fp then
      match exponentPart r2 with
      | Some e =>
          roundDecimal neg (radixValue 10 (ip ++ fp))
                       (e - Z.of_nat (List.length fp))
      | None => NaN
      end
    else NaN.

(** NonDecimalIntegerLiteral: the digits after [0x], [0o] or [0b]. *)
Definition nonDecimalIntegerLiteral (radix : Z) (ds : jsstring) : number :=
  if truthy ds && forallb (isRadixDigit radix) ds
  then ofZ (radixValue radix ds)
  else NaN.

Definition strNumericLiteral (s : jsstring) : number :=
  match s with
  | 48%N :: p :: ds =>
      if N.eqb p 120 || N.eqb p 88 then nonDecimalIntegerLiteral 16 ds
      else if N.eqb p 111 || N.eqb p 79 then nonDecimalIntegerLiteral 8 ds
      else if N.eqb p 98 || N.eqb p 66 then nonDecimalIntegerLiteral 2 ds
      else strUnsignedDecimalLiteral false s
  | 43%N :: t => strUnsignedDecimalLiteral false t
  | 45%N :: t => strUnsignedDecimalLiteral true t
  | _ => strUnsignedDecimalLiteral false s
  end.

(** [Number(s)] for a string [s]. *)
Definition Number (s : jsstring) : number :=
  match trim s with
  | [] => S754_zero false
  | t => strNumericLiteral t
  end.

End Js.

Import Js.

(* ================================================================== *)
(** * The command layer: [src/j/main.ts] and the entry point *)
(* ================================================================== *)

Module Cli.

(** ** Values printed and passed around *)

(** What is handed to [outputJson], before [JSON.stringify]. *)
#[local] Unset Elimination Schemes.
Inductive json :=
| JString (s : jsstring)
| JNumber (x : number)
| JArray (items : list json)
| JObject (fields : list (string * json)).
#[local] Set Elimination Schemes.

(** A template string: literal text and interpolated Numbers. *)
Inductive piece :=
| Text (s : jsstring)
| Interp (x : number).

(** One element of the list [listSections] resolves to. *)
Record SectionInfo := {
  index : number;
  startLine : number;
  endLine : number;
  title : jsstring;
  preview : jsstring
}.

(** The argument of [extractSectionsToNote]. *)
Record ExtractionRequest := {
  source : jsstring;
  sections : list number;
  slug : jsstring
}.

(** The object [getJournalPaths] resolves to. *)
Record Paths := {
  journalDir : jsstring;
  notesDir : jsstring
}.

(** ** Failures

    What travels in the failure channel of an effect: an instance of
    [Error] with its message, or any other value (the option parser's
    [ValidationError] is a tagged object, not an [Error]). *)
Inductive failure :=
| ErrorInstance (message : jsstring)
| OtherFailure.

Inductive outcome (A : Type) :=
| Done (a : A)
| Failed (e : failure).
Arguments Done {A} a.
Arguments Failed {A} e.

(** ** Parsed options *)

(** [ParsedOptionValues] (lines 206-217): the record of [Option]s the
    option parser delivers.  [getOpt] turns [Option<A>] into
    [A | undefined]; both are [option A] here, so [ParsedOptions] (lines
    193-204) has the same fields.  The fields [json], [sections] and [slug]
    carry the names of their option descriptors, [jsonArg], [sectionsArg]
    and [slugArg]. *)
Record ParsedOptionValues := {
  jsonArg : option bool;
  date : option bool;
  search : option bool;
  timeline : option bool;
  continue : option bool;
  tag : option jsstring;
  note : option jsstring;
  extract : option jsstring;
  sectionsArg : option jsstring;
  slugArg : option jsstring
}.

(** [ParsedOptions & { tagRequested: boolean }].  The second variant of
    the file has no [tagRequested]; it never reads the field. *)
Record ParsedOptions := {
  values :> ParsedOptionValues;
  tagRequested : bool
}.

(** The result of [CommandDescriptor.parse]. *)
Inductive ParseResult :=
| BuiltIn (showHelp : bool)
| UserDefined (parsed : ParsedOptionValues).

(** Truthiness of [boolean | undefined] and of [string | undefined]. *)
Definition truthyFlag (o : option bool) : bool :=
  match o with Some true => true | _ => false end.

Definition truthyText (o : option jsstring) : bool :=
  match o with Some s => truthy s | None => false end.

(** ** The collaborators

    Everything [main] calls that is not defined in [main.ts]: the option
    parser, the platform and the actions of [./actions].  Each is called
    at most once in a run, so its answer is a function of its argument. *)
Inductive call :=
| CliParse (args : list jsstring)
| GetJournalPaths
| MakeDirectory (dir : jsstring)
| GetEntries (t : option jsstring)
| GetSearchMatches
| GetTimelineEntries (t : option jsstring)
| ListTags
| GetNotes
| GetMostRecentPath
| ExtractSectionsToNote (req : ExtractionRequest)
| ListSections (src : jsstring)
| OpenEntry (d : jsstring)
| SearchByDate (t : option jsstring)
| SearchByContent
| TimelineView (t : option jsstring)
| TagBrowse (t : option jsstring)
| NoteBrowse (n : option jsstring)
| OpenMostRecent.

Record Collaborators := {
  cliParse : list jsstring -> outcome ParseResult;
  helpText : jsstring;
  getJournalPaths : outcome Paths;
  makeDirectory : jsstring -> outcome unit;
  pathJoin : jsstring -> jsstring -> jsstring;
  today : jsstring;                         (* [formatDate(new Date())] *)
  dateDaysAgo : number -> jsstring;
  getEntries : option jsstring -> outcome json;
  getSearchMatches : outcome json;
  getTimelineEntries : option jsstring -> outcome json;
  listTags : outcome json;
  getNotes : outcome json;
  getMostRecentPath : outcome (option jsstring);
  extractSectionsToNote : ExtractionRequest -> outcome unit;
  listSections : jsstring -> outcome (list SectionInfo);
  openEntry : jsstring -> outcome unit;
  searchByDate : option jsstring -> outcome unit;
  searchByContent : outcome unit;
  timelineView : option jsstring -> outcome unit;
  tagBrowse : option jsstring -> outcome unit;
  noteBrowse : option jsstring -> outcome unit;
  openMostRecent : outcome unit
}.

(** ** Effects: the trace of a run *)

Inductive event :=
| Called (c : call)
| ConsoleLog (line : list piece)
| OutputJson (v : json)
| ConsoleError (msg : jsstring).

(** An effect run to its end: what happened, and how it ended. *)
Definition Eff (A : Type) : Type := list event * outcome A.

Definition ret {A} (a : A) : Eff A := ([], Done a).
Definition fail {A} (e : failure) : Eff A := ([], Failed e).
Definition emit (ev : event) : Eff unit := ([ev], Done tt).
Definition perform {A} (c : call) (answer : outcome A) : Eff A :=
  ([Called c], answer).

Definition bind {A B} (m : Eff A) (k : A -> Eff B) : Eff B :=
  match m with
  | (t, Done a) => let '(t', r) := k a in (t ++ t', r)
  | (t, Failed e) => (t, Failed e)
  end.

Declare Scope eff_scope.
Delimit Scope eff_scope with eff.
Notation "x <- m ;; k" := (bind m (fun x => k))
  (at level 61, m at next level, right associativity) : eff_scope.
Notation "m ;; k" := (bind m (fun _ => k))
  (at level 61, right associativity) : eff_scope.
Open Scope eff_scope.

(** [outputJson(value)] *)
Definition outputJson (v : json) : Eff unit := emit (OutputJson v).

Definition jsonOfSection (s : SectionInfo) : json :=
  JObject [("index", JNumber (index s));
           ("startLine", JNumber (startLine s));
           ("endLine", JNumber (endLine s));
           ("title", JString (title s));
           ("preview", JString (preview s))]%string.

(** ** [parseSectionListArg], first copy (lines 143-149) *)
Definition parseSectionListArg (value : jsstring) : list number :=
  filter (fun entry => isFinite entry && gt entry (ofZ 0))
    (map (fun entry => Number entry)
      (filter truthy
        (map (fun entry => trim entry)
          (splitCommaSpace value)))).

(** ** [parseSectionListArg], second copy (lines 507-513) *)
Definition parseSectionListArg2 (value : jsstring) : list number :=
  filter (fun entry => isFinite entry && gt entry (ofZ 0))
    (map (fun entry => Number entry)
      (filter truthy
        (map (fun entry => trim entry)
          (splitCommaSpace value)))).

(** ** [isTagRequested] (lines 219-220) *)
Definition isTagRequested (args : list jsstring) : bool :=
  existsb (fun arg => jsstring_eqb arg (lit "-t")
                      || jsstring_eqb arg (lit "--tag")
                      || startsWith (lit "--tag=") arg) args.

(** ** Mode selection *)
Inductive Mode :=
| Today | Date | Search | Timeline | Continue
| Extract | Sections | Tag | Note.

(** The conditional chain of the first variant (lines 313-329). *)
Definition mode (parsed : ParsedOptions) : Mode :=
  if truthyFlag (date parsed) then Date
  else if truthyFlag (search parsed) then Search
  else if truthyFlag (timeline parsed) then Timeline
  else if truthyFlag (continue parsed) then Continue
  else if truthyText (extract parsed) then Extract
  else if truthyText (sectionsArg parsed) then Sections
  else if tagRequested parsed then Tag
  else if truthyText (note parsed) then Note
  else Today.

(** The conditional chain of the second variant (lines 661-677): the same,
    with [parsed.tag] where the first has [parsed.tagRequested]. *)
Definition mode2 (parsed : ParsedOptions) : Mode :=
  if truthyFlag (date parsed) then Date
  else if truthyFlag (search parsed) then Search
  else if truthyFlag (timeline parsed) then Timeline
  else if truthyFlag (continue parsed) then Continue
  else if truthyText (extract parsed) then Extract
  else if truthyText (sectionsArg parsed) then Sections
  else if truthyText (tag parsed) then Tag
  else if truthyText (note parsed) then Note
  else Today.


(** ** The offset arguments

    The loop at the head of [main] (lines 289-301): an argument [-<digits>] or
    [--offset=<text>] sets [offset] (the last one wins) and is dropped;
    every other argument is kept in order. *)
Definition isDashDigits (arg : jsstring) : bool :=    (* [/^-\d+$/] *)
  match arg with
  | 45%N :: d :: ds => forallb isDigit (d :: ds)
  | _ => false
  end.

Fixpoint scanArgs (rawArgs : list jsstring) (offset : option number)
  : option number * list jsstring :=
  match rawArgs with
  | [] => (offset, [])
  | arg :: rest =>
      if isDashDigits arg then scanArgs rest (Some (Number (slice 1 arg)))
      else if startsWith (lit "--offset=") arg
           then scanArgs rest (Some (Number (slice 9 arg)))
           else let '(o, filtered) := scanArgs rest offset in
                (o, arg :: filtered)
  end.

Section Main.

Variable env : Collaborators.

(** The two variants of the file differ, in [main], by the mode chain
    only; each has its own copy of [parseSectionListArg]. *)
Variable chain : ParsedOptions -> Mode.
Variable parseSections : jsstring -> list number.

(** ** [parseArgs] (lines 222-284)

    The help text is whatever [HelpDoc.toAnsiText] renders; the first
    variant compacts the help document before, the second does not. *)
Definition parseArgs (args : list jsstring) : Eff (option ParsedOptions) :=
  parseResult <- perform (CliParse (lit "j" :: args))
                         (cliParse env (lit "j" :: args)) ;;
  match parseResult with
  | BuiltIn showHelp =>
      if showHelp
      then emit (ConsoleLog [Text (helpText env)]) ;; ret None
      else ret None
  | UserDefined parsed =>
      ret (Some {| values := parsed; tagRequested := isTagRequested args |})
  end.

(** The [extract] case (lines 382-403 and 442-457): the same in the JSON
    and in the interactive switch, up to the object the former prints at
    the end. *)
Definition extractCase (parsed : ParsedOptions) (printResult : bool)
  : Eff unit :=
  match extract parsed, slugArg parsed with
  | Some src, Some slg =>
      if truthy src && truthy slg then
        let extractSections :=
          match sectionsArg parsed with
          | Some v => if truthy v then Some (parseSections v) else None
          | None => None
          end in
        match extractSections with
        | Some (x :: xs) =>
            perform
              (ExtractSectionsToNote
                 {| source := src; sections := x :: xs; slug := slg |})
              (extractSectionsToNote env
                 {| source := src; sections := x :: xs; slug := slg |}) ;;
            if printResult then
              outputJson
                (JObject [("status", JString (lit "ok"));
                          ("source", JString src);
                          ("sections", JArray (map JNumber (x :: xs)));
                          ("slug", JString slg)]%string)
            else ret tt
        | _ => fail (ErrorInstance (lit "Missing extract sections."))
        end
      else ret tt
  | _, _ => ret tt
  end.

(** [parsed.tag ? { tag: parsed.tag, entries } : { entries }] *)
Definition entriesObject (parsed : ParsedOptions) (entries : json) : json :=
  match tag parsed with
  | Some t =>
      if truthy t
      then JObject [("tag", JString t); ("entries", entries)]%string
      else JObject [("entries", entries)]%string
  | None => JObject [("entries", entries)]%string
  end.

(** The switch taken when [parsed.json] is truthy (lines 331-414). *)
Definition jsonSwitch (parsed : ParsedOptions) (offset : option number)
    (paths : Paths) (m : Mode) : Eff unit :=
  match m with
  | Today =>
      let d := match offset with
               | Some o => dateDaysAgo env o
               | None => today env
               end in
      let path := pathJoin env (journalDir paths) (d ++ lit ".md") in
      outputJson (JObject [("date", JString d); ("path", JString path)]%string)
  | Date =>
      entries <- perform (GetEntries (tag parsed))
                         (getEntries env (tag parsed)) ;;
      outputJson (entriesObject parsed entries)
  | Search =>
      matches <- perform GetSearchMatches (getSearchMatches env) ;;
      outputJson (JObject [("matches", matches)]%string)
  | Timeline =>
      entries <- perform (GetTimelineEntries (tag parsed))
                         (getTimelineEntries env (tag parsed)) ;;
      outputJson (entriesObject parsed entries)
  | Tag =>
      if truthyText (tag parsed) then
        entries <- perform (GetEntries (tag parsed))
                           (getEntries env (tag parsed)) ;;
        outputJson (entriesObject parsed entries)
      else
        tags <- perform ListTags (listTags env) ;;
        outputJson (JObject [("tags", tags)]%string)
  | Note =>
      match note parsed with
      | Some (c :: n) =>
          let path :=
            pathJoin env (notesDir paths) ((c :: n) ++ lit ".md") in
          outputJson (JObject [("slug", JString (c :: n));
                               ("path", JString path)]%string)
      | _ =>
          notes <- perform GetNotes (getNotes env) ;;
          outputJson (JObject [("notes", notes)]%string)
      end
  | Continue =>
      path <- perform GetMostRecentPath (getMostRecentPath env) ;;
      match path with
      | Some (c :: p) => outputJson (JObject [("path", JString (c :: p))]%string)
      | _ => fail (ErrorInstance (lit "No entries found."))
      end
  | Extract => extractCase parsed true
  | Sections =>
      match sectionsArg parsed with
      | Some (c :: src) =>
          secs <- perform (ListSections (c :: src))
                          (listSections env (c :: src)) ;;
          outputJson (JObject [("source", JString (c :: src));
                               ("sections",
                                JArray (map jsonOfSection secs))]%string)
      | _ => ret tt
      end
  end.

(** The line printed for a section:
    [`${section.index}\t${section.startLine}-${section.endLine}\t${section.title}`] *)
Definition sectionLine (s : SectionInfo) : list piece :=
  [Interp (index s); Text [9%N]; Interp (startLine s); Text (lit "-");
   Interp (endLine s); Text [9%N]; Text (title s)].

Fixpoint logEach (secs : list SectionInfo) : Eff unit :=
  match secs with
  | [] => ret tt
  | s :: rest => emit (ConsoleLog (sectionLine s)) ;; logEach rest
  end.

(** The switch taken otherwise (lines 416-470). *)
Definition interactiveSwitch (parsed : ParsedOptions)
    (offset : option number) (m : Mode) : Eff unit :=
  match m with
  | Today =>
      match offset with
      | Some o => perform (OpenEntry (dateDaysAgo env o))
                          (openEntry env (dateDaysAgo env o))
      | None => perform (OpenEntry (today env)) (openEntry env (today env))
      end
  | Date => perform (SearchByDate (tag parsed)) (searchByDate env (tag parsed))
  | Search => perform SearchByContent (searchByContent env)
  | Timeline =>
      perform (TimelineView (tag parsed)) (timelineView env (tag parsed))
  | Tag => perform (TagBrowse (tag parsed)) (tagBrowse env (tag parsed))
  | Note => perform (NoteBrowse (note parsed)) (noteBrowse env (note parsed))
  | Continue => perform OpenMostRecent (openMostRecent env)
  | Extract => extractCase parsed false
  | Sections =>
      match sectionsArg parsed with
      | Some (c :: src) =>
          secs <- perform (ListSections (c :: src))
                          (listSections env (c :: src)) ;;
          logEach secs
      | _ => ret tt
      end
  end.

(** What [main] does once the options are parsed (lines 308-470). *)
Definition dispatch (parsed : ParsedOptions) (offset : option number)
  : Eff unit :=
  paths <- perform GetJournalPaths (getJournalPaths env) ;;
  perform (MakeDirectory (journalDir paths))
          (makeDirectory env (journalDir paths)) ;;
  let m := chain parsed in
  if truthyFlag (jsonArg parsed)
  then jsonSwitch parsed offset paths m
  else interactiveSwitch parsed offset m.

(** ** [main] (lines 286-471), from [process.argv.slice(2)] *)
Definition mainWith (rawArgs : list jsstring) : Eff unit :=
  let '(offset, filteredArgs) := scanArgs rawArgs None in
  parsed <- parseArgs filteredArgs ;;
  match parsed with
  | None => ret tt
  | Some parsed => dispatch parsed offset
  end.

End Main.

(** [main] of the first variant and of the second. *)
Definition main (env : Collaborators) : list jsstring -> Eff unit :=
  mainWith env mode parseSectionListArg.

Definition main2 (env : Collaborators) : list jsstring -> Eff unit :=
  mainWith env mode2 parseSectionListArg2.

(** ** The entry point ([index.bun.ts])

    [program] runs [main] and catches every failure: the message of an
    [Error] with a non-empty message goes to standard error, and the exit
    code becomes 1.  The exit code of a run that sets none is 0. *)
Record Completion := {
  events : list event;
  exitCode : Z
}.

Definition catchAll (e : failure) : list event :=
  match e with
  | ErrorInstance (c :: msg) => [ConsoleError (c :: msg)]
  | _ => []
  end.

Definition program (env : Collaborators) (rawArgs : list jsstring)
  : Completion :=
  match main env rawArgs with
  | (t, Done _) => {| events := t; exitCode := 0 |}
  | (t, Failed e) => {| events := t ++ catchAll e; exitCode := 1 |}
  end.

End Cli.

(* ================================================================== *)
(** * The section engine

    [listSections] and [extractSectionsToNote] are imported by [main.ts]
    from [./actions]; this part follows their specification. *)
(* ================================================================== *)

Module Engine.

(** Modelled from the spec: the line terminator of a document
    ([./actions] is missing). *)
Definition newline : codeUnit := 10%N.

(** Modelled from the spec: the Section record of the data model
    ([./actions] is missing); line numbers and indices are 1-based. *)
Record Section := {
  index : nat;
  startLine : nat;
  endLine : nat;
  title : jsstring;
  preview : jsstring;
  rawLines : list jsstring
}.

(** Modelled from the spec: step 1 of the splitter ([./actions] is
    missing): the logical lines of a text, with no line after a final
    newline. *)
Fixpoint linesFrom (cur : jsstring) (s : jsstring) : list jsstring :=
  match s with
  | [] => match cur with [] => [] | _ :: _ => [rev cur] end
  | c :: s' =>
      if N.eqb c newline then rev cur :: linesFrom [] s'
      else linesFrom (c :: cur) s'
  end.

(** Modelled from the spec: the logical lines of a document
    ([./actions] is missing). *)
Definition lines (text : jsstring) : list jsstring := linesFrom [] text.

(** Modelled from the spec: a replacement content ([./actions] is
    missing): lines joined by single newlines. *)
Fixpoint unlines (ls : list jsstring) : jsstring :=
  match ls with
  | [] => []
  | [l] => l
  | l :: rest => l ++ newline :: unlines rest
  end.

(** Modelled from the spec: the characters of a separator, [-], [*] and
    [_] ([./actions] is missing). *)
Definition isRuleUnit (c : codeUnit) : bool :=
  N.eqb c 45 || N.eqb c 42 || N.eqb c 95.

(** Modelled from the spec: step 2 of the splitter ([./actions] is
    missing): a line is a separator if, after trimming, it consists of
    three or more repetitions of one of [-], [*], [_] and nothing else. *)
Definition isSeparator (line : jsstring) : bool :=
  match trim line with
  | c :: rest =>
      isRuleUnit c && forallb (N.eqb c) rest && (2 <=? List.length rest)%nat
  | [] => false
  end.

(** Modelled from the spec: step 3 of the splitter ([./actions] is
    missing): a line is blank if it is empty or all white space. *)
Definition isBlank (line : jsstring) : bool :=
  match trim line with [] => true | _ :: _ => false end.

(** Modelled from the spec: a boundary line, blank or separator
    ([./actions] is missing). *)
Definition isBoundary (line : jsstring) : bool :=
  isBlank line || isSeparator line.

(** Modelled from the spec: the end of a run of content lines
    ([./actions] is missing): the run read so far, if any, ends on the
    line before line [n]. *)
Definition closeRun (n : nat) (cur : option (nat * list jsstring))
  : list (nat * nat * list jsstring) :=
  match cur with
  | Some (start, acc) => [(start, Nat.pred n, rev acc)]
  | None => []
  end.

(** Modelled from the spec: steps 4 to 6 of the splitter ([./actions] is
    missing): the maximal runs of non-boundary lines, each with the
    numbers of its first and last line.  [n] is the number of the line at
    the head of [ls]; [cur] is the run being read, its lines reversed. *)
Fixpoint runsFrom (n : nat) (cur : option (nat * list jsstring))
    (ls : list jsstring) : list (nat * nat * list jsstring) :=
  match ls with
  | [] => closeRun n cur
  | l :: rest =>
      if isBoundary l then closeRun n cur ++ runsFrom (S n) None rest
      else
        runsFrom (S n)
          (Some match cur with
                | Some (start, acc) => (start, l :: acc)
                | None => (n, [l])
                end)
          rest
  end.

(** Modelled from the spec: the heading markers stripped from a title
    ([./actions] is missing). *)
Fixpoint dropHashes (s : jsstring) : jsstring :=
  match s with
  | c :: s' => if N.eqb c 35 then dropHashes s' else s
  | [] => []
  end.

(** Modelled from the spec: step 7 of the splitter ([./actions] is
    missing): the first raw line, leading [#] and surrounding white space
    stripped; ["(empty section)"] when nothing is left. *)
Definition deriveTitle (raw : list jsstring) : jsstring :=
  match trim (dropHashes (trim (hd [] raw))) with
  | [] => lit "(empty section)"
  | t => t
  end.

(** Modelled from the spec: white space collapsed ([./actions] is
    missing): every run of white space between two other code units
    becomes one space, and a run at the end disappears. *)
Fixpoint collapse (pendingSpace : bool) (s : jsstring) : jsstring :=
  match s with
  | [] => []
  | c :: s' =>
      if isWhiteSpace c then collapse true s'
      else if pendingSpace then 32%N :: c :: collapse false s'
           else c :: collapse false s'
  end.

(** Modelled from the spec: step 8 of the splitter ([./actions] is
    missing): the raw lines joined with single spaces, runs of white space
    collapsed, trimmed. *)
Definition derivePreview (raw : list jsstring) : jsstring :=
  collapse false (trimStart (List.concat (map (fun l => l ++ [32%N]) raw))).

(** Modelled from the spec: step 5 of the splitter ([./actions] is
    missing): the runs become sections, numbered in document order. *)
Fixpoint numberFrom (k : nat) (runs : list (nat * nat * list jsstring))
  : list Section :=
  match runs with
  | [] => []
  | (first, last, raw) :: rest =>
      {| index := k; startLine := first; endLine := last;
         title := deriveTitle raw; preview := derivePreview raw;
         rawLines := raw |} :: numberFrom (S k) rest
  end.

(** Modelled from the spec: the contract [split(text)] of the Section
    Splitter ([./actions] is missing). *)
Definition split (text : jsstring) : list Section :=
  numberFrom 1 (runsFrom 1 None (lines text)).

(** ** The extractor *)

(** Modelled from the spec: the error taxonomy ([./actions] is
    missing). *)
Inductive ExtractError :=
| InvalidSectionIndex
| EmptySlug
| EmptySectionList
| SourceNotFound
| DestinationWriteFailed
| SourceWriteFailed.

(** Modelled from the spec: the ExtractionResult of the data model
    ([./actions] is missing). *)
Record ExtractionResult := {
  remainingSourceText : jsstring;
  newNoteText : jsstring
}.

(** Modelled from the spec: the section of an index ([./actions] is
    missing). *)
Definition findSection (sections : list Section) (i : nat) : option Section :=
  find (fun s => Nat.eqb (index s) i) sections.

(** Modelled from the spec: step 1 of the extractor ([./actions] is
    missing): every index resolved, or [None] as soon as one has no
    section. *)
Fixpoint resolve (sections : list Section) (indices : list nat)
  : option (list Section) :=
  match indices with
  | [] => Some []
  | i :: rest =>
      match findSection sections i, resolve sections rest with
      | Some s, Some ss => Some (s :: ss)
      | _, _ => None
      end
  end.

(** Modelled from the spec: step 1 of the extractor ([./actions] is
    missing): sorting ascending by index, by insertion. *)
Fixpoint insertByIndex (s : Section) (sorted : list Section) : list Section :=
  match sorted with
  | [] => [s]
  | t :: rest =>
      if (index s <=? index t)%nat then s :: sorted
      else t :: insertByIndex s rest
  end.

(** Modelled from the spec: step 1 of the extractor ([./actions] is
    missing): the resolved sections in ascending order. *)
Definition sortByIndex (ss : list Section) : list Section :=
  fold_right insertByIndex [] ss.

(** Modelled from the spec: step 2 of the extractor ([./actions] is
    missing): the raw lines of the sections, one blank line between two
    sections. *)
Fixpoint noteLines (ss : list Section) : list jsstring :=
  match ss with
  | [] => []
  | [s] => rawLines s
  | s :: rest => rawLines s ++ [] :: noteLines rest
  end.

(** Modelled from the spec: step 3 of the extractor ([./actions] is
    missing): line [n] is in the range of a resolved section. *)
Definition inRange (ss : list Section) (n : nat) : bool :=
  existsb (fun s => (startLine s <=? n)%nat && (n <=? endLine s)%nat) ss.

(** Modelled from the spec: step 3 of the extractor ([./actions] is
    missing): the lines of the document whose number is in no resolved
    range. *)
Fixpoint removeRanges (ss : list Section) (n : nat) (ls : list jsstring)
  : list jsstring :=
  match ls with
  | [] => []
  | l :: rest =>
      if inRange ss n then removeRanges ss (S n) rest
      else l :: removeRanges ss (S n) rest
  end.

(** Modelled from the spec: step 3 of the extractor ([./actions] is
    missing): a run of three or more consecutive blank lines becomes one
    blank line; [blanks] are the blank lines read since the last non-blank
    one, the last first. *)
Definition flushBlanks (blanks : list jsstring) : list jsstring :=
  if (3 <=? List.length blanks)%nat then [[]] else rev blanks.

(** Modelled from the spec: step 3 of the extractor ([./actions] is
    missing): the runs of blank lines collapsed over a whole text. *)
Fixpoint collapseBlankRuns (blanks : list jsstring) (ls : list jsstring)
  : list jsstring :=
  match ls with
  | [] => flushBlanks blanks
  | l :: rest =>
      if isBlank l then collapseBlankRuns (l :: blanks) rest
      else flushBlanks blanks ++ l :: collapseBlankRuns [] rest
  end.

(** Modelled from the spec: step 3 of the extractor ([./actions] is
    missing): a single trailing blank line is trimmed. *)
Definition dropTrailingBlank (ls : list jsstring) : list jsstring :=
  match rev ls with
  | l :: before => if isBlank l then rev before else ls
  | [] => []
  end.

(** Modelled from the spec: the contract [extract(documentText, indices,
    sections)] of the Section Extractor ([./actions] is missing): the
    indices are checked before anything is computed, deduplicated,
    resolved and sorted ascending. *)
Definition extract (documentText : jsstring) (indices : list nat)
    (sections : list Section) : ExtractError + ExtractionResult :=
  match resolve sections (nodup Nat.eq_dec indices) with
  | None => inl InvalidSectionIndex
  | Some resolved =>
      let ordered := sortByIndex resolved in
      inr {| remainingSourceText :=
               unlines (dropTrailingBlank
                          (collapseBlankRuns []
                             (removeRanges ordered 1 (lines documentText))));
             newNoteText := unlines (noteLines ordered) |}
  end.

(** ** The document store and the caller of the extractor *)

(** Modelled from the spec: the Document Store ([./actions] is missing):
    [read] returns the content or nothing; a [write] succeeds or fails. *)
Record Store := {
  read : jsstring -> option jsstring;
  writable : jsstring -> bool
}.

(** Modelled from the spec: a call of [write] ([./actions] is missing):
    the reference and the replacement content. *)
Definition WriteCall : Type := jsstring * jsstring.

Section Persist.

(** How new content is appended to an existing destination note; the
    specification leaves it open. *)
Variable appendNote : jsstring -> jsstring -> jsstring.

(** Modelled from the spec: the caller of the extractor ([./actions] is
    missing), with the error taxonomy of the specification: the request
    is validated, the source read, the extraction computed, then the
    destination written and, only if that succeeded, the source.  The
    result comes with the calls of [write] that were made. *)
Definition persistExtraction (store : Store) (src : jsstring)
    (indices : list nat) (targetSlug : jsstring)
  : (ExtractError + unit) * list WriteCall :=
  match targetSlug, indices with
  | [], _ => (inl EmptySlug, [])
  | _ :: _, [] => (inl EmptySectionList, [])
  | _ :: _, _ :: _ =>
      match read store src with
      | None => (inl SourceNotFound, [])
      | Some text =>
          match extract text indices (split text) with
          | inl e => (inl e, [])
          | inr r =>
              let note :=
                match read store targetSlug with
                | Some old => appendNote old (newNoteText r)
                | None => newNoteText r
                end in
              if writable store targetSlug then
                if writable store src
                then (inr tt,
                      [(targetSlug, note); (src, remainingSourceText r)])
                else (inl SourceWriteFailed,
                      [(targetSlug, note); (src, remainingSourceText r)])
              else (inl DestinationWriteFailed, [(targetSlug, note)])
          end
      end
  end.

End Persist.

End Engine.

(* ================================================================== *)
(** * Commands run through the shell

    The command runner comes in two copies ([part_001] and [part_002]);
    each quotes every word it hands to [sh -c]: [escapeShell] in the one,
    [shellEscape] in the other. *)
(* ================================================================== *)

Module Shell.

(** [s.replace(/'/g, "'\\''")]: every single quote becomes the four
    units ['\'']. *)
Fixpoint replaceQuotes (s : jsstring) : jsstring :=
  match s with
  | [] => []
  | c :: s' =>
      if N.eqb c 39 then lit "'\''" ++ replaceQuotes s'
      else c :: replaceQuotes s'
  end.

(** [escapeShell] ([part_001], line 64) *)
Definition escapeShell (s : jsstring) : jsstring :=
  lit "'" ++ replaceQuotes s ++ lit "'".

(** [shellEscape] ([part_002], line 46) *)
Definition shellEscape (value : jsstring) : jsstring :=
  lit "'" ++ replaceQuotes value ++ lit "'".

(** [items.join(sep)] *)
Fixpoint join (sep : jsstring) (items : list jsstring) : jsstring :=
  match items with
  | [] => []
  | [item] => item
  | item :: rest => item ++ sep ++ join sep rest
  end.

(** [shellCmd] of [runCommandWithInputFile] ([part_001], lines 133-134) *)
Definition shellCmd (cmd : jsstring) (args : list jsstring)
    (inputPath : jsstring) : jsstring :=
  let escapedArgs := join (lit " ") (map escapeShell args) in
  escapeShell cmd ++ lit " " ++ escapedArgs ++ lit " < "
  ++ escapeShell inputPath.

(** [commandLine] and [fullCommand] of [runCommandInteractive]
    ([part_002], lines 101-104) *)
Definition commandLine (cmd : jsstring) (args : list jsstring) : jsstring :=
  join (lit " ") (map shellEscape (cmd :: args)).

Definition fullCommand (cmd : jsstring) (args : list jsstring)
    (inputPath outputPath : jsstring) : jsstring :=
  commandLine cmd args ++ lit " < " ++ shellEscape inputPath ++ lit " > "
  ++ shellEscape outputPath.

End Shell.

(* ================================================================== *)
(** * The help text: [compactHelpDoc] ([src/j/main.ts], lines 39-141) *)
(* ================================================================== *)

Module Help.

(** The shapes of [Span.Span] and [HelpDoc.HelpDoc] that [main.ts] reads:
    the tags it switches on and the fields it uses.  [HelpDoc.empty] is
    [Empty], [HelpDoc.isEmpty] tests for it, and [HelpDoc.descriptionList]
    and [HelpDoc.enumeration] build the nodes of their names. *)
Inductive Span :=
| SpanText (value : jsstring)
| SpanURI (value : jsstring)
| Highlight (value : Span)
| Strong (value : Span)
| Weak (value : Span)
| SpanSequence (left right : Span).

#[local] Unset Elimination Schemes.
Inductive HelpDoc :=
| Empty
| Header (value : Span) (level : N)
| Paragraph (value : Span)
| DescriptionList (definitions : list (Span * HelpDoc))
| Enumeration (elements : list HelpDoc)
| Sequence (left right : HelpDoc).
#[local] Set Elimination Schemes.

(** [primitiveHelpText] (lines 39-55) *)
Definition primitiveHelpText : list jsstring :=
  [ lit "A true or false value.";
    lit "A user-defined piece of text.";
    lit "A user-defined piece of text that is confidential.";
    lit "A floating point number.";
    lit "An integer.";
    lit "A date without a time-zone in the ISO-8601 format, such as 2007-12-03T10:15:30.";
    lit "An existing file or directory.";
    lit "An existing file.";
    lit "An existing directory.";
    lit "A file or directory that must not exist.";
    lit "A file that must not exist.";
    lit "A directory that must not exist.";
    lit "A file or directory.";
    lit "A file.";
    lit "A directory." ].

(** [spanToText] (lines 57-69) *)
Fixpoint spanToText (span : Span) : jsstring :=
  match span with
  | SpanText value | SpanURI value => value
  | Highlight value | Strong value | Weak value => spanToText value
  | SpanSequence l r => spanToText l ++ spanToText r
  end.

(** [text.replace(/\s+/g, " ")]: every maximal run of white space becomes
    one space. *)
Fixpoint replaceSpaceRuns (inRun : bool) (text : jsstring) : jsstring :=
  match text with
  | [] => []
  | c :: rest =>
      if isWhiteSpace c
      then if inRun then replaceSpaceRuns true rest
           else 32%N :: replaceSpaceRuns true rest
      else c :: replaceSpaceRuns false rest
  end.

(** [normalizeHelpText] (line 71) *)
Definition normalizeHelpText (text : jsstring) : jsstring :=
  trim (replaceSpaceRuns false text).

(** [isFillerParagraph] (lines 73-82), on the [value] of the paragraph. *)
Definition isFillerParagraph (paragraph : Span) : bool :=
  let text := normalizeHelpText (spanToText paragraph) in
  if startsWith (lit "This setting is optional.") text then true
  else if startsWith (lit "This option is optional") text then true
  else existsb (jsstring_eqb text) primitiveHelpText.

(** [collectParagraphs] (lines 84-98): the paragraphs of a document, each
    given by its [value]. *)
Fixpoint collectParagraphs (doc : HelpDoc) : list Span :=
  match doc with
  | Paragraph value => [value]
  | Sequence l r => collectParagraphs l ++ collectParagraphs r
  | Enumeration elements => flat_map collectParagraphs elements
  | DescriptionList definitions =>
      flat_map (fun definition => collectParagraphs (snd definition))
               definitions
  | Header _ _ | Empty => []
  end.

Definition isEmpty (doc : HelpDoc) : bool :=
  match doc with Empty => true | _ => false end.

Section Compact.

(** [HelpDoc.blocks], of the option parser's library. *)
Variable blocks : list HelpDoc -> HelpDoc.

(** [compactBlocks] (lines 100-103) *)
Definition compactBlocks (docs : list HelpDoc) : HelpDoc :=
  match filter (fun doc => negb (isEmpty doc)) docs with
  | [] => Empty
  | filtered => blocks filtered
  end.

(** [compactHelpDoc] (lines 105-141) *)
Fixpoint compactHelpDoc (doc : HelpDoc) : HelpDoc :=
  match doc with
  | Empty | Header _ _ => doc
  | Paragraph value => if isFillerParagraph value then Empty else doc
  | Sequence l r => compactBlocks [compactHelpDoc l; compactHelpDoc r]
  | DescriptionList definitions =>
      let mapped :=
        map (fun definition =>
               let child := snd definition in
               let paragraphs := collectParagraphs child in
               let hasNonFiller :=
                 existsb (fun paragraph => negb (isFillerParagraph paragraph))
                         paragraphs in
               let cleaned :=
                 if hasNonFiller then compactHelpDoc child else child in
               (fst definition, cleaned))
            definitions in
      match mapped with
      | [] => Empty
      | first :: rest => DescriptionList (first :: rest)
      end
  | Enumeration elements =>
      let elements :=
        filter (fun element => negb (isEmpty element))
               (map compactHelpDoc elements) in
      match elements with
      | [] => Empty
      | first :: rest => Enumeration (first :: rest)
      end
  end.

End Compact.

(** [HelpDoc.blocks] as the library has it: the documents in sequence,
    from the left. *)
Definition blocksInSequence (docs : list HelpDoc) : HelpDoc :=
  match docs with
  | [] => Empty
  | first :: rest =>
      fold_left (fun acc doc =>
                   if isEmpty acc then doc
                   else if isEmpty doc then acc
                   else Sequence acc doc)
                rest first
  end.

End Help.

(* ================================================================== *)
(** * Dates: [formatDate] ([src/j/main.ts], lines 29-34) *)
(* ================================================================== *)

Module Dates.

(** [String(n)] for a Number that is a non-negative integer below 10^21:
    its decimal digits.  [fuel] bounds the number of digits. *)
Fixpoint decimalFrom (fuel : nat) (n : N) (acc : jsstring) : jsstring :=
  match fuel with
  | O => acc
  | S fuel' =>
      let acc' := (48 + n mod 10)%N :: acc in
      if (n <? 10)%N then acc' else decimalFrom fuel' (n / 10)%N acc'
  end.

Definition decimal (n : N) : jsstring :=
  decimalFrom (S (N.to_nat (N.log2 n))) n [].

(** [s.padStart(targetLength, padString)] *)
Fixpoint cycle (pad current : jsstring) (k : nat) : jsstring :=
  match k with
  | O => []
  | S k' =>
      match current, pad with
      | c :: rest, _ => c :: cycle pad rest k'
      | [], c :: rest => c :: cycle pad rest k'
      | [], [] => []
      end
  end.

Definition padStart (targetLength : nat) (padString s : jsstring)
  : jsstring :=
  cycle padString padString (targetLength - List.length s) ++ s.

(** What [formatDate] reads of a [Date]: [getFullYear()], [getMonth()]
    and [getDate()], for a year that is not negative. *)
Record JsDate := {
  getFullYear : N;
  getMonth : N;
  getDate : N
}.

(** [formatDate] (lines 29-34) *)
Definition formatDate (date : JsDate) : jsstring :=
  let yyyy := getFullYear date in
  let mm := padStart 2 (lit "0") (decimal (getMonth date + 1)) in
  let dd := padStart 2 (lit "0") (decimal (getDate date)) in
  decimal yyyy ++ lit "-" ++ mm ++ lit "-" ++ dd.

End Dates.

(* ================================================================== *)
(** * The Neovim plugin ([lua/modules/journal.lua])

    The callbacks that read what a run of the CLI gave back, and the one
    that builds the arguments of an extraction. *)
(* ================================================================== *)

Module Plugin.

(** A Lua string, as the sequence of its units; [None] is [nil]. *)
Definition text := jsstring.

Inductive level := ERROR | WARN | INFO.

(** What a callback of the plugin does in the end: a notification, the
    success callback scheduled with its data, a run of the CLI, or
    nothing. *)
Inductive reaction (D : Type) :=
| Notify (message : text) (lv : level)
| Schedule (data : D)
| RunJ (args : list text)
| Nothing.
Arguments Notify {D} message lv.
Arguments Schedule {D} data.
Arguments RunJ {D} args.
Arguments Nothing {D}.

(** [s and s ~= "" and s]: the string when it is neither [nil] nor empty. *)
Definition nonEmptyText (s : option text) : option text :=
  match s with
  | Some (c :: rest) => Some (c :: rest)
  | Some [] | None => None
  end.

Section Json.

Variable D : Type.

(** [pcall(vim.json.decode, s)]: the decoded value, or [None] when the
    decoder raises. *)
Variable decode : text -> option D.

(** [handle_output] of [run_j_json] (lines 78-95); [on_success] tells
    whether a callback was given. *)
Definition handle_output (on_success : bool) (output : option text)
    (code : Z) (stderr : option text) : reaction D :=
  if negb (code =? 0)%Z then
    let message :=
      match nonEmptyText stderr with
      | Some m => m
      | None =>
          match nonEmptyText output with
          | Some m => m
          | None => lit "j command failed."
          end
      end in
    Notify message ERROR
  else
    match decode (match output with Some o => o | None => [] end) with
    | None => Notify (lit "Failed to parse j --json output.") ERROR
    | Some data => if on_success then Schedule data else Nothing
    end.

End Json.

(** [table.concat(list, sep)] on strings *)
Fixpoint table_concat (items : list text) (sep : text) : text :=
  match items with
  | [] => []
  | [item] => item
  | item :: rest => item ++ sep ++ table_concat rest sep
  end.

(** [on_stderr] and [on_exit] of [run_j_async] (lines 36-59): the
    non-empty lines received on standard error are kept; [on_exit] reports
    them, or calls back. *)
Definition on_stderr (stderr data : list text) : list text :=
  stderr ++ filter truthy data.

Definition on_exit (stderr : list text) (on_success : bool) (code : Z)
  : reaction unit :=
  if negb (code =? 0)%Z then
    Notify (match stderr with
            | _ :: _ => table_concat stderr [10%N]
            | [] => lit "j command failed."
            end) ERROR
  else if on_success then Schedule tt else Nothing.

(** [table.sort] on numbers: ascending. *)
Fixpoint insertAscending (i : N) (sorted : list N) : list N :=
  match sorted with
  | [] => [i]
  | j :: rest =>
      if (i <=? j)%N then i :: sorted else j :: insertAscending i rest
  end.

Definition table_sort (indices : list N) : list N :=
  fold_right insertAscending [] indices.

(** The loop of [confirm] over the selected items (lines 256-261): the
    section indices of the items that have one. *)
Definition selectedIndices (selected : list (option N)) : list N :=
  flat_map (fun section_index =>
              match section_index with Some i => [i] | None => [] end)
           selected.

(** ["--sections=" .. table.concat(indices, ",")] after [table.sort]
    (lines 265 and 275); [table.concat] writes an integer below 10^14 in
    decimal. *)
Definition sectionsValue (indices : list N) : text :=
  table_concat (map Dates.decimal (table_sort indices)) [44%N].

(** [confirm] of [extract_section] with the callback given to
    [select_note_slug] (lines 251-283), for the file of the buffer, the
    section indices of the selected items and the slug chosen. *)
Definition confirm (file : text) (selected : list (option N))
    (slug : option text) : reaction unit :=
  match selected with
  | [] => Nothing
  | _ :: _ =>
      match selectedIndices selected with
      | [] => Nothing
      | indices =>
          match slug with
          | Some (c :: s) =>
              RunJ [lit "--extract"; file;
                    lit "--sections=" ++ sectionsValue indices;
                    lit "--slug"; c :: s]
          | Some [] | None => Notify (lit "Extract cancelled.") WARN
          end
      end
  end.

End Plugin.


(* ================================================================== *)
(** * Sample inputs *)
(* ================================================================== *)

Module Samples.

Import Cli.

(** Collaborators that all succeed with empty answers, but for the option
    parser and [extractSectionsToNote], whose answers are given. *)
Definition stub (parse : outcome ParseResult) (extraction : outcome unit)
  : Collaborators :=
  {| cliParse := fun _ => parse;
     helpText := lit "USAGE";
     getJournalPaths :=
       Done {| journalDir := lit "/home/u/journal";
               notesDir := lit "/home/u/journal/notes" |};
     makeDirectory := fun _ => Done tt;
     pathJoin := fun a b => a ++ lit "/" ++ b;
     today := lit "2026-01-02";
     dateDaysAgo := fun _ => lit "2026-01-01";
     getEntries := fun _ => Done (JArray []);
     getSearchMatches := Done (JArray []);
     getTimelineEntries := fun _ => Done (JArray []);
     listTags := Done (JArray []);
     getNotes := Done (JArray []);
     getMostRecentPath := Done None;
     extractSectionsToNote := fun _ => extraction;
     listSections := fun _ => Done [];
     openEntry := fun _ => Done tt;
     searchByDate := fun _ => Done tt;
     searchByContent := Done tt;
     timelineView := fun _ => Done tt;
     tagBrowse := fun _ => Done tt;
     noteBrowse := fun _ => Done tt;
     openMostRecent := Done tt |}.

(** [j --extract today.md --sections <v> --slug <s> [--json]] as parsed. *)
Definition extractOptions (asJson : bool) (v s : option jsstring)
  : ParsedOptionValues :=
  {| jsonArg := if asJson then Some true else None;
     date := None; search := None; timeline := None; continue := None;
     tag := None; note := None;
     extract := Some (lit "today.md");
     sectionsArg := v;
     slugArg := s |}.

(** ["Line A\n\n---\n\nLine B"] *)
Definition lineA_rule_lineB : jsstring :=
  lit "Line A" ++ [10; 10]%N ++ lit "---" ++ [10; 10]%N ++ lit "Line B".

(** Three sections separated by single blank lines. *)
Definition threeSections : jsstring :=
  lit "# One" ++ [10]%N ++ lit "body" ++ [10; 10]%N ++ lit "two"
  ++ [10; 10]%N ++ lit "three" ++ [10]%N.

End Samples.

(* ================================================================== *)
(** * Vocabulary of the statements *)
(* ================================================================== *)

Import Cli.

(** A Number that [parseSectionListArg] keeps: finite and above zero. *)
Definition positiveFinite (x : number) : Prop :=
  isFinite x = true /\ gt x (ofZ 0) = true.

(** Strictly ascending, which leaves no room for duplicates. *)
Definition strictlyAscending (l : list number) : Prop :=
  StronglySorted (fun x y => gt y x = true) l.

(** Integers only. *)
Definition allIntegers (l : list number) : Prop :=
  Forall (fun x => isInteger x = true) l.

(** The entries of the list, before they are converted: the pieces of
    the split, trimmed, the empty ones dropped. *)
Definition entries (pieces : list jsstring) : list jsstring :=
  filter truthy (map trim pieces).

(** What reaches standard output. *)
Definition isStdout (ev : event) : bool :=
  match ev with
  | ConsoleLog _ | OutputJson _ => true
  | Called _ | ConsoleError _ => false
  end.

(** Nothing of a trace reached standard output. *)
Definition silent (t : list event) : Prop :=
  Forall (fun ev => isStdout ev = false) t.

(** A run that, when it fails, has printed nothing on standard output. *)
Definition silentOnFailure {A} (m : Eff A) : Prop :=
  forall e, snd m = Failed e -> silent (fst m).

(** The lines printed on standard error. *)
Definition errorMessages (t : list event) : list jsstring :=
  flat_map (fun ev => match ev with
                      | ConsoleError msg => [msg]
                      | _ => []
                      end) t.

(** The calls of [extractSectionsToNote] in a trace: how many, and with
    which requests. *)
Definition isExtraction (ev : event) : bool :=
  match ev with
  | Called (ExtractSectionsToNote _) => true
  | _ => false
  end.

Definition extractions (t : list event) : nat :=
  List.length (filter isExtraction t).

Definition extractionRequests (t : list event) : list ExtractionRequest :=
  flat_map (fun ev => match ev with
                      | Called (ExtractSectionsToNote req) => [req]
                      | _ => []
                      end) t.

Definition isListing (ev : event) : bool :=
  match ev with
  | Called (ListSections _) => true
  | _ => false
  end.

(** A call of [extractSectionsToNote] is made in mode [Extract] only, with
    the options [--extract] and [--slug] as source and slug and the parsed
    value of [--sections], not empty, as sections; a call of
    [listSections] is made in mode [Sections] only. *)
Definition expected (chain : ParsedOptions -> Mode)
    (parseSections : jsstring -> list number)
    (parsed : ParsedOptions) (ev : event) : Prop :=
  match ev with
  | Called (ExtractSectionsToNote req) =>
      chain parsed = Extract
      /\ extract parsed = Some (source req)
      /\ slugArg parsed = Some (slug req)
      /\ exists v, sectionsArg parsed = Some v
                   /\ sections req = parseSections v
                   /\ sections req <> []
  | Called (ListSections _) => chain parsed = Sections
  | _ => True
  end.

(** The priority chain in words: the flags in their order of precedence,
    each with the mode it selects; the first one that is set decides, and
    the mode is [Today] when none is set. *)
Definition precedence : list ((ParsedOptions -> bool) * Mode) :=
  [ (fun p : ParsedOptions => truthyFlag (date p), Date);
    (fun p : ParsedOptions => truthyFlag (search p), Search);
    (fun p : ParsedOptions => truthyFlag (timeline p), Timeline);
    (fun p : ParsedOptions => truthyFlag (continue p), Continue);
    (fun p : ParsedOptions => truthyText (extract p), Extract);
    (fun p : ParsedOptions => truthyText (sectionsArg p), Sections);
    (fun p : ParsedOptions => tagRequested p, Tag);
    (fun p : ParsedOptions => truthyText (note p), Note) ].

Definition firstSet (flags : list ((ParsedOptions -> bool) * Mode))
    (p : ParsedOptions) : Mode :=
  match find (fun entry => fst entry p) flags with
  | Some entry => snd entry
  | None => Today
  end.

(** What every run that gets as far as the mode switch has done. *)
Definition prelude (args : list jsstring) (paths : Paths) : list event :=
  [Called (CliParse (lit "j" :: args)); Called GetJournalPaths;
   Called (MakeDirectory (journalDir paths))].

(** An invocation of the extract operation: the options parse to [vals],
    the journal directory is there, and the mode is [Extract]. *)
Definition extractInvocation (env : Collaborators) (rawArgs : list jsstring)
    (offset : option number) (args : list jsstring)
    (vals : ParsedOptionValues) (paths : Paths) : Prop :=
  scanArgs rawArgs None = (offset, args)
  /\ cliParse env (lit "j" :: args) = Done (UserDefined vals)
  /\ getJournalPaths env = Done paths
  /\ makeDirectory env (journalDir paths) = Done tt
  /\ mode {| values := vals; tagRequested := isTagRequested args |} = Extract.

(** The section list of the request: [extractSections], with [[]] for
    [undefined]. *)
Definition requestedSections (vals : ParsedOptionValues) : list number :=
  match sectionsArg vals with
  | Some v => if truthy v then parseSectionListArg v else []
  | None => []
  end.

(** ** The offset arguments, digits and lists *)

(** An argument the loop at the head of [main] takes for an offset. *)
Definition isOffsetArg (arg : jsstring) : bool :=
  isDashDigits arg || startsWith (lit "--offset=") arg.

(** The offset it sets. *)
Definition offsetOf (arg : jsstring) : number :=
  if isDashDigits arg then Number (slice 1 arg) else Number (slice 9 arg).

(** The integer a Number is, when it is one. *)
Definition integerOf (x : number) : option Z :=
  match x with
  | S754_zero _ => Some 0%Z
  | S754_finite s m e =>
      let magnitude :=
        if (0 <=? e)%Z then Some (Z.pos m * 2 ^ e)%Z
        else if (Z.pos m mod 2 ^ (- e) =? 0)%Z
             then Some (Z.pos m / 2 ^ (- e))%Z
             else None in
      option_map (fun v => if s then (- v)%Z else v) magnitude
  | S754_infinity _ | S754_nan => None
  end.

(** A non-empty string of decimal digits. *)
Definition isDigits (s : jsstring) : bool := truthy s && forallb isDigit s.

(** [tokens.join(",")] *)
Fixpoint joinComma (tokens : list jsstring) : jsstring :=
  match tokens with
  | [] => []
  | [t] => t
  | t :: rest => t ++ 44%N :: joinComma rest
  end.

(** [s.split(sep)] for a separator of one unit; [cur] is the piece being
    read, its units reversed. *)
Fixpoint splitOn (sep : codeUnit) (cur : jsstring) (s : jsstring)
  : list jsstring :=
  match s with
  | [] => [rev cur]
  | c :: s' =>
      if N.eqb c sep then rev cur :: splitOn sep [] s'
      else splitOn sep (c :: cur) s'
  end.

(** ** What a run does and prints *)

(** A call of an action of [./actions]: any call but those of the option
    parser and of the two steps that make the journal directory. *)
Definition isAction (ev : event) : bool :=
  match ev with
  | Called (CliParse _) | Called GetJournalPaths | Called (MakeDirectory _) =>
      false
  | Called _ => true
  | ConsoleLog _ | OutputJson _ | ConsoleError _ => false
  end.

(** A call of an action that opens the editor or a picker. *)
Definition isInteractive (ev : event) : bool :=
  match ev with
  | Called (OpenEntry _) | Called (SearchByDate _) | Called SearchByContent
  | Called (TimelineView _) | Called (TagBrowse _) | Called (NoteBrowse _)
  | Called OpenMostRecent => true
  | _ => false
  end.

(** A call of an action that only collects data, or a JSON value
    printed. *)
Definition isJsonSide (ev : event) : bool :=
  match ev with
  | Called (GetEntries _) | Called GetSearchMatches
  | Called (GetTimelineEntries _) | Called ListTags | Called GetNotes
  | Called GetMostRecentPath | OutputJson _ => true
  | _ => false
  end.

(** What a run printed on standard output, in order. *)
Definition stdout (t : list event) : list event := filter isStdout t.

(** The options as [main] sees them after [parseArgs]. *)
Definition parsedOf (vals : ParsedOptionValues) (args : list jsstring)
  : ParsedOptions :=
  {| values := vals; tagRequested := isTagRequested args |}.

(** The options parse: the arguments left after the offsets are [args],
    and the option parser answers [vals]. *)
Definition parsesTo (env : Collaborators) (rawArgs : list jsstring)
    (offset : option number) (args : list jsstring)
    (vals : ParsedOptionValues) : Prop :=
  scanArgs rawArgs None = (offset, args)
  /\ cliParse env (lit "j" :: args) = Done (UserDefined vals).

(** The journal directory is there: both steps before the mode switch
    succeed. *)
Definition journalReady (env : Collaborators) (paths : Paths) : Prop :=
  getJournalPaths env = Done paths
  /\ makeDirectory env (journalDir paths) = Done tt.

(** What the process of a run hands to its parent: the text on standard
    output, the exit code, the text on standard error.  [render] is the
    text of a value printed on standard output ([JSON.stringify] and the
    template of a section line); [console.error] ends its line. *)
Definition stdoutText (render : event -> jsstring) (run : Completion)
  : jsstring :=
  List.concat (map render (filter isStdout (events run))).

Definition stderrText (run : Completion) : jsstring :=
  List.concat (map (fun msg => msg ++ [10%N]) (errorMessages (events run))).

(** ** Failures that carry a message, and what follows an extraction *)

(** A failure the entry point reports: an [Error] with a message that is
    not empty. *)
Definition carriesMessage (e : failure) : bool :=
  match e with
  | ErrorInstance (_ :: _) => true
  | ErrorInstance [] | OtherFailure => false
  end.

(** An answer that, when it is a failure, is one the entry point
    reports. *)
Definition reported {A} (answer : outcome A) : Prop :=
  match answer with
  | Done _ => True
  | Failed e => carriesMessage e = true
  end.

(** Collaborators whose failures all carry a message. *)
Definition reportable (env : Collaborators) : Prop :=
  (forall args, reported (cliParse env args))
  /\ reported (getJournalPaths env)
  /\ (forall dir, reported (makeDirectory env dir))
  /\ (forall t, reported (getEntries env t))
  /\ reported (getSearchMatches env)
  /\ (forall t, reported (getTimelineEntries env t))
  /\ reported (listTags env)
  /\ reported (getNotes env)
  /\ reported (getMostRecentPath env)
  /\ (forall req, reported (extractSectionsToNote env req))
  /\ (forall src, reported (listSections env src))
  /\ (forall d, reported (openEntry env d))
  /\ (forall t, reported (searchByDate env t))
  /\ reported (searchByContent env)
  /\ (forall t, reported (timelineView env t))
  /\ (forall t, reported (tagBrowse env t))
  /\ (forall n, reported (noteBrowse env n))
  /\ reported (openMostRecent env).

(** What an extraction leaves to do after the call of
    [extractSectionsToNote] has answered: the object printed in JSON mode
    when it succeeded, the report of the entry point when it failed. *)
Definition afterExtraction (asJson : bool) (req : ExtractionRequest)
    (answer : outcome unit) : list event :=
  match answer with
  | Done _ =>
      if asJson
      then [OutputJson
              (JObject [("status", JString (lit "ok"));
                        ("source", JString (source req));
                        ("sections", JArray (map JNumber (sections req)));
                        ("slug", JString (slug req))]%string)]
      else []
  | Failed e => catchAll e
  end.

(** The collaborators [env] with another option parser and another help
    text: each variant of [main.ts] builds its own command (the second
    gives [--tag] no alias [-t], and prints the help as the library
    renders it). *)
Definition withParser (env : Collaborators)
    (parse : list jsstring -> outcome ParseResult) (help : jsstring)
  : Collaborators :=
  {| cliParse := parse;
     helpText := help;
     getJournalPaths := getJournalPaths env;
     makeDirectory := makeDirectory env;
     pathJoin := pathJoin env;
     today := today env;
     dateDaysAgo := dateDaysAgo env;
     getEntries := getEntries env;
     getSearchMatches := getSearchMatches env;
     getTimelineEntries := getTimelineEntries env;
     listTags := listTags env;
     getNotes := getNotes env;
     getMostRecentPath := getMostRecentPath env;
     extractSectionsToNote := extractSectionsToNote env;
     listSections := listSections env;
     openEntry := openEntry env;
     searchByDate := searchByDate env;
     searchByContent := searchByContent env;
     timelineView := timelineView env;
     tagBrowse := tagBrowse env;
     noteBrowse := noteBrowse env;
     openMostRecent := openMostRecent env |}.

(** ** The help text *)

Section HelpVocabulary.

Import Help.

(** A paragraph that [compactHelpDoc] has no reason to drop. *)
Definition nonFiller (paragraph : Span) : bool :=
  negb (isFillerParagraph paragraph).

(** [blocks] puts the documents it is given in sequence: what
    [compactBlocks] needs of it, for one and for two documents that are
    not empty. *)
Definition inSequence (blocks : list HelpDoc -> HelpDoc) : Prop :=
  (forall a, blocks [a] = a)
  /\ (forall a b, isEmpty a = false -> isEmpty b = false ->
                  blocks [a; b] = Sequence a b).

(** No description list anywhere in the document. *)
Fixpoint noDescriptionList (doc : HelpDoc) : bool :=
  match doc with
  | DescriptionList _ => false
  | Enumeration elements => forallb noDescriptionList elements
  | Sequence l r => noDescriptionList l && noDescriptionList r
  | Empty | Header _ _ | Paragraph _ => true
  end.

End HelpVocabulary.

(** Induction on a document, through the lists of its description lists
    and enumerations. *)
Section HelpDocInduction.

Import Help.

Variable P : HelpDoc -> Prop.
Hypothesis HEmpty : P Empty.
Hypothesis HHeader : forall value level, P (Header value level).
Hypothesis HParagraph : forall value, P (Paragraph value).
Hypothesis HDescriptionList :
  forall definitions, Forall (fun d => P (snd d)) definitions ->
                      P (DescriptionList definitions).
Hypothesis HEnumeration :
  forall elements, Forall P elements -> P (Enumeration elements).
Hypothesis HSequence : forall l r, P l -> P r -> P (Sequence l r).

Fixpoint HelpDoc_induction (doc : HelpDoc) : P doc :=
  match doc with
  | Empty => HEmpty
  | Header value level => HHeader value level
  | Paragraph value => HParagraph value
  | DescriptionList definitions =>
      HDescriptionList
        ((fix each (ds : list (Span * HelpDoc))
            : Forall (fun d => P (snd d)) ds :=
            match ds with
            | [] => Forall_nil _
            | d :: ds' => Forall_cons d (HelpDoc_induction (snd d)) (each ds')
            end) definitions)
  | Enumeration elements =>
      HEnumeration
        ((fix each (es : list HelpDoc) : Forall P es :=
            match es with
            | [] => Forall_nil _
            | e :: es' => Forall_cons e (HelpDoc_induction e) (each es')
            end) elements)
  | Sequence l r => HSequence (HelpDoc_induction l) (HelpDoc_induction r)
  end.

End HelpDocInduction.

(** ** How [sh -c] reads a command text

    The part of the shell's language the command runner writes: words
    made of single-quoted text and of escaped units, blanks between them,
    and the redirection operators [<] and [>].  Inside single quotes every
    unit is literal; outside, a backslash makes the next unit literal (and
    removes a line feed), and a blank ends a word.  Any other unit outside
    quotes is refused, so that a text that reads as tokens holds no
    expansion, no operator but the two, no reserved word and no
    comment.  [tokens] is the reading of a text handed over as an
    argument of [sh -c]: of the text as the process receives it. *)
Module Sh.

Inductive token :=
| Word (w : jsstring)
| Less
| Great.

Definition isBlankUnit (c : codeUnit) : bool := N.eqb c 32 || N.eqb c 9.

(** The word being read, its units reversed; [None] between two words. *)
Definition wordOf (cur : option jsstring) : jsstring :=
  match cur with Some w => w | None => [] end.

Definition flush (cur : option jsstring) : list token :=
  match cur with Some w => [Word (rev w)] | None => [] end.

Fixpoint tokensFrom (cur : option jsstring) (quoted : bool) (s : jsstring)
  : option (list token) :=
  match s with
  | [] => if quoted then None else Some (flush cur)
  | c :: s' =>
      if quoted then
        if N.eqb c 39 then tokensFrom cur false s'
        else tokensFrom (Some (c :: wordOf cur)) true s'
      else if N.eqb c 39 then tokensFrom (Some (wordOf cur)) true s'
      else if N.eqb c 92 then
        match s' with
        | d :: s'' =>
            if N.eqb d 10 then tokensFrom cur false s''
            else tokensFrom (Some (d :: wordOf cur)) false s''
        | [] => None
        end
      else if isBlankUnit c then
        option_map (app (flush cur)) (tokensFrom None false s')
      else if N.eqb c 60 then
        option_map (fun ts => flush cur ++ Less :: ts)
                   (tokensFrom None false s')
      else if N.eqb c 62 then
        option_map (fun ts => flush cur ++ Great :: ts)
                   (tokensFrom None false s')
      else None
  end.

(** The string as a process receives it.  An argument goes to the new
    process as the bytes of its UTF-8 encoding, ended by a zero byte: the
    platform refuses to start a process with an argument that holds the
    unit 0, and the encoding turns every surrogate that is not part of a
    pair into U+FFFD ([String.prototype.toWellFormed]).  The units below
    128 of the result, and only they, are the bytes below 128 the shell
    looks at; so the result is read unit by unit. *)
Definition hasNul (s : jsstring) : bool := existsb (N.eqb 0) s.

Definition isHighSurrogate (c : codeUnit) : bool :=
  (55296 <=? c)%N && (c <=? 56319)%N.

Definition isLowSurrogate (c : codeUnit) : bool :=
  (56320 <=? c)%N && (c <=? 57343)%N.

(** [pending] is the high surrogate read last, when it still waits for
    its low surrogate. *)
Fixpoint toWellFormedFrom (pending : option codeUnit) (s : jsstring)
  : jsstring :=
  match s with
  | [] => match pending with Some _ => [65533%N] | None => [] end
  | c :: rest =>
      let lone := match pending with Some _ => [65533%N] | None => [] end in
      match pending with
      | Some h =>
          if isLowSurrogate c then h :: c :: toWellFormedFrom None rest
          else if isHighSurrogate c
               then lone ++ toWellFormedFrom (Some c) rest
               else lone ++ c :: toWellFormedFrom None rest
      | None =>
          if isHighSurrogate c then toWellFormedFrom (Some c) rest
          else if isLowSurrogate c then 65533%N :: toWellFormedFrom None rest
          else c :: toWellFormedFrom None rest
      end
  end.

Definition toWellFormed (s : jsstring) : jsstring :=
  toWellFormedFrom None s.

(** [String.prototype.isWellFormed]: every surrogate is part of a pair. *)
Fixpoint isWellFormedFrom (pending : bool) (s : jsstring) : bool :=
  match s with
  | [] => negb pending
  | c :: rest =>
      if pending then isLowSurrogate c && isWellFormedFrom false rest
      else if isHighSurrogate c then isWellFormedFrom true rest
           else negb (isLowSurrogate c) && isWellFormedFrom false rest
  end.

Definition isWellFormed (s : jsstring) : bool := isWellFormedFrom false s.

Definition received (s : jsstring) : option jsstring :=
  if hasNul s then None else Some (toWellFormed s).

Definition tokens (s : jsstring) : option (list token) :=
  match received s with
  | Some text => tokensFrom None false text
  | None => None
  end.

(** A unit that is no surrogate, such as the quotes, blanks and operators
    the command texts are made of. *)
Definition plain (c : codeUnit) : bool :=
  negb (isHighSurrogate c) && negb (isLowSurrogate c).

End Sh.

(** ** More sample inputs *)

Module Cases.

(** No option given but, may be, [--json]. *)
Definition plainOptions (asJson : bool) : ParsedOptionValues :=
  {| jsonArg := if asJson then Some true else None;
     date := None; search := None; timeline := None; continue := None;
     tag := None; note := None; extract := None;
     sectionsArg := None; slugArg := None |}.

(** [j --sections <src> [--json]] as parsed. *)
Definition sectionsOptions (asJson : bool) (src : jsstring)
  : ParsedOptionValues :=
  {| jsonArg := if asJson then Some true else None;
     date := None; search := None; timeline := None; continue := None;
     tag := None; note := None; extract := None;
     sectionsArg := Some src; slugArg := None |}.

(** [j --continue [--json]] as parsed. *)
Definition continueOptions (asJson : bool) : ParsedOptionValues :=
  {| jsonArg := if asJson then Some true else None;
     date := None; search := None; timeline := None; continue := Some true;
     tag := None; note := None; extract := None;
     sectionsArg := None; slugArg := None |}.

(** The collaborators [env], with other answers of [listSections] and
    [getMostRecentPath]. *)
Definition answering (env : Collaborators)
    (listed : outcome (list SectionInfo))
    (recent : outcome (option jsstring)) : Collaborators :=
  {| cliParse := cliParse env;
     helpText := helpText env;
     getJournalPaths := getJournalPaths env;
     makeDirectory := makeDirectory env;
     pathJoin := pathJoin env;
     today := today env;
     dateDaysAgo := dateDaysAgo env;
     getEntries := getEntries env;
     getSearchMatches := getSearchMatches env;
     getTimelineEntries := getTimelineEntries env;
     listTags := listTags env;
     getNotes := getNotes env;
     getMostRecentPath := recent;
     extractSectionsToNote := extractSectionsToNote env;
     listSections := fun _ => listed;
     openEntry := openEntry env;
     searchByDate := searchByDate env;
     searchByContent := searchByContent env;
     timelineView := timelineView env;
     tagBrowse := tagBrowse env;
     noteBrowse := noteBrowse env;
     openMostRecent := openMostRecent env |}.

(** Two sections, as [listSections] gives them. *)
Definition twoSections : list SectionInfo :=
  [ {| index := ofZ 1; startLine := ofZ 1; endLine := ofZ 2;
       title := lit "One"; preview := lit "One" |};
    {| index := ofZ 2; startLine := ofZ 4; endLine := ofZ 4;
       title := lit "two"; preview := lit "two" |} ].

(** The journal directory of [Samples.stub]. *)
Definition paths : Paths :=
  {| journalDir := lit "/home/u/journal";
     notesDir := lit "/home/u/journal/notes" |}.

(** A help text of two paragraphs, the first of which says nothing. *)
Definition help : Help.HelpDoc :=
  Help.Sequence
    (Help.Paragraph (Help.SpanText (lit "An integer.")))
    (Help.Paragraph (Help.Strong (Help.SpanText (lit "Days to go back.")))).

(** [j --tag --json] as parsed, when the parser takes what follows
    [--tag] for the value of the tag. *)
Definition tagJsonOptions : ParsedOptionValues :=
  {| jsonArg := None;
     date := None; search := None; timeline := None; continue := None;
     tag := Some (lit "--json"); note := None; extract := None;
     sectionsArg := None; slugArg := None |}.

(** [j --extract "" --sections today.md] as parsed: [--extract] is
    supplied, with the empty string. *)
Definition emptyExtractOptions : ParsedOptionValues :=
  {| jsonArg := None;
     date := None; search := None; timeline := None; continue := None;
     tag := None; note := None; extract := Some [];
     sectionsArg := Some (lit "today.md"); slugArg := None |}.

End Cases.

(* ================================================================== *)
(** * Checks of the embedding *)
(* ================================================================== *)

(** [",1, 2,,3 ".split(/[,\s]+/)] and ["".split(/[,\s]+/)] *)
Example splitCommaSpace_pieces :
  splitCommaSpace (lit ",1, 2,,3 ")
  = [lit ""; lit "1"; lit "2"; lit "3"; lit ""]
  /\ splitCommaSpace (lit "") = [lit ""].
Proof. split; reflexivity. Qed.

(** [Number] on integers, fractions, exponents, radix prefixes, signs,
    the empty string, and strings that are no numeric literal. *)
Example Number_values :
  map Number [lit "3"; lit "007"; lit "1e2"; lit "0x10"; lit "0b101";
              lit "-2"; lit "+7"; lit ""]
  = [ofZ 3; ofZ 7; ofZ 100; ofZ 16; ofZ 5; ofZ (-2); ofZ 7; ofZ 0]
  /\ map Number [lit "1.5"; lit ".5"; lit "5."; lit "0.1"]
     = [S754_finite false 6755399441055744 (-52);
        S754_finite false 4503599627370496 (-53);
        ofZ 5;
        S754_finite false 7205759403792794 (-56)]
  /\ map Number [lit "abc"; lit "."; lit "1_0"; lit "12e"; lit "0x";
                 lit "-0x10"; lit "1,2"]
     = [NaN; NaN; NaN; NaN; NaN; NaN; NaN]
  /\ map Number [lit "Infinity"; lit "-Infinity"; lit "1e400"; lit "1e-400";
                 lit "-0"]
     = [S754_infinity false; S754_infinity true; S754_infinity false;
        S754_zero false; S754_zero true].
Proof. repeat split. Qed.

(** The format the editor plugin sends, and a list with entries that are
    dropped: no number, negative, zero, infinite. *)
Example parseSectionListArg_values :
  parseSectionListArg (lit "1,3") = [ofZ 1; ofZ 3]
  /\ parseSectionListArg (lit " 1, x ,,-3,0,1e400 2") = [ofZ 1; ofZ 2]
  /\ parseSectionListArg (lit "") = []
  /\ parseSectionListArg (lit "abc") = [].
Proof. repeat split. Qed.

(** [j -3 --json --offset=7]: the last offset wins, the rest is parsed. *)
Example scanArgs_offsets :
  scanArgs [lit "-3"; lit "--json"; lit "--offset=7"; lit "-x"] None
  = (Some (ofZ 7), [lit "--json"; lit "-x"]).
Proof. reflexivity. Qed.

(** [j --extract today.md --sections 2,1 --slug ideas], the extraction
    succeeding: one call of [extractSectionsToNote], nothing printed. *)
Example program_interactive_extraction :
  let rawArgs := [lit "--extract"; lit "today.md"; lit "--sections";
                  lit "2,1"; lit "--slug"; lit "ideas"] in
  program
    (Samples.stub
       (Done (UserDefined
                (Samples.extractOptions false (Some (lit "2,1"))
                                        (Some (lit "ideas")))))
       (Done tt))
    rawArgs
  = {| events :=
         [Called (CliParse (lit "j" :: rawArgs)); Called GetJournalPaths;
          Called (MakeDirectory (lit "/home/u/journal"));
          Called (ExtractSectionsToNote
                    {| source := lit "today.md";
                       sections := [ofZ 2; ofZ 1];
                       slug := lit "ideas" |})];
       exitCode := 0 |}.
Proof. reflexivity. Qed.

(** The document of three sections: its titles and line ranges, and the
    extraction of its middle section. *)
Example split_threeSections :
  map (fun s => (Engine.index s, Engine.startLine s, Engine.endLine s,
                 Engine.title s))
      (Engine.split Samples.threeSections)
  = [(1, 1, 2, lit "One"); (2, 4, 4, lit "two"); (3, 6, 6, lit "three")]%nat.
Proof. reflexivity. Qed.

Example extract_middle_section :
  Engine.extract Samples.threeSections [2%nat]
                 (Engine.split Samples.threeSections)
  = inr {| Engine.remainingSourceText :=
             lit "# One" ++ [10]%N ++ lit "body" ++ [10; 10; 10]%N
             ++ lit "three";
           Engine.newNoteText := lit "two" |}.
Proof. reflexivity. Qed.

(* ================================================================== *)
(** * Properties of [parseSectionListArg] *)
(* ================================================================== *)

Lemma filter_Forall {A} (p : A -> bool) (l : list A) :
  Forall (fun x => p x = true) (filter p l).
Proof.
  induction l as [|a l IH]; simpl.
  - constructor.
  - destruct (p a) eqn:Hp; [constructor|]; assumption.
Qed.

Lemma entries_app (a b : list jsstring) :
  entries (a ++ b) = entries a ++ entries b.
Proof. unfold entries. rewrite map_app, filter_app. reflexivity. Qed.

(** Whether the split starts inside a separator match or not changes only
    an empty first piece. *)
Lemma entries_splitFrom_start (s : jsstring) :
  entries (splitFrom true [] s) = entries (splitFrom false [] s).
Proof.
  destruct s as [|c s]; [reflexivity|]. cbn [splitFrom].
  destruct (isSeparatorUnit c); reflexivity.
Qed.

(** Splitting [a ++ c :: b] at a separator unit [c]: the entries of [a],
    then those of [b]. *)
Lemma entries_splitFrom_app (c : codeUnit) (a b : jsstring) :
  isSeparatorUnit c = true ->
  forall inRun cur, (inRun = true -> cur = []) ->
  entries (splitFrom inRun cur (a ++ c :: b))
  = entries (splitFrom inRun cur a) ++ entries (splitFrom false [] b).
Proof.
  intros Hc. induction a as [|d a IH]; intros inRun cur Hrun.
  - cbn [app splitFrom]. rewrite Hc.
    destruct inRun.
    + rewrite (Hrun eq_refl). apply entries_splitFrom_start.
    + change (rev cur :: splitFrom true [] b)
        with ([rev cur] ++ splitFrom true [] b).
      rewrite entries_app, entries_splitFrom_start. reflexivity.
  - cbn [app splitFrom]. destruct (isSeparatorUnit d).
    + destruct inRun.
      * apply IH. reflexivity.
      * change (rev cur :: splitFrom true [] (a ++ c :: b))
          with ([rev cur] ++ splitFrom true [] (a ++ c :: b)).
        change (rev cur :: splitFrom true [] a)
          with ([rev cur] ++ splitFrom true [] a).
        rewrite !entries_app, IH by reflexivity.
        rewrite app_assoc. reflexivity.
    + apply IH. discriminate.
Qed.

(** The list for [a,b] is the list for [a] followed by the list for [b]. *)
Lemma parseSectionListArg_comma (a b : jsstring) :
  parseSectionListArg (a ++ 44%N :: b)
  = parseSectionListArg a ++ parseSectionListArg b.
Proof.
  assert (H : entries (splitFrom false [] (a ++ 44%N :: b))
              = entries (splitFrom false [] a)
                ++ entries (splitFrom false [] b)).
  { apply entries_splitFrom_app; [reflexivity|discriminate]. }
  unfold parseSectionListArg, splitCommaSpace.
  rewrite <- filter_app, <- map_app. do 2 f_equal. exact H.
Qed.

(** C1, counterexample: the list keeps the caller's order, keeps
    duplicates, and keeps values that are not integers. *)
Lemma parseSectionListArg_keeps_order_duplicates_fractions :
  (parseSectionListArg (lit "3,1") = [ofZ 3; ofZ 1]
   /\ ~ strictlyAscending (parseSectionListArg (lit "3,1")))
  /\ (parseSectionListArg (lit "2,2") = [ofZ 2; ofZ 2]
      /\ ~ NoDup (parseSectionListArg (lit "2,2")))
  /\ ~ allIntegers (parseSectionListArg (lit "1.5")).
Proof.
  repeat split.
  - intros H. vm_compute in H.
    inversion H as [|? ? _ Hall]; subst.
    inversion Hall as [|? ? Hgt _]; subst. discriminate Hgt.
  - intros H. vm_compute in H.
    inversion H as [|? ? Hnotin _]; subst. apply Hnotin. left. reflexivity.
  - intros H. vm_compute in H.
    inversion H as [|? ? Hint _]; subst. discriminate Hint.
Qed.

(** C9: the two copies of [parseSectionListArg] agree on every string. *)
Theorem parseSectionListArg_copies_agree (value : jsstring) :
  parseSectionListArg value = parseSectionListArg2 value.
Proof.
  unfold parseSectionListArg, parseSectionListArg2.
  (* the same five stages in the same order *)
  do 2 f_equal.
Qed.

(* ================================================================== *)
(** * Runs of [main] *)
(* ================================================================== *)

(** ** Laws of the trace *)

Section EffLaws.

Context {A B : Type}.

Lemma bind_done (m : Eff A) (k : A -> Eff B) t a :
  m = (t, Done a) -> bind m k = (t ++ fst (k a), snd (k a)).
Proof. intros ->. unfold bind. destruct (k a). reflexivity. Qed.

(** The trace of [bind m k] is the trace of [m], followed, when [m] is
    done, by the trace of the continuation. *)
Lemma bind_cases (m : Eff A) (k : A -> Eff B) :
  (exists e, snd m = Failed e /\ bind m k = (fst m, Failed e))
  \/ (exists a, snd m = Done a
                /\ bind m k = (fst m ++ fst (k a), snd (k a))).
Proof.
  destruct m as [t [a|e]].
  - right. exists a. split; [reflexivity|]. apply bind_done. reflexivity.
  - left. exists e. split; reflexivity.
Qed.

End EffLaws.

(** An invariant of every event of a run goes through [bind]. *)
Lemma bind_Forall {A B} (Q : event -> Prop) (m : Eff A) (k : A -> Eff B) :
  Forall Q (fst m) -> (forall a, Forall Q (fst (k a))) ->
  Forall Q (fst (bind m k)).
Proof.
  intros Hm Hk.
  destruct (bind_cases m k) as [[e [_ ->]]|[a [_ ->]]]; simpl.
  - exact Hm.
  - apply Forall_app. split; [exact Hm|apply Hk].
Qed.

Lemma extractions_app (t t' : list event) :
  extractions (t ++ t') = (extractions t + extractions t')%nat.
Proof. unfold extractions. rewrite filter_app, length_app. reflexivity. Qed.

(** Counting extractions through [bind]. *)
Lemma bind_extractions {A B} (m : Eff A) (k : A -> Eff B) (n n' : nat) :
  (extractions (fst m) <= n)%nat ->
  (forall a, extractions (fst (k a)) <= n')%nat ->
  (extractions (fst (bind m k)) <= n + n')%nat.
Proof.
  intros Hm Hk.
  destruct (bind_cases m k) as [[e [_ ->]]|[a [_ ->]]]; simpl.
  - lia.
  - rewrite extractions_app. specialize (Hk a). lia.
Qed.

Lemma bind_silentOnFailure {A B} (m : Eff A) (k : A -> Eff B) :
  silent (fst m) -> (forall a, silentOnFailure (k a)) ->
  silentOnFailure (bind m k).
Proof.
  intros Hm Hk e.
  destruct (bind_cases m k) as [[e' [_ ->]]|[a [_ ->]]]; simpl.
  - intros _. exact Hm.
  - intros He. apply Forall_app. split; [exact Hm|]. apply (Hk a e He).
Qed.

Lemma done_silentOnFailure {A} (t : list event) (a : A) :
  silentOnFailure (t, Done a).
Proof. intros e He. discriminate He. Qed.

Lemma silent_silentOnFailure {A} (m : Eff A) :
  silent (fst m) -> silentOnFailure m.
Proof. intros H e _. exact H. Qed.

Lemma logEach_done (secs : list SectionInfo) : snd (logEach secs) = Done tt.
Proof.
  induction secs as [|s secs IH]; cbn [logEach].
  - reflexivity.
  - unfold emit. erewrite bind_done by reflexivity. exact IH.
Qed.

Lemma logEach_extractions (secs : list SectionInfo) :
  extractions (fst (logEach secs)) = 0%nat.
Proof.
  induction secs as [|s secs IH]; cbn [logEach].
  - reflexivity.
  - unfold emit. erewrite bind_done by reflexivity. cbn [fst].
    rewrite extractions_app. rewrite IH. reflexivity.
Qed.

Lemma logEach_no_calls (Q : event -> Prop) (secs : list SectionInfo) :
  (forall line, Q (ConsoleLog line)) -> Forall Q (fst (logEach secs)).
Proof.
  intros HQ. induction secs as [|s secs IH]; cbn [logEach].
  - constructor.
  - unfold emit. erewrite bind_done by reflexivity. cbn [fst app].
    constructor; [apply HQ|exact IH].
Qed.

Ltac split_goal_match :=
  match goal with
  | |- context [match ?x with _ => _ end] => destruct x
  end.

(** ** [main] invokes [extractSectionsToNote] at most once *)

Lemma perform_extractions {A} (c : call) (r : outcome A) :
  (extractions (fst (perform c r)) <= 1)%nat.
Proof. destruct c; cbv; lia. Qed.

Ltac count_extractions :=
  repeat first
    [ apply logEach_extractions
    | lazymatch goal with
      | |- (extractions (fst (bind (perform (ExtractSectionsToNote _) _) _))
            <= _)%nat =>
          apply (bind_extractions _ _ (n := 1) (n' := 0));
          [apply perform_extractions|intros]
      | |- (extractions (fst (bind _ _)) <= _)%nat =>
          apply (bind_extractions _ _ (n := 0) (n' := 1));
          [cbv; lia|intros]
      end
    | split_goal_match
    | rewrite logEach_extractions
    | (cbv; lia) ].

Section AtMostOnce.

Variable env : Collaborators.
Variable chain : ParsedOptions -> Mode.
Variable parseSections : jsstring -> list number.

Lemma extractCase_extractions parsed printResult :
  (extractions (fst (extractCase env parseSections parsed printResult)) <= 1)%nat.
Proof. unfold extractCase. count_extractions. Qed.

Lemma jsonSwitch_extractions parsed offset paths m :
  (extractions (fst (jsonSwitch env parseSections parsed offset paths m)) <= 1)%nat.
Proof.
  destruct m; try apply extractCase_extractions;
    cbn [jsonSwitch]; count_extractions.
Qed.

Lemma interactiveSwitch_extractions parsed offset m :
  (extractions (fst (interactiveSwitch env parseSections parsed offset m)) <= 1)%nat.
Proof.
  destruct m; try apply extractCase_extractions;
    cbn [interactiveSwitch]; count_extractions.
Qed.

Lemma dispatch_extractions parsed offset :
  (extractions (fst (dispatch env chain parseSections parsed offset)) <= 1)%nat.
Proof.
  unfold dispatch.
  apply (bind_extractions _ _ (n := 0) (n' := 1)); [cbv; lia|intros paths].
  apply (bind_extractions _ _ (n := 0) (n' := 1)); [cbv; lia|intros _].
  destruct (truthyFlag (jsonArg parsed)).
  - apply jsonSwitch_extractions.
  - apply interactiveSwitch_extractions.
Qed.

Lemma parseArgs_extractions args :
  extractions (fst (parseArgs env args)) = 0%nat.
Proof.
  unfold parseArgs.
  destruct (cliParse env (lit "j" :: args)) as [[[|]|vals]|e]; reflexivity.
Qed.

Lemma mainWith_extractions rawArgs :
  (extractions (fst (mainWith env chain parseSections rawArgs)) <= 1)%nat.
Proof.
  unfold mainWith. destruct (scanArgs rawArgs None) as [offset filteredArgs].
  apply (bind_extractions _ _ (n := 0) (n' := 1)).
  - rewrite parseArgs_extractions. lia.
  - intros [parsed|]; [apply dispatch_extractions|cbv; lia].
Qed.

End AtMostOnce.

Lemma catchAll_extractions (e : failure) : extractions (catchAll e) = 0%nat.
Proof. destruct e as [[|c msg]|]; reflexivity. Qed.

(** C8: whatever the arguments and whatever the collaborators answer, a
    run of the program calls [extractSectionsToNote] at most once; so does
    [main] in each of the two variants of the file. *)
Theorem at_most_one_extraction (env : Collaborators)
    (rawArgs : list jsstring) :
  (extractions (events (program env rawArgs)) <= 1)%nat
  /\ (extractions (fst (main env rawArgs)) <= 1)%nat
  /\ (extractions (fst (main2 env rawArgs)) <= 1)%nat.
Proof.
  assert (H1 := mainWith_extractions env mode parseSectionListArg rawArgs).
  assert (H2 := mainWith_extractions env mode2 parseSectionListArg2 rawArgs).
  split; [|split; assumption].
  unfold program. fold (main env rawArgs) in H1.
  destruct (main env rawArgs) as [t [[]|e]]; cbn [events fst] in *.
  - exact H1.
  - rewrite extractions_app, catchAll_extractions. lia.
Qed.

(** ** What [main] asks of [extractSectionsToNote] and [listSections] *)

Section Requests.

Variable env : Collaborators.
Variable chain : ParsedOptions -> Mode.
Variable parseSections : jsstring -> list number.

Ltac check_events :=
  repeat first
    [ apply Forall_nil
    | apply logEach_no_calls; intros; exact I
    | apply bind_Forall; [|intros]
    | apply Forall_cons; [cbn [expected]; try exact I|]
    | progress cbn [fst perform outputJson emit ret fail]
    | split_goal_match ].

Lemma extractCase_expected parsed printResult :
  chain parsed = Extract ->
  Forall (expected chain parseSections parsed)
         (fst (extractCase env parseSections parsed printResult)).
Proof.
  intros Hmode. unfold extractCase.
  destruct (extract parsed) as [src|] eqn:Hsrc;
    destruct (slugArg parsed) as [slg|] eqn:Hslg; try constructor.
  destruct (truthy src && truthy slg); [|constructor].
  destruct (sectionsArg parsed) as [v|] eqn:Hv; [|constructor].
  destruct (truthy v); [|constructor].
  destruct (parseSections v) as [|x xs] eqn:Hps; [constructor|].
  apply bind_Forall.
  - cbn [fst perform]. constructor; [|constructor]. cbn [expected source slug sections].
    split; [exact Hmode|]. split; [exact Hsrc|]. split; [exact Hslg|].
    exists v. split; [exact Hv|]. split; [symmetry; exact Hps|discriminate].
  - intros _. destruct printResult; repeat constructor.
Qed.

Lemma dispatch_expected parsed offset :
  Forall (expected chain parseSections parsed)
         (fst (dispatch env chain parseSections parsed offset)).
Proof.
  unfold dispatch.
  apply bind_Forall; [repeat constructor|intros paths].
  apply bind_Forall; [repeat constructor|intros _].
  destruct (truthyFlag (jsonArg parsed));
    destruct (chain parsed) eqn:Hmode;
    cbn [jsonSwitch interactiveSwitch];
    try (apply extractCase_expected; assumption);
    check_events; assumption.
Qed.

End Requests.

Lemma expected_requests_of chain parseSections (parsed : ParsedOptions)
    (t : list event) :
  Forall (expected chain parseSections parsed) t ->
  Forall (fun req => extract parsed = Some (source req)
                     /\ slugArg parsed = Some (slug req)
                     /\ exists v, sectionsArg parsed = Some v
                                  /\ sections req = parseSections v
                                  /\ sections req <> [])
         (extractionRequests t).
Proof.
  induction 1 as [|ev t Hev _ IH]; [constructor|].
  destruct ev as [[]| | |]; cbn [extractionRequests flat_map app];
    try exact IH.
  constructor; [|exact IH].
  destruct Hev as (_ & Hsrc & Hslg & Hv). split; [exact Hsrc|].
  split; [exact Hslg|exact Hv].
Qed.

Lemma catchAll_requests (e : failure) : extractionRequests (catchAll e) = [].
Proof. destruct e as [[|c msg]|]; reflexivity. Qed.

Lemma extractionRequests_app (t t' : list event) :
  extractionRequests (t ++ t') = extractionRequests t ++ extractionRequests t'.
Proof. apply flat_map_app. Qed.

Lemma program_requests env rawArgs :
  extractionRequests (events (program env rawArgs))
  = extractionRequests (fst (main env rawArgs)).
Proof.
  unfold program. destruct (main env rawArgs) as [t [[]|e]]; cbn [events fst].
  - reflexivity.
  - rewrite extractionRequests_app, catchAll_requests, app_nil_r.
    reflexivity.
Qed.

Lemma main_requests_of env rawArgs :
  Forall (fun req =>
            exists vals v,
              cliParse env (lit "j" :: snd (scanArgs rawArgs None))
              = Done (UserDefined vals)
              /\ extract vals = Some (source req)
              /\ slugArg vals = Some (slug req)
              /\ sectionsArg vals = Some v
              /\ sections req = parseSectionListArg v
              /\ sections req <> [])
         (extractionRequests (fst (main env rawArgs))).
Proof.
  unfold main, mainWith. destruct (scanArgs rawArgs None) as [offset args].
  cbn [snd]. unfold parseArgs.
  destruct (cliParse env (lit "j" :: args)) as [[[|]|vals]|e] eqn:Hparse;
    try (cbn; constructor).
  cbn [bind perform ret app].
  assert (H := @dispatch_expected env mode parseSectionListArg
                 {| values := vals; tagRequested := isTagRequested args |}
                 offset).
  apply expected_requests_of in H. cbn [values] in H.
  destruct (dispatch _ _ _ _ _) as [t r]. cbn [fst].
  change (extractionRequests (Called (CliParse (lit "j" :: args)) :: t))
    with (extractionRequests t).
  eapply Forall_impl; [|exact H].
  intros req (Hsrc & Hslg & v & Hv & Hsec & Hne).
  exists vals, v. split; [reflexivity|].
  repeat (split; [assumption|]). assumption.
Qed.

(** ** Mode selection *)

Lemma mode_firstSet (p : ParsedOptions) : mode p = firstSet precedence p.
Proof.
  unfold mode, firstSet, precedence. cbn [find fst snd].
  repeat (split_goal_match; try reflexivity).
Qed.

(** ** Failures *)

Ltac check_silence :=
  repeat first
    [ apply done_silentOnFailure
    | apply bind_silentOnFailure; [repeat constructor|intros]
    | (apply silent_silentOnFailure; repeat constructor; fail)
    | (intros ? Hfail; rewrite logEach_done in Hfail; discriminate Hfail)
    | split_goal_match ].

Section Silence.

Variable env : Collaborators.
Variable chain : ParsedOptions -> Mode.
Variable parseSections : jsstring -> list number.

Lemma dispatch_silentOnFailure parsed offset :
  silentOnFailure (dispatch env chain parseSections parsed offset).
Proof.
  unfold dispatch.
  apply bind_silentOnFailure; [repeat constructor|intros paths].
  apply bind_silentOnFailure; [repeat constructor|intros _].
  destruct (truthyFlag (jsonArg parsed)); destruct (chain parsed);
    cbn [jsonSwitch interactiveSwitch]; unfold extractCase, outputJson, emit, ret;
    check_silence.
Qed.

Lemma mainWith_silentOnFailure rawArgs :
  silentOnFailure (mainWith env chain parseSections rawArgs).
Proof.
  unfold mainWith. destruct (scanArgs rawArgs None) as [offset args].
  unfold parseArgs.
  destruct (cliParse env (lit "j" :: args)) as [[[|]|vals]|e] eqn:Hparse.
  - intros e He. discriminate He.
  - intros e He. discriminate He.
  - cbn [bind perform ret]. cbn [app].
    assert (H := dispatch_silentOnFailure
                   {| values := vals; tagRequested := isTagRequested args |}
                   offset).
    destruct (dispatch _ _ _ _ _) as [t r].
    intros e He. cbn [fst snd] in *. constructor; [reflexivity|].
    apply (H e He).
  - intros e' _. repeat constructor.
Qed.

End Silence.

Lemma errorMessages_main env rawArgs e :
  snd (main env rawArgs) = Failed e ->
  errorMessages (fst (main env rawArgs)) = [].
Proof.
  intros Hfail. unfold main, mainWith in *.
  destruct (scanArgs rawArgs None) as [offset args].
  assert (H : forall t : list event,
            Forall (fun ev => match ev with ConsoleError _ => False | _ => True end) t ->
            errorMessages t = []).
  { induction 1 as [|ev l Hev _ IH]; [reflexivity|].
    destruct ev; cbn [errorMessages flat_map app]; try exact IH.
    destruct Hev. }
  apply H. clear H Hfail.
  unfold parseArgs.
  apply bind_Forall.
  - destruct (cliParse env (lit "j" :: args)) as [[[|]|vals]|e'];
      repeat constructor.
  - intros [parsed|]; [|constructor].
    unfold dispatch.
    apply bind_Forall; [repeat constructor|intros paths].
    apply bind_Forall; [repeat constructor|intros _].
    destruct (truthyFlag (jsonArg parsed)); destruct (mode parsed);
      cbn [jsonSwitch interactiveSwitch]; unfold extractCase;
      repeat first
        [ apply Forall_nil
        | apply logEach_no_calls; intros; exact I
        | apply bind_Forall; [|intros]
        | apply Forall_cons; [exact I|]
        | progress cbn [fst perform outputJson emit ret fail]
        | split_goal_match ].
Qed.

Lemma bind_reported {A B} (m : Eff A) (k : A -> Eff B) :
  reported (snd m) -> (forall a, reported (snd (k a))) ->
  reported (snd (bind m k)).
Proof.
  intros Hm Hk.
  destruct (bind_cases m k) as [[e [He ->]]|[a [_ ->]]]; cbn [snd].
  - rewrite He in Hm. exact Hm.
  - apply Hk.
Qed.

Lemma logEach_reported (secs : list SectionInfo) :
  reported (snd (logEach secs)).
Proof. rewrite logEach_done. exact I. Qed.

Ltac check_reported :=
  repeat first
    [ exact I
    | reflexivity
    | apply logEach_reported
    | apply bind_reported; [|intros]
    | progress cbn [snd perform outputJson emit ret fail reported
                    carriesMessage]
    | solve [auto]
    | split_goal_match ].

Section Reported.

Variable env : Collaborators.
Variable chain : ParsedOptions -> Mode.
Variable parseSections : jsstring -> list number.
Hypothesis Henv : reportable env.

Lemma dispatch_reported parsed offset :
  reported (snd (dispatch env chain parseSections parsed offset)).
Proof.
  destruct Henv as (H1 & H2 & H3 & H4 & H5 & H6 & H7 & H8 & H9 & H10 & H11
                    & H12 & H13 & H14 & H15 & H16 & H17 & H18).
  unfold dispatch.
  apply bind_reported; [exact H2|intros paths].
  apply bind_reported; [apply H3|intros _].
  destruct (truthyFlag (jsonArg parsed)); destruct (chain parsed);
    cbn [jsonSwitch interactiveSwitch]; unfold extractCase;
    check_reported.
Qed.

Lemma mainWith_reported rawArgs :
  reported (snd (mainWith env chain parseSections rawArgs)).
Proof.
  unfold mainWith. destruct (scanArgs rawArgs None) as [offset args].
  unfold parseArgs.
  assert (Hparse := proj1 Henv (lit "j" :: args)).
  destruct (cliParse env (lit "j" :: args)) as [[[|]|vals]|e].
  - exact I.
  - exact I.
  - cbn [bind perform ret app].
    assert (H := dispatch_reported
                   {| values := vals; tagRequested := isTagRequested args |}
                   offset).
    destruct (dispatch _ _ _ _ _) as [t r]. exact H.
  - exact Hparse.
Qed.

End Reported.




(** ** Extract invocations *)

Lemma mode_Extract_source (p : ParsedOptions) :
  mode p = Extract -> truthyText (extract p) = true.
Proof.
  unfold mode. repeat (split_goal_match; try discriminate). reflexivity.
Qed.

Lemma extract_run env rawArgs offset args vals paths :
  extractInvocation env rawArgs offset args vals paths ->
  main env rawArgs
  = (prelude args paths
       ++ fst (extractCase env parseSectionListArg
                 {| values := vals; tagRequested := isTagRequested args |}
                 (truthyFlag (jsonArg vals))),
     snd (extractCase env parseSectionListArg
            {| values := vals; tagRequested := isTagRequested args |}
            (truthyFlag (jsonArg vals)))).
Proof.
  intros (Hscan & Hparse & Hpaths & Hmk & Hmode).
  unfold main, mainWith. rewrite Hscan. unfold parseArgs. rewrite Hparse.
  cbn [bind perform ret app]. unfold dispatch. rewrite Hpaths.
  cbn [bind perform app]. rewrite Hmk. cbn [bind perform app].
  rewrite Hmode. cbn [values].
  destruct (truthyFlag (jsonArg vals));
    cbn [jsonSwitch interactiveSwitch];
    destruct (extractCase _ _ _ _) as [t r]; reflexivity.
Qed.

(** The run of an extraction that gets as far as the call. *)
Lemma extraction_run env rawArgs offset args vals paths src slg v :
  extractInvocation env rawArgs offset args vals paths ->
  extract vals = Some src ->
  slugArg vals = Some slg -> truthy slg = true ->
  sectionsArg vals = Some v -> parseSectionListArg v <> [] ->
  let req := {| source := src; sections := parseSectionListArg v;
                slug := slg |} in
  program env rawArgs
  = {| events :=
         prelude args paths
         ++ Called (ExtractSectionsToNote req)
            :: afterExtraction (truthyFlag (jsonArg vals)) req
                               (extractSectionsToNote env req);
       exitCode := match extractSectionsToNote env req with
                   | Done _ => 0
                   | Failed _ => 1
                   end |}.
Proof.
  intros Hinv Hsrc Hslg Hslug Hv Hne req.
  assert (Hrun := extract_run Hinv).
  destruct Hinv as (_ & _ & _ & _ & Hmode).
  apply mode_Extract_source in Hmode. cbn [values] in Hmode.
  unfold program. rewrite Hrun. clear Hrun.
  unfold extractCase, truthyText in *. cbn [values].
  rewrite Hsrc, Hslg, Hv in *. rewrite Hmode, Hslug. cbn [andb].
  destruct v as [|c v]; [exfalso; apply Hne; reflexivity|]. cbn [truthy].
  subst req.
  destruct (parseSectionListArg (c :: v)) as [|x xs] eqn:Hlist;
    [congruence|].
  unfold afterExtraction.
  destruct (extractSectionsToNote env _) as [[]|e];
    destruct (truthyFlag (jsonArg vals)); cbn; rewrite <- ?app_assoc;
    reflexivity.
Qed.

Lemma parseSectionListArg_positiveFinite (v : jsstring) :
  Forall positiveFinite (parseSectionListArg v).
Proof.
  unfold parseSectionListArg, positiveFinite.
  eapply Forall_impl; [|apply filter_Forall].
  intros x Hx. cbv beta in Hx. apply andb_true_iff in Hx. exact Hx.
Qed.

(** C1, amended: for every argument string, [parseSectionListArg] yields
    finite Numbers greater than zero, in the order of the argument: the
    list for [a,b] is the list for [a] followed by the list for [b].
    Every list of sections the program passes to [extractSectionsToNote]
    is [parseSectionListArg] of the value the option parser gave for
    [--sections], and is not empty; and an extract invocation with a slug
    and such a value makes exactly one request, with that list. *)
Theorem section_list_positive_finite_in_order (env : Collaborators)
    (rawArgs : list jsstring) (offset : option number)
    (args : list jsstring) (vals : ParsedOptionValues) (paths : Paths)
    (src slg v a b : jsstring) :
  Forall positiveFinite (parseSectionListArg v)
  /\ parseSectionListArg (a ++ 44%N :: b)
     = parseSectionListArg a ++ parseSectionListArg b
  /\ Forall (fun req =>
               exists vals' v',
                 cliParse env (lit "j" :: snd (scanArgs rawArgs None))
                 = Done (UserDefined vals')
                 /\ sectionsArg vals' = Some v'
                 /\ sections req = parseSectionListArg v'
                 /\ sections req <> []
                 /\ Forall positiveFinite (sections req))
            (extractionRequests (events (program env rawArgs)))
  /\ (extractInvocation env rawArgs offset args vals paths ->
      extract vals = Some src ->
      slugArg vals = Some slg -> truthy slg = true ->
      sectionsArg vals = Some v -> parseSectionListArg v <> [] ->
      extractionRequests (events (program env rawArgs))
      = [{| source := src; sections := parseSectionListArg v;
            slug := slg |}]).
Proof.
  split; [apply parseSectionListArg_positiveFinite|].
  split; [apply parseSectionListArg_comma|]. split.
  - rewrite program_requests.
    eapply Forall_impl; [|apply main_requests_of].
    intros req (vals' & v' & Hparse & _ & _ & Hv & Hsec & Hne).
    exists vals', v'. repeat (split; [assumption|]).
    rewrite Hsec. apply parseSectionListArg_positiveFinite.
  - intros Hinv Hsrc Hslg Hslug Hv Hne.
    rewrite (extraction_run Hinv Hsrc Hslg Hslug Hv Hne). cbn [events].
    rewrite extractionRequests_app.
    cbn [prelude extractionRequests flat_map app].
    unfold afterExtraction.
    destruct (extractSectionsToNote env _) as [[]|[[|c msg]|]];
      destruct (truthyFlag (jsonArg vals)); reflexivity.
Qed.

(** C1, an instance: [j --extract today.md --sections "3, 1,1.5,3"
    --slug ideas] requests the sections 3, 1, 1.5 and 3, in this order. *)
Lemma section_list_positive_finite_in_order_witness :
  let vals := Samples.extractOptions false (Some (lit "3, 1,1.5,3"))
                                     (Some (lit "ideas")) in
  let env := Samples.stub (Done (UserDefined vals)) (Done tt) in
  let rawArgs := [lit "--extract"; lit "today.md"; lit "--sections";
                  lit "3, 1,1.5,3"; lit "--slug"; lit "ideas"] in
  extractionRequests (events (program env rawArgs))
  = [{| source := lit "today.md";
        sections := parseSectionListArg (lit "3, 1,1.5,3");
        slug := lit "ideas" |}]
  /\ map integerOf (parseSectionListArg (lit "3, 1,1.5,3"))
     = [Some 3%Z; Some 1%Z; None; Some 3%Z].
Proof.
  intros vals env rawArgs. split; [|reflexivity].
  apply (proj2 (proj2 (proj2
           (@section_list_positive_finite_in_order env rawArgs None rawArgs
              vals Cases.paths (lit "today.md") (lit "ideas")
              (lit "3, 1,1.5,3") [] [])))).
  - repeat split.
  - reflexivity.
  - reflexivity.
  - reflexivity.
  - reflexivity.
  - discriminate.
Defined.

(** C3, counterexample: [j --extract today.md --sections 1] without
    [--slug] ends with exit code 0 and reports nothing. *)
Lemma missing_slug_not_reported :
  let vals := Samples.extractOptions false (Some (lit "1")) None in
  let env := Samples.stub (Done (UserDefined vals)) (Done tt) in
  let rawArgs := [lit "--extract"; lit "today.md"; lit "--sections"; lit "1"] in
  extractInvocation env rawArgs None rawArgs vals
    {| journalDir := lit "/home/u/journal";
       notesDir := lit "/home/u/journal/notes" |}
  /\ slugArg vals = None
  /\ snd (main env rawArgs) = Done tt
  /\ exitCode (program env rawArgs) = 0%Z
  /\ errorMessages (events (program env rawArgs)) = [].
Proof. repeat split. Qed.

(** C3, amended: in an extract invocation with an empty section list (no
    [--sections], an empty one, or one with no finite positive entry) and
    a slug, the program prints ["Missing extract sections."] on standard
    error and ends with exit code 1; with an empty or missing slug it ends
    with exit code 0 and prints nothing.  In both cases no collaborator is
    called after the journal directory is made: nothing is written. *)
Theorem extract_validation (env : Collaborators) (rawArgs : list jsstring)
    (offset : option number) (args : list jsstring)
    (vals : ParsedOptionValues) (paths : Paths) :
  extractInvocation env rawArgs offset args vals paths ->
  (truthyText (slugArg vals) = true -> requestedSections vals = [] ->
   program env rawArgs
   = {| events := prelude args paths
                  ++ [ConsoleError (lit "Missing extract sections.")];
        exitCode := 1 |})
  /\ (truthyText (slugArg vals) = false ->
      program env rawArgs
      = {| events := prelude args paths; exitCode := 0 |}).
Proof.
  intros Hinv. assert (Hrun := extract_run Hinv).
  destruct Hinv as (_ & _ & _ & _ & Hmode).
  apply mode_Extract_source in Hmode. cbn [values] in Hmode.
  unfold program. rewrite Hrun. clear Hrun.
  unfold extractCase, requestedSections, truthyText in *. cbn [values].
  destruct (extract vals) as [src|]; [|discriminate Hmode].
  rewrite Hmode. cbn [andb].
  split.
  - intros Hslug Hnone.
    destruct (slugArg vals) as [slg|]; [|discriminate Hslug].
    rewrite Hslug.
    destruct (sectionsArg vals) as [v|]; [destruct (truthy v)|];
      try rewrite Hnone; reflexivity.
  - intros Hslug.
    destruct (slugArg vals) as [slg|]; [rewrite Hslug|];
      cbn [fst snd ret]; rewrite app_nil_r; reflexivity.
Qed.

(** C3, instances: [j --extract today.md --sections abc --slug ideas],
    and [j --extract today.md --sections 1] with no slug. *)
Lemma extract_validation_witness :
  let paths := {| journalDir := lit "/home/u/journal";
                  notesDir := lit "/home/u/journal/notes" |} in
  let rawArgs1 := [lit "--extract"; lit "today.md"; lit "--sections";
                   lit "abc"; lit "--slug"; lit "ideas"] in
  let vals1 := Samples.extractOptions false (Some (lit "abc"))
                                      (Some (lit "ideas")) in
  let env1 := Samples.stub (Done (UserDefined vals1)) (Done tt) in
  let rawArgs2 := [lit "--extract"; lit "today.md"; lit "--sections";
                   lit "1"] in
  let vals2 := Samples.extractOptions false (Some (lit "1")) None in
  let env2 := Samples.stub (Done (UserDefined vals2)) (Done tt) in
  (extractInvocation env1 rawArgs1 None rawArgs1 vals1 paths
   /\ requestedSections vals1 = []
   /\ program env1 rawArgs1
      = {| events := prelude rawArgs1 paths
                     ++ [ConsoleError (lit "Missing extract sections.")];
           exitCode := 1 |})
  /\ (extractInvocation env2 rawArgs2 None rawArgs2 vals2 paths
      /\ truthyText (slugArg vals2) = false
      /\ program env2 rawArgs2
         = {| events := prelude rawArgs2 paths; exitCode := 0 |}).
Proof.
  intros paths rawArgs1 vals1 env1 rawArgs2 vals2 env2.
  assert (H1 : extractInvocation env1 rawArgs1 None rawArgs1 vals1 paths)
    by (repeat split).
  assert (H2 : extractInvocation env2 rawArgs2 None rawArgs2 vals2 paths)
    by (repeat split).
  split.
  - split; [exact H1|]. split; [reflexivity|].
    apply (proj1 (extract_validation H1)); reflexivity.
  - split; [exact H2|]. split; [reflexivity|].
    apply (proj2 (extract_validation H2)); reflexivity.
Defined.

(** C5: a successful extraction in JSON mode prints one value, the object
    with [status] ["ok"], the source and the slug of the request, and the
    list parsed from [--sections], after the one call of
    [extractSectionsToNote]. *)
Theorem json_extraction_output (env : Collaborators)
    (rawArgs : list jsstring) (offset : option number)
    (args : list jsstring) (vals : ParsedOptionValues) (paths : Paths)
    (src slg v : jsstring) :
  extractInvocation env rawArgs offset args vals paths ->
  truthyFlag (jsonArg vals) = true ->
  extract vals = Some src ->
  slugArg vals = Some slg -> truthy slg = true ->
  sectionsArg vals = Some v -> parseSectionListArg v <> [] ->
  extractSectionsToNote env
    {| source := src; sections := parseSectionListArg v; slug := slg |}
  = Done tt ->
  program env rawArgs
  = {| events :=
         prelude args paths
         ++ [Called (ExtractSectionsToNote
                       {| source := src; sections := parseSectionListArg v;
                          slug := slg |});
             OutputJson
               (JObject [("status", JString (lit "ok"));
                         ("source", JString src);
                         ("sections",
                          JArray (map JNumber (parseSectionListArg v)));
                         ("slug", JString slg)]%string)];
       exitCode := 0 |}.
Proof.
  intros Hinv Hjson Hsrc Hslg Hslug Hv Hne Hok.
  assert (Hrun := extract_run Hinv).
  destruct Hinv as (_ & _ & _ & _ & Hmode).
  apply mode_Extract_source in Hmode. cbn [values] in Hmode.
  unfold program. rewrite Hrun. clear Hrun.
  unfold extractCase, truthyText in *. cbn [values].
  rewrite Hjson, Hsrc, Hslg, Hv in *. rewrite Hmode, Hslug. cbn [andb].
  destruct v as [|c v]; [exfalso; apply Hne; reflexivity|]. cbn [truthy].
  destruct (parseSectionListArg (c :: v)) as [|x xs]; [congruence|].
  rewrite Hok. reflexivity.
Qed.

(** C5, an instance: [j --extract today.md --sections 3,1 --slug ideas
    --json]. *)
Lemma json_extraction_output_witness :
  let paths := {| journalDir := lit "/home/u/journal";
                  notesDir := lit "/home/u/journal/notes" |} in
  let rawArgs := [lit "--extract"; lit "today.md"; lit "--sections";
                  lit "3,1"; lit "--slug"; lit "ideas"; lit "--json"] in
  let vals := Samples.extractOptions true (Some (lit "3,1"))
                                     (Some (lit "ideas")) in
  let env := Samples.stub (Done (UserDefined vals)) (Done tt) in
  let req := {| source := lit "today.md"; sections := [ofZ 3; ofZ 1];
                slug := lit "ideas" |} in
  extractInvocation env rawArgs None rawArgs vals paths
  /\ program env rawArgs
     = {| events :=
            prelude rawArgs paths
            ++ [Called (ExtractSectionsToNote req);
                OutputJson
                  (JObject [("status", JString (lit "ok"));
                            ("source", JString (lit "today.md"));
                            ("sections",
                             JArray [JNumber (ofZ 3); JNumber (ofZ 1)]);
                            ("slug", JString (lit "ideas"))]%string)];
          exitCode := 0 |}.
Proof.
  intros paths rawArgs vals env req.
  assert (H : extractInvocation env rawArgs None rawArgs vals paths)
    by (repeat split).
  split; [exact H|].
  refine (json_extraction_output (src := lit "today.md") (slg := lit "ideas")
            (v := lit "3,1") H _ _ _ _ _ _ _);
    try reflexivity.
  discriminate.
Defined.

(** ** Mode selection and the extract mode *)

(** C10, counterexample: in [j --extract "" --sections today.md] both
    options are supplied, and the run is a section listing: an option
    whose value is the empty string does not count as set. *)
Lemma empty_extract_lists_sections :
  let vals := Cases.emptyExtractOptions in
  let env :=
    Cases.answering (Samples.stub (Done (UserDefined vals)) (Done tt))
                    (Done Cases.twoSections) (Done None) in
  let rawArgs := [lit "--extract"; lit ""; lit "--sections";
                  lit "today.md"] in
  extract vals = Some (lit "")
  /\ sectionsArg vals = Some (lit "today.md")
  /\ mode (parsedOf vals rawArgs) = Sections
  /\ program env rawArgs
     = {| events :=
            prelude rawArgs Cases.paths
            ++ Called (ListSections (lit "today.md"))
               :: map (fun s => ConsoleLog (sectionLine s))
                      Cases.twoSections;
          exitCode := 0 |}
  /\ extractionRequests (events (program env rawArgs)) = [].
Proof. repeat split. Qed.

Lemma program_no_listing env rawArgs offset args vals paths :
  extractInvocation env rawArgs offset args vals paths ->
  Forall (fun ev => isListing ev = false) (events (program env rawArgs)).
Proof.
  intros Hinv. assert (Hrun := extract_run Hinv).
  unfold program. rewrite Hrun. clear Hrun Hinv.
  assert (Hcase : Forall (fun ev => isListing ev = false)
            (fst (extractCase env parseSectionListArg
                    {| values := vals;
                       tagRequested := isTagRequested args |}
                    (truthyFlag (jsonArg vals))))).
  { unfold extractCase.
    repeat first
      [ apply Forall_nil
      | apply bind_Forall; [|intros]
      | apply Forall_cons; [reflexivity|]
      | progress cbn [fst perform outputJson emit ret fail]
      | split_goal_match ]. }
  destruct (extractCase _ _ _ _) as [t [[]|e]]; cbn [events fst snd] in *.
  - apply Forall_app. split; [repeat constructor|exact Hcase].
  - apply Forall_app. split.
    + apply Forall_app. split; [repeat constructor|exact Hcase].
    + destruct e as [[|c msg]|]; repeat constructor.
Qed.

(** C10, amended: the mode is the one of the first flag set in the order
    date, search, timeline, continue, extract, sections, tag, note, and
    today when none is set; a flag is set when it is true or a string that
    is not empty.  With [--extract] and [--sections] both set the mode is
    never [Sections]; it is [Extract] unless one of the four flags before
    it is set.  A run in mode [Extract] lists no sections; with a slug and
    a list of sections that are not empty, it is the one call of
    [extractSectionsToNote] on [parseSectionListArg] of the [--sections]
    value, followed in JSON mode by the object printed and, when the call
    fails, by the report of the failure. *)
Theorem mode_priority_chain (env : Collaborators) (p : ParsedOptions)
    (rawArgs : list jsstring) (offset : option number)
    (args : list jsstring) (vals : ParsedOptionValues) (paths : Paths)
    (src slg v : jsstring) :
  mode p = firstSet precedence p
  /\ (truthyText (extract p) = true -> truthyText (sectionsArg p) = true ->
      mode p <> Sections
      /\ (truthyFlag (date p) = false -> truthyFlag (search p) = false ->
          truthyFlag (timeline p) = false ->
          truthyFlag (continue p) = false ->
          mode p = Extract))
  /\ (extractInvocation env rawArgs offset args vals paths ->
      Forall (fun ev => isListing ev = false) (events (program env rawArgs))
      /\ (extract vals = Some src ->
          slugArg vals = Some slg -> truthy slg = true ->
          sectionsArg vals = Some v -> parseSectionListArg v <> [] ->
          let req := {| source := src; sections := parseSectionListArg v;
                        slug := slg |} in
          program env rawArgs
          = {| events :=
                 prelude args paths
                 ++ Called (ExtractSectionsToNote req)
                    :: afterExtraction (truthyFlag (jsonArg vals)) req
                                       (extractSectionsToNote env req);
               exitCode := match extractSectionsToNote env req with
                           | Done _ => 0
                           | Failed _ => 1
                           end |})).
Proof.
  split; [apply mode_firstSet|]. split.
  - intros Hx Hs. unfold mode. rewrite Hx. split.
    + repeat (split_goal_match; try discriminate).
    + intros -> -> -> ->. reflexivity.
  - intros Hinv. split; [exact (program_no_listing Hinv)|].
    intros Hsrc Hslg Hslug Hv Hne.
    exact (extraction_run Hinv Hsrc Hslg Hslug Hv Hne).
Qed.

(** C10, instances: [j --extract today.md --sections 2,1 --slug ideas], and
    the same with [--json]; each is an extraction of [[2; 1]]. *)
Lemma mode_priority_chain_witness :
  let run := fun asJson : bool =>
    let vals := Samples.extractOptions asJson (Some (lit "2,1"))
                                       (Some (lit "ideas")) in
    let rawArgs := [lit "--extract"; lit "today.md"; lit "--sections";
                    lit "2,1"; lit "--slug"; lit "ideas"]
                   ++ (if asJson then [lit "--json"] else []) in
    (rawArgs, program (Samples.stub (Done (UserDefined vals)) (Done tt))
                      rawArgs) in
  let req := {| source := lit "today.md"; sections := [ofZ 2; ofZ 1];
                slug := lit "ideas" |} in
  snd (run false)
  = {| events := prelude (fst (run false)) Cases.paths
                 ++ [Called (ExtractSectionsToNote req)];
       exitCode := 0 |}
  /\ snd (run true)
     = {| events :=
            prelude (fst (run true)) Cases.paths
            ++ [Called (ExtractSectionsToNote req);
                OutputJson
                  (JObject [("status", JString (lit "ok"));
                            ("source", JString (lit "today.md"));
                            ("sections",
                             JArray [JNumber (ofZ 2); JNumber (ofZ 1)]);
                            ("slug", JString (lit "ideas"))]%string)];
          exitCode := 0 |}.
Proof.
  intros run req.
  assert (H : forall asJson : bool,
            snd (run asJson)
            = {| events :=
                   prelude (fst (run asJson)) Cases.paths
                   ++ Called (ExtractSectionsToNote req)
                      :: afterExtraction asJson req (Done tt);
                 exitCode := 0 |}).
  { intros asJson.
    set (vals := Samples.extractOptions asJson (Some (lit "2,1"))
                                        (Some (lit "ideas"))).
    set (p := parsedOf vals (fst (run asJson))).
    destruct (@mode_priority_chain
                (Samples.stub (Done (UserDefined vals)) (Done tt)) p
                (fst (run asJson)) None (fst (run asJson)) vals Cases.paths
                (lit "today.md") (lit "ideas") (lit "2,1"))
      as (_ & _ & Hrun).
    assert (Hinv : extractInvocation
                     (Samples.stub (Done (UserDefined vals)) (Done tt))
                     (fst (run asJson)) None (fst (run asJson)) vals
                     Cases.paths)
      by (destruct asJson; repeat split).
    destruct (Hrun Hinv) as [_ Hexact].
    destruct asJson;
      exact (Hexact eq_refl eq_refl eq_refl eq_refl
                    ltac:(discriminate)). }
  split; [exact (H false)|exact (H true)].
Defined.

(* ================================================================== *)
(** * The offset arguments *)
(* ================================================================== *)

Lemma scanArgs_filtered (rawArgs : list jsstring) (offset : option number) :
  snd (scanArgs rawArgs offset)
  = filter (fun arg => negb (isOffsetArg arg)) rawArgs.
Proof.
  revert offset. induction rawArgs as [|arg rest IH]; intros offset.
  - reflexivity.
  - cbn [scanArgs filter]. unfold isOffsetArg.
    destruct (isDashDigits arg); cbn [orb negb]; [apply IH|].
    destruct (startsWith (lit "--offset=") arg); cbn [negb]; [apply IH|].
    specialize (IH offset). destruct (scanArgs rest offset) as [o filtered].
    cbn [snd] in *. rewrite IH. reflexivity.
Qed.

Lemma scanArgs_offset_app (a b : list jsstring) (offset : option number) :
  fst (scanArgs (a ++ b) offset) = fst (scanArgs b (fst (scanArgs a offset))).
Proof.
  revert offset. induction a as [|arg a IH]; intros offset.
  - reflexivity.
  - cbn [app scanArgs].
    destruct (isDashDigits arg); [apply IH|].
    destruct (startsWith (lit "--offset=") arg); [apply IH|].
    specialize (IH offset).
    destruct (scanArgs (a ++ b) offset) as [o f].
    destruct (scanArgs a offset) as [o' f']. cbn [fst] in *. exact IH.
Qed.

Lemma scanArgs_no_offset (rawArgs : list jsstring) (offset : option number) :
  Forall (fun arg => isOffsetArg arg = false) rawArgs ->
  scanArgs rawArgs offset = (offset, rawArgs).
Proof.
  induction 1 as [|arg rest Harg _ IH]; [reflexivity|].
  cbn [scanArgs]. unfold isOffsetArg in Harg.
  apply orb_false_iff in Harg. destruct Harg as [-> ->].
  rewrite IH. reflexivity.
Qed.

Lemma filteredArgs_no_offset (rawArgs : list jsstring)
    (offset : option number) :
  Forall (fun arg => isOffsetArg arg = false) (snd (scanArgs rawArgs offset)).
Proof.
  rewrite scanArgs_filtered. apply Forall_forall. intros arg Hin.
  apply filter_In in Hin. destruct Hin as [_ Hin].
  apply negb_true_iff in Hin. exact Hin.
Qed.

(** X1: the arguments handed to the option parser ([filteredArgs]) are
    the arguments that are neither [-<digits>] nor [--offset=...], all of
    them and in their order; none of them is an offset argument, so the
    loop run on them again keeps them all and sets no offset. *)
Theorem scanArgs_keeps_other_arguments (rawArgs : list jsstring) :
  let filteredArgs := snd (scanArgs rawArgs None) in
  filteredArgs = filter (fun arg => negb (isOffsetArg arg)) rawArgs
  /\ Forall (fun arg => isOffsetArg arg = false) filteredArgs
  /\ scanArgs filteredArgs None = (None, filteredArgs).
Proof.
  cbn zeta. split; [apply scanArgs_filtered|].
  split; [apply filteredArgs_no_offset|].
  apply scanArgs_no_offset. apply filteredArgs_no_offset.
Qed.

Lemma scanArgs_offset_set (arg : jsstring) (after : list jsstring)
    (offset : option number) :
  isOffsetArg arg = true ->
  Forall (fun a => isOffsetArg a = false) after ->
  fst (scanArgs (arg :: after) offset) = Some (offsetOf arg)
  /\ snd (scanArgs (arg :: after) offset) = after.
Proof.
  intros Harg Hafter. cbn [scanArgs].
  unfold isOffsetArg in Harg. unfold offsetOf.
  destruct (isDashDigits arg).
  - rewrite scanArgs_no_offset by exact Hafter. split; reflexivity.
  - cbn [orb] in Harg. rewrite Harg.
    rewrite scanArgs_no_offset by exact Hafter. split; reflexivity.
Qed.

(** X2: the offset of a run is set by the last offset argument, whatever
    comes before it: [Number] of the digits after the dash, or of the text
    after [--offset=]. *)
Theorem scanArgs_last_offset_wins (before after : list jsstring)
    (arg : jsstring) :
  isOffsetArg arg = true ->
  Forall (fun a => isOffsetArg a = false) after ->
  fst (scanArgs (before ++ arg :: after) None) = Some (offsetOf arg).
Proof.
  intros Harg Hafter. rewrite scanArgs_offset_app.
  destruct (@scanArgs_offset_set arg after (fst (scanArgs before None)) Harg Hafter)
    as [Hoffset _].
  exact Hoffset.
Qed.

(** X2, an instance: in [j --offset=1 -2 --date] the offset is 2. *)
Lemma scanArgs_last_offset_wins_witness :
  fst (scanArgs [lit "--offset=1"; lit "-2"; lit "--date"] None)
  = Some (Number (lit "2")).
Proof.
  apply (@scanArgs_last_offset_wins [lit "--offset=1"] [lit "--date"]
           (lit "-2")).
  - reflexivity.
  - repeat constructor.
Defined.

(* ================================================================== *)
(** * Numbers written in decimal digits *)
(* ================================================================== *)

Lemma digits2_pos_iter_xO (p : positive) (k : positive) :
  digits2_pos (Pos.iter xO p k) = (digits2_pos p + k)%positive.
Proof.
  revert p. induction k using Pos.peano_ind; intros p.
  - cbn. lia.
  - rewrite Pos.iter_succ. cbn [digits2_pos]. rewrite IHk. lia.
Qed.

Lemma iter_xO_value (p k : positive) :
  Z.pos (Pos.iter xO p k) = (Z.pos p * 2 ^ Z.pos k)%Z.
Proof.
  revert p. induction k using Pos.peano_ind; intros p.
  - cbn. lia.
  - rewrite Pos.iter_succ, Pos2Z.inj_succ, Z.pow_succ_r by lia.
    rewrite Pos2Z.inj_xO, IHk. lia.
Qed.

(** A mantissa of exactly 53 bits with an exponent in range is not
    rounded. *)
Lemma binary_round_aux_exact (m : positive) (e : Z) :
  Z.pos (digits2_pos m) = 53%Z -> (-1074 <= e <= 971)%Z ->
  binary_round_aux prec emax false (Z.pos m) e loc_Exact
  = S754_finite false m e.
Proof.
  intros Hd He.
  assert (Hshift : (fexp prec emax (Z.pos (digits2_pos m) + e) - e = 0)%Z).
  { rewrite Hd. unfold fexp, emin, prec, emax. lia. }
  unfold binary_round_aux, shr_fexp.
  cbn [Zdigits2 shr_record_of_loc]. rewrite Hshift.
  cbn [shr shr_m loc_of_shr_record round_nearest_even Zdigits2].
  rewrite Hshift. cbn [shr shr_m].
  replace (e <=? emax - prec)%Z with true; [reflexivity|].
  symmetry. apply Z.leb_le. unfold emax, prec. lia.
Qed.

(** A positive integer of at most 53 bits is a Number as it is. *)
Lemma binary_round_small (p : positive) :
  (Z.pos (digits2_pos p) <= 53)%Z ->
  exists m e, binary_round prec emax false p 0 = S754_finite false m e
              /\ (-52 <= e <= 0)%Z /\ (Z.pos m = Z.pos p * 2 ^ (- e))%Z.
Proof.
  intros Hd. unfold binary_round.
  assert (Hfexp : fexp prec emax (Z.pos (digits2_pos p) + 0)
                  = (Z.pos (digits2_pos p) - 53)%Z).
  { unfold fexp, emin, prec, emax. lia. }
  rewrite Hfexp. unfold shl_align.
  destruct (Z.pos (digits2_pos p) - 53 - 0)%Z as [|q|q] eqn:Eq; try lia.
  - exists p, 0%Z. split.
    + rewrite binary_round_aux_exact; [reflexivity|lia|lia].
    + split; [lia|]. cbn. lia.
  - exists (Pos.iter xO p q), (Z.pos (digits2_pos p) - 53)%Z. split.
    + rewrite binary_round_aux_exact; [reflexivity| |lia].
      rewrite digits2_pos_iter_xO. lia.
    + split; [lia|]. rewrite iter_xO_value. f_equal. f_equal. lia.
Qed.

Lemma digits2_pos_lower (p : positive) :
  (2 ^ (Z.pos (digits2_pos p) - 1) <= Z.pos p)%Z.
Proof.
  induction p as [p IH|p IH|]; cbn [digits2_pos].
  - rewrite Pos2Z.inj_succ.
    replace (Z.succ (Z.pos (digits2_pos p)) - 1)%Z
      with (Z.succ (Z.pos (digits2_pos p) - 1))%Z by lia.
    rewrite Z.pow_succ_r by lia. lia.
  - rewrite Pos2Z.inj_succ.
    replace (Z.succ (Z.pos (digits2_pos p)) - 1)%Z
      with (Z.succ (Z.pos (digits2_pos p) - 1))%Z by lia.
    rewrite Z.pow_succ_r by lia. lia.
  - cbn. lia.
Qed.

Lemma digits2_pos_small (p : positive) :
  (Z.pos p < 2 ^ 53)%Z -> (Z.pos (digits2_pos p) <= 53)%Z.
Proof.
  intros Hp. assert (H := digits2_pos_lower p).
  destruct (Z_le_gt_dec (Z.pos (digits2_pos p)) 53) as [Hle|Hgt]; [exact Hle|].
  exfalso.
  assert (2 ^ 53 <= 2 ^ (Z.pos (digits2_pos p) - 1))%Z
    by (apply Z.pow_le_mono_r; lia).
  lia.
Qed.

(** An integer from 1 to 2^53 - 1 is a finite Number above zero, and that
    integer exactly. *)
Lemma ofZ_small (v : Z) :
  (0 < v < 2 ^ 53)%Z ->
  isFinite (ofZ v) = true /\ gt (ofZ v) (ofZ 0) = true
  /\ integerOf (ofZ v) = Some v.
Proof.
  intros Hv. destruct v as [|p|p]; try lia.
  unfold ofZ, binary_normalize.
  destruct (binary_round_small p) as (m & e & -> & He & Hm).
  { apply digits2_pos_small. lia. }
  split; [reflexivity|]. split; [reflexivity|].
  unfold integerOf. destruct (Z.leb_spec 0 e) as [H0|H0].
  - assert (e = 0)%Z by lia. subst e. cbn [option_map]. f_equal.
    rewrite Hm. cbn. lia.
  - assert (Hpow : (0 < 2 ^ (- e))%Z) by (apply Z.pow_pos_nonneg; lia).
    rewrite Hm, Z.mod_mul by lia. cbn [Z.eqb option_map].
    rewrite Z.div_mul by lia. reflexivity.
Qed.

Lemma isDigit_not_space (c : codeUnit) :
  isDigit c = true -> isWhiteSpace c = false /\ isSeparatorUnit c = false.
Proof.
  unfold isDigit, isSeparatorUnit, isWhiteSpace. intros H.
  apply andb_true_iff in H. destruct H as [H1 H2].
  apply N.leb_le in H1, H2.
  cbn [existsb].
  repeat match goal with
         | |- context [N.eqb c ?k] =>
             replace (N.eqb c k) with false by (symmetry; apply N.eqb_neq; lia)
         end.
  replace (8192 <=? c)%N with false by (symmetry; apply N.leb_gt; lia).
  split; reflexivity.
Qed.

Lemma trimStart_digits (s : jsstring) :
  forallb isDigit s = true -> trimStart s = s.
Proof.
  destruct s as [|c s]; [reflexivity|]. cbn [forallb trimStart]. intros H.
  apply andb_true_iff in H. destruct H as [Hc _].
  destruct (isDigit_not_space c Hc) as [-> _]. reflexivity.
Qed.

Lemma trim_digits (s : jsstring) : forallb isDigit s = true -> trim s = s.
Proof.
  intros H. unfold trim, trimEnd. rewrite (trimStart_digits s H).
  rewrite trimStart_digits.
  - apply rev_involutive.
  - rewrite forallb_forall in *. intros c Hc. apply H. apply in_rev. exact Hc.
Qed.

Lemma span_digits (s : jsstring) :
  forallb isDigit s = true -> span isDigit s = (s, []).
Proof.
  induction s as [|c s IH]; [reflexivity|]. cbn [forallb span]. intros H.
  apply andb_true_iff in H. destruct H as [-> Hs]. rewrite (IH Hs). reflexivity.
Qed.

Lemma radixValue_nonneg (s : jsstring) : (0 <= radixValue 10 s)%Z.
Proof.
  unfold radixValue. 
  assert (H : forall acc, (0 <= acc)%Z ->
            (0 <= fold_left (fun acc c => match digitValue c with
                                          | Some d => 10 * acc + d
                                          | None => acc end) s acc)%Z).
  { induction s as [|c s IH]; intros acc Hacc; [exact Hacc|].
    cbn [fold_left]. apply IH. unfold digitValue.
    repeat (match goal with |- context [if ?b then _ else _] => destruct b end); lia. }
  apply H. lia.
Qed.

(** [Number] of a string of decimal digits is the Number value of its
    decimal value. *)
Lemma Number_digits (s : jsstring) :
  isDigits s = true -> Number s = ofZ (radixValue 10 s).
Proof.
  unfold isDigits. intros H. apply andb_true_iff in H. destruct H as [Hne Hd].
  unfold Number. rewrite (trim_digits s Hd).
  destruct s as [|c s]; [discriminate Hne|].
  assert (Hlit : strNumericLiteral (c :: s)
                 = strUnsignedDecimalLiteral false (c :: s)).
  { cbn [forallb] in Hd. apply andb_true_iff in Hd. destruct Hd as [Hc Hs].
    unfold isDigit in Hc. apply andb_true_iff in Hc. destruct Hc as [H1 H2].
    apply N.leb_le in H1, H2.
    unfold strNumericLiteral.
    destruct c as [|c]; [lia|].
    repeat (destruct c as [c|c|]; try lia; try reflexivity).
    destruct s as [|p s]; [reflexivity|].
    cbn [forallb] in Hs. apply andb_true_iff in Hs. destruct Hs as [Hp _].
    unfold isDigit in Hp. apply andb_true_iff in Hp. destruct Hp as [H3 H4].
    apply N.leb_le in H3, H4.
    repeat match goal with
           | |- context [N.eqb p ?k] =>
               replace (N.eqb p k) with false
                 by (symmetry; apply N.eqb_neq; lia)
           end.
    reflexivity. }
  rewrite Hlit. unfold strUnsignedDecimalLiteral.
  assert (Hinf : jsstring_eqb (c :: s) (lit "Infinity") = false).
  { unfold jsstring_eqb. destruct (list_eq_dec N.eq_dec (c :: s) (lit "Infinity")) as [E|_]; [|reflexivity].
    rewrite E in Hd. discriminate Hd. }
  rewrite Hinf, (span_digits _ Hd). cbn [truthy orb exponentPart].
  rewrite app_nil_r. cbn [List.length Z.of_nat Z.sub].
  unfold roundDecimal, ofZ, binary_normalize.
  assert (Hnn := radixValue_nonneg (c :: s)).
  destruct (radixValue 10 (c :: s)) as [|p|p]; [reflexivity| |lia].
  change (0 <=? 0 - 0)%Z with true. cbv iota.
  change (Z.to_pos (10 ^ (0 - 0))) with 1%positive.
  rewrite Pos.mul_1_r. reflexivity.
Qed.

Lemma splitFrom_no_separator (s cur : jsstring) :
  forallb (fun c => negb (isSeparatorUnit c)) s = true ->
  splitFrom false cur s = [rev cur ++ s].
Proof.
  revert cur. induction s as [|c s IH]; intros cur H.
  - cbn [splitFrom]. rewrite app_nil_r. reflexivity.
  - cbn [forallb] in H. apply andb_true_iff in H. destruct H as [Hc Hs].
    apply negb_true_iff in Hc. cbn [splitFrom]. rewrite Hc, (IH _ Hs).
    cbn [rev]. rewrite <- app_assoc. reflexivity.
Qed.

Lemma parseSectionListArg_digits (t : jsstring) :
  isDigits t = true -> (0 < radixValue 10 t < 2 ^ 53)%Z ->
  parseSectionListArg t = [ofZ (radixValue 10 t)].
Proof.
  intros Ht Hv. assert (H := Ht). unfold isDigits in H.
  apply andb_true_iff in H. destruct H as [Hne Hd].
  unfold parseSectionListArg, splitCommaSpace.
  rewrite splitFrom_no_separator.
  - cbn [rev app map filter]. rewrite (trim_digits t Hd), Hne.
    cbn [map filter]. rewrite (Number_digits t Ht).
    destruct (ofZ_small Hv) as (-> & -> & _). reflexivity.
  - rewrite forallb_forall in *. intros c Hc. apply negb_true_iff.
    apply isDigit_not_space. apply Hd. exact Hc.
Qed.

Lemma parseSectionListArg_joinComma (tokens : list jsstring) :
  Forall (fun t => isDigits t = true /\ (0 < radixValue 10 t < 2 ^ 53)%Z)
         tokens ->
  parseSectionListArg (joinComma tokens)
  = map (fun t => ofZ (radixValue 10 t)) tokens.
Proof.
  induction 1 as [|t rest [Ht Hv] Hrest IH]; [reflexivity|].
  destruct rest as [|t' rest].
  - cbn [joinComma map]. apply parseSectionListArg_digits; assumption.
  - change (joinComma (t :: t' :: rest))
      with (t ++ 44%N :: joinComma (t' :: rest)).
    rewrite parseSectionListArg_comma, IH,
      (parseSectionListArg_digits t Ht Hv).
    reflexivity.
Qed.

Lemma integerOf_digits (tokens : list jsstring) :
  Forall (fun t => isDigits t = true /\ (0 < radixValue 10 t < 2 ^ 53)%Z)
         tokens ->
  map integerOf (map (fun t => ofZ (radixValue 10 t)) tokens)
  = map (fun t => Some (radixValue 10 t)) tokens.
Proof.
  intros H. rewrite map_map. apply map_ext_in. intros t Hin.
  rewrite Forall_forall in H. destruct (H t Hin) as [_ Hv].
  apply (ofZ_small Hv).
Qed.

(** X3: a [--sections] value made of decimal integers from 1 to 2^53 - 1
    joined by commas is read back exactly: [parseSectionListArg] gives, in
    order, one Number for each, which is that integer (no rounding, no
    entry dropped or merged). *)
Theorem parseSectionListArg_decodes_decimal_list (tokens : list jsstring) :
  Forall (fun t => isDigits t = true /\ (0 < radixValue 10 t < 2 ^ 53)%Z)
         tokens ->
  parseSectionListArg (joinComma tokens)
  = map (fun t => ofZ (radixValue 10 t)) tokens
  /\ map integerOf (parseSectionListArg (joinComma tokens))
     = map (fun t => Some (radixValue 10 t)) tokens.
Proof.
  intros H. rewrite (parseSectionListArg_joinComma H).
  split; [reflexivity|]. apply integerOf_digits. exact H.
Qed.

(** X3, an instance: ["3,10,9007199254740991"] gives 3, 10 and
    2^53 - 1. *)
Lemma parseSectionListArg_decodes_decimal_list_witness :
  parseSectionListArg (lit "3,10,9007199254740991")
  = [ofZ 3; ofZ 10; ofZ 9007199254740991]
  /\ map integerOf (parseSectionListArg (lit "3,10,9007199254740991"))
     = [Some 3%Z; Some 10%Z; Some 9007199254740991%Z].
Proof.
  apply (@parseSectionListArg_decodes_decimal_list
           [lit "3"; lit "10"; lit "9007199254740991"]).
  repeat constructor.
Defined.

Lemma parseSectionListArg_separator (c : codeUnit) (a b : jsstring) :
  isSeparatorUnit c = true ->
  parseSectionListArg (a ++ c :: b)
  = parseSectionListArg a ++ parseSectionListArg b.
Proof.
  intros Hc.
  assert (H : entries (splitFrom false [] (a ++ c :: b))
              = entries (splitFrom false [] a)
                ++ entries (splitFrom false [] b)).
  { apply entries_splitFrom_app; [exact Hc|discriminate]. }
  unfold parseSectionListArg, splitCommaSpace.
  rewrite <- filter_app, <- map_app. do 2 f_equal. exact H.
Qed.

(** X4: any non-empty run of commas and white space separates two
    entries and nothing more: the list of [a], a run, [b] is the list of
    [a] followed by the list of [b]; a run at the start or at the end, or
    alone, adds no entry. *)
Theorem parseSectionListArg_separator_runs (a seps b : jsstring) :
  seps <> [] -> forallb isSeparatorUnit seps = true ->
  parseSectionListArg (a ++ seps ++ b)
  = parseSectionListArg a ++ parseSectionListArg b
  /\ parseSectionListArg (seps ++ b) = parseSectionListArg b
  /\ parseSectionListArg (a ++ seps) = parseSectionListArg a
  /\ parseSectionListArg seps = [].
Proof.
  intros Hne Hseps.
  assert (Hgen : forall x y, parseSectionListArg (x ++ seps ++ y)
                             = parseSectionListArg x ++ parseSectionListArg y).
  { clear a b. induction seps as [|c seps IH]; [contradiction|].
    intros x y. cbn [forallb] in Hseps. apply andb_true_iff in Hseps.
    destruct Hseps as [Hc Hrest]. cbn [app].
    rewrite (@parseSectionListArg_separator c x (seps ++ y) Hc).
    destruct seps as [|c' seps]; [reflexivity|].
    f_equal. apply (IH ltac:(discriminate) Hrest []). }
  split; [apply Hgen|]. split; [apply (Hgen [] b)|]. split.
  - rewrite <- (app_nil_r seps) at 1. rewrite Hgen, app_nil_r. reflexivity.
  - rewrite <- (app_nil_r seps). apply (Hgen [] []).
Qed.

(** X4, an instance: the run [" ,\t, "] between ["1"] and ["2"]. *)
Lemma parseSectionListArg_separator_runs_witness :
  let seps := [32; 44; 9; 44; 32]%N in
  parseSectionListArg (lit "1" ++ seps ++ lit "2")
  = parseSectionListArg (lit "1") ++ parseSectionListArg (lit "2")
  /\ parseSectionListArg (seps ++ lit "2") = parseSectionListArg (lit "2")
  /\ parseSectionListArg (lit "1" ++ seps) = parseSectionListArg (lit "1")
  /\ parseSectionListArg seps = [].
Proof.
  intros seps.
  apply (@parseSectionListArg_separator_runs (lit "1") seps (lit "2")).
  - discriminate.
  - reflexivity.
Defined.

(** X5: an offset given as [-<digits>] is never lost to rounding or to
    the syntax of [Number]: when it is the last offset argument and its
    digits stand for an integer below 2^53, the offset of the run is that
    integer. *)
Theorem dash_offset_is_exact (before after : list jsstring) (arg : jsstring) :
  isDashDigits arg = true ->
  (radixValue 10 (slice 1 arg) < 2 ^ 53)%Z ->
  Forall (fun a => isOffsetArg a = false) after ->
  exists offset,
    fst (scanArgs (before ++ arg :: after) None) = Some offset
    /\ integerOf offset = Some (radixValue 10 (slice 1 arg)).
Proof.
  intros Hdash Hsmall Hafter.
  rewrite scanArgs_offset_app. cbn [scanArgs]. rewrite Hdash.
  rewrite scanArgs_no_offset by exact Hafter. cbn [fst].
  eexists. split; [reflexivity|].
  assert (Hdigits : isDigits (slice 1 arg) = true).
  { unfold isDashDigits in Hdash.
    destruct arg as [|c rest]; [discriminate Hdash|].
    destruct c as [|p]; [discriminate Hdash|].
    do 6 (try destruct p as [p|p|]; try discriminate Hdash).
    destruct rest as [|d ds]; [discriminate Hdash|].
    exact Hdash. }
  rewrite (Number_digits _ Hdigits).
  assert (Hnn := radixValue_nonneg (slice 1 arg)).
  destruct (Z.eq_dec (radixValue 10 (slice 1 arg)) 0) as [->|Hnz].
  - reflexivity.
  - apply ofZ_small. lia.
Qed.

(** X5, an instance: in [j -007 --date] the offset is 7. *)
Lemma dash_offset_is_exact_witness :
  exists offset,
    fst (scanArgs [lit "-007"; lit "--date"] None) = Some offset
    /\ integerOf offset = Some 7%Z.
Proof.
  apply (@dash_offset_is_exact [] [lit "--date"] (lit "-007")).
  - reflexivity.
  - reflexivity.
  - repeat constructor.
Defined.

(* ================================================================== *)
(** * More runs of [main] *)
(* ================================================================== *)

Lemma mainWith_parsed env chain parseSections rawArgs offset args vals :
  scanArgs rawArgs None = (offset, args) ->
  cliParse env (lit "j" :: args) = Done (UserDefined vals) ->
  mainWith env chain parseSections rawArgs
  = (Called (CliParse (lit "j" :: args))
       :: fst (dispatch env chain parseSections
                 {| values := vals; tagRequested := isTagRequested args |}
                 offset),
     snd (dispatch env chain parseSections
            {| values := vals; tagRequested := isTagRequested args |}
            offset)).
Proof.
  intros Hscan Hparse. unfold mainWith. rewrite Hscan. unfold parseArgs.
  rewrite Hparse. cbn [bind perform ret app].
  destruct (dispatch _ _ _ _ _) as [t r]. reflexivity.
Qed.

Lemma mainWith_not_parsed env chain parseSections rawArgs :
  (forall vals, cliParse env (lit "j" :: snd (scanArgs rawArgs None))
                <> Done (UserDefined vals)) ->
  Forall (fun ev => isAction ev = false)
         (fst (mainWith env chain parseSections rawArgs)).
Proof.
  intros Hparse. unfold mainWith.
  destruct (scanArgs rawArgs None) as [offset args]. cbn [snd] in Hparse.
  unfold parseArgs.
  destruct (cliParse env (lit "j" :: args)) as [[[|]|vals]|e];
    try (cbn; repeat constructor).
  exfalso. apply (Hparse vals). reflexivity.
Qed.

Lemma dispatch_prefix env chain parseSections parsed offset :
  Forall (fun ev => isAction ev = false)
         (fst (dispatch env chain parseSections parsed offset))
  \/ exists paths t,
       getJournalPaths env = Done paths
       /\ makeDirectory env (journalDir paths) = Done tt
       /\ fst (dispatch env chain parseSections parsed offset)
          = Called GetJournalPaths :: Called (MakeDirectory (journalDir paths))
              :: t.
Proof.
  unfold dispatch.
  destruct (getJournalPaths env) as [paths|e]; cbn [bind perform].
  2: { left. repeat constructor. }
  destruct (makeDirectory env (journalDir paths)) as [[]|e] eqn:Hmk;
    cbn [bind perform].
  2: { left. repeat constructor. }
  right. exists paths.
  destruct (if truthyFlag (jsonArg parsed) then _ else _) as [t r].
  exists t. split; [reflexivity|]. split; [exact Hmk|reflexivity].
Qed.

Lemma program_events env rawArgs :
  exists tail,
    events (program env rawArgs) = fst (main env rawArgs) ++ tail
    /\ Forall (fun ev => isAction ev = false) tail.
Proof.
  unfold program. destruct (main env rawArgs) as [t [[]|e]]; cbn [events fst].
  - exists []. rewrite app_nil_r. split; constructor.
  - exists (catchAll e). split; [reflexivity|].
    destruct e as [[|c msg]|]; repeat constructor.
Qed.

(** X6: no action of [./actions] is called before the journal directory
    is there: a run that calls one has parsed its options, obtained the
    journal paths and made the journal directory, in that order and
    before anything else. *)
Theorem actions_after_journal_directory (env : Collaborators)
    (rawArgs : list jsstring) (ev : event) :
  In ev (events (program env rawArgs)) -> isAction ev = true ->
  exists paths,
    getJournalPaths env = Done paths
    /\ makeDirectory env (journalDir paths) = Done tt
    /\ firstn 3 (events (program env rawArgs))
       = prelude (snd (scanArgs rawArgs None)) paths.
Proof.
  intros Hin Hact.
  destruct (program_events env rawArgs) as (tail & Hev & Htail).
  rewrite Hev in *. clear Hev.
  assert (Hmain : In ev (fst (main env rawArgs))).
  { apply in_app_or in Hin. destruct Hin as [Hin|Hin]; [exact Hin|].
    rewrite Forall_forall in Htail. rewrite (Htail ev Hin) in Hact.
    discriminate Hact. }
  clear Hin Htail. unfold main in *.
  destruct (scanArgs rawArgs None) as [offset args] eqn:Hscan. cbn [snd].
  destruct (cliParse env (lit "j" :: args)) as [[b|vals]|e] eqn:Hparse.
  1, 3: exfalso;
    assert (H := @mainWith_not_parsed env mode parseSectionListArg rawArgs);
    rewrite Hscan in H; cbn [snd] in H;
    assert (Hno : forall vals, cliParse env (lit "j" :: args)
                               <> Done (UserDefined vals))
      by (intros vals; rewrite Hparse; discriminate);
    specialize (H Hno); rewrite Forall_forall in H;
    rewrite (H ev Hmain) in Hact; discriminate Hact.
  rewrite (mainWith_parsed env mode parseSectionListArg rawArgs Hscan Hparse)
    in *.
  cbn [fst] in *.
  destruct (dispatch_prefix env mode parseSectionListArg
              {| values := vals; tagRequested := isTagRequested args |} offset)
    as [Hnone|(paths & t & Hpaths & Hmk & Ht)].
  - exfalso. destruct Hmain as [H|Hmain]; [subst ev; discriminate Hact|].
    rewrite Forall_forall in Hnone. rewrite (Hnone ev Hmain) in Hact.
    discriminate Hact.
  - exists paths. split; [exact Hpaths|]. split; [exact Hmk|].
    rewrite Ht. reflexivity.
Qed.

(** X6, an instance: the extraction of
    [j --extract today.md --sections 1 --slug ideas]. *)
Lemma actions_after_journal_directory_witness :
  let vals := Samples.extractOptions false (Some (lit "1"))
                                     (Some (lit "ideas")) in
  let env := Samples.stub (Done (UserDefined vals)) (Done tt) in
  let rawArgs := [lit "--extract"; lit "today.md"; lit "--sections";
                  lit "1"; lit "--slug"; lit "ideas"] in
  exists paths,
    getJournalPaths env = Done paths
    /\ makeDirectory env (journalDir paths) = Done tt
    /\ firstn 3 (events (program env rawArgs)) = prelude rawArgs paths.
Proof.
  intros vals env rawArgs.
  apply (@actions_after_journal_directory env rawArgs
           (Called (ExtractSectionsToNote
                      {| source := lit "today.md";
                         sections := parseSectionListArg (lit "1");
                         slug := lit "ideas" |}))).
  - do 3 right. left. reflexivity.
  - reflexivity.
Defined.

Ltac step_run :=
  match goal with
  | |- context [match ?x with _ => _ end] =>
      lazymatch x with
      | context [match _ with _ => _ end] => fail
      | _ => destruct x eqn:?
      end
  end.

Lemma mode_Sections_source (p : ParsedOptions) :
  mode p = Sections -> truthyText (sectionsArg p) = true.
Proof.
  unfold mode. repeat (split_goal_match; try discriminate). reflexivity.
Qed.

Lemma program_done env rawArgs :
  snd (main env rawArgs) = Done tt ->
  program env rawArgs = {| events := fst (main env rawArgs); exitCode := 0 |}.
Proof.
  unfold program. destruct (main env rawArgs) as [t [[]|e]]; cbn [snd fst].
  - reflexivity.
  - discriminate.
Qed.

Lemma main_parsed env rawArgs offset args vals :
  parsesTo env rawArgs offset args vals ->
  main env rawArgs
  = (Called (CliParse (lit "j" :: args))
       :: fst (dispatch env mode parseSectionListArg (parsedOf vals args)
                        offset),
     snd (dispatch env mode parseSectionListArg (parsedOf vals args) offset)).
Proof. intros [Hscan Hparse]. apply mainWith_parsed; assumption. Qed.

(** X7: a run in JSON mode that succeeds prints exactly one JSON value
    on standard output and no other line; the one exception is the extract
    mode without a slug, which prints nothing. *)
Theorem json_mode_prints_one_value (env : Collaborators)
    (rawArgs : list jsstring) (offset : option number)
    (args : list jsstring) (vals : ParsedOptionValues) :
  parsesTo env rawArgs offset args vals ->
  truthyFlag (jsonArg vals) = true ->
  exitCode (program env rawArgs) = 0%Z ->
  (exists v, stdout (events (program env rawArgs)) = [OutputJson v])
  \/ (mode (parsedOf vals args) = Extract
      /\ truthyText (slugArg vals) = false
      /\ stdout (events (program env rawArgs)) = []).
Proof.
  intros Hp Hjson Hexit.
  assert (Hmain := main_parsed Hp).
  unfold program in *. rewrite Hmain in *. clear Hmain Hp.
  unfold dispatch in *. cbn [jsonArg values parsedOf] in *. rewrite Hjson in *.
  set (p := parsedOf vals args) in *.
  destruct (getJournalPaths env) as [paths|e]; [|discriminate Hexit].
  cbn [bind perform] in *.
  destruct (makeDirectory env (journalDir paths)) as [[]|e];
    [|discriminate Hexit].
  cbn [bind perform] in *.
  assert (Hx := @mode_Extract_source p).
  assert (Hs := @mode_Sections_source p).
  cbn [parsedOf values] in Hx, Hs. unfold truthyText in Hx, Hs.
  destruct (mode p) eqn:Hmode; cbn [jsonSwitch] in *.
  all: unfold extractCase, outputJson, emit, perform, bind, fail, ret,
         entriesObject in *.
  all: repeat (step_run; cbn in *; try discriminate Hexit).
  all: try (left; eexists; reflexivity).
  all: try (specialize (Hs eq_refl); discriminate Hs).
  all: specialize (Hx eq_refl); try discriminate Hx.
  all: right; split; [reflexivity|]; split; [|reflexivity].
  all: first [reflexivity | rewrite Hx in *; assumption].
Qed.

(** X7, an instance: [j --sections today.md --json] prints one object. *)
Lemma json_mode_prints_one_value_witness :
  let vals := Cases.sectionsOptions true (lit "today.md") in
  let env :=
    Cases.answering (Samples.stub (Done (UserDefined vals)) (Done tt))
                    (Done Cases.twoSections) (Done None) in
  let rawArgs := [lit "--sections"; lit "today.md"; lit "--json"] in
  (exists v, stdout (events (program env rawArgs)) = [OutputJson v])
  \/ (mode (parsedOf vals rawArgs) = Extract
      /\ truthyText (slugArg vals) = false
      /\ stdout (events (program env rawArgs)) = []).
Proof.
  intros vals env rawArgs.
  apply (@json_mode_prints_one_value env rawArgs None rawArgs vals).
  - split; reflexivity.
  - reflexivity.
  - reflexivity.
Defined.

Ltac check_trace :=
  repeat first
    [ apply Forall_nil
    | apply logEach_no_calls; intros; reflexivity
    | apply bind_Forall; [|intros]
    | apply Forall_cons; [reflexivity|]
    | progress cbn [fst perform outputJson emit ret fail]
    | split_goal_match ].

Lemma dispatch_one_side env chain parseSections (parsed : ParsedOptions)
    offset :
  Forall (fun ev => (if truthyFlag (jsonArg parsed)
                     then isInteractive ev else isJsonSide ev) = false)
         (fst (dispatch env chain parseSections parsed offset)).
Proof.
  unfold dispatch.
  destruct (truthyFlag (jsonArg parsed)).
  - apply bind_Forall; [repeat constructor|intros paths].
    apply bind_Forall; [repeat constructor|intros _].
    destruct (chain parsed); cbn [jsonSwitch]; unfold extractCase;
      check_trace.
  - apply bind_Forall; [repeat constructor|intros paths].
    apply bind_Forall; [repeat constructor|intros _].
    destruct (chain parsed); cbn [interactiveSwitch]; unfold extractCase;
      check_trace.
Qed.

(** X8: the two halves of [main] stay apart, by the option [json] as the
    option parser gives it ([parsed.json]).  When it is true, the run calls
    no action that opens the editor or a picker; when it is not, the run
    calls no action that only collects data and prints no JSON value.
    Whether [--json] among the arguments makes it true is the parser's
    matter. *)
Theorem json_and_interactive_actions_apart (env : Collaborators)
    (rawArgs : list jsstring) (offset : option number)
    (args : list jsstring) (vals : ParsedOptionValues) :
  parsesTo env rawArgs offset args vals ->
  Forall (fun ev => (if truthyFlag (jsonArg vals)
                     then isInteractive ev else isJsonSide ev) = false)
         (events (program env rawArgs)).
Proof.
  intros Hp.
  assert (H := @dispatch_one_side env mode parseSectionListArg
                 (parsedOf vals args) offset).
  cbn [parsedOf values] in H.
  assert (Hmain := main_parsed Hp).
  unfold program. rewrite Hmain.
  destruct (snd (dispatch _ _ _ _ _)) as [[]|e]; cbn [events].
  - constructor; [destruct (truthyFlag (jsonArg vals)); reflexivity|exact H].
  - constructor; [destruct (truthyFlag (jsonArg vals)); reflexivity|].
    apply Forall_app. split; [exact H|].
    destruct e as [[|c msg]|]; repeat constructor;
      destruct (truthyFlag (jsonArg vals)); reflexivity.
Qed.

(** X8, instances: [j --continue --json] with an entry to continue; and
    [j --tag --json] read by the parser as the tag ["--json"] with no
    [json] option, which browses that tag and prints no JSON. *)
Lemma json_and_interactive_actions_apart_witness :
  let vals1 := Cases.continueOptions true in
  let env1 :=
    Cases.answering (Samples.stub (Done (UserDefined vals1)) (Done tt))
                    (Done []) (Done (Some (lit "/home/u/journal/a.md"))) in
  let rawArgs1 := [lit "--continue"; lit "--json"] in
  let vals2 := Cases.tagJsonOptions in
  let env2 := Samples.stub (Done (UserDefined vals2)) (Done tt) in
  let rawArgs2 := [lit "--tag"; lit "--json"] in
  Forall (fun ev => isInteractive ev = false)
         (events (program env1 rawArgs1))
  /\ Forall (fun ev => isJsonSide ev = false)
            (events (program env2 rawArgs2))
  /\ events (program env2 rawArgs2)
     = prelude rawArgs2 Cases.paths
       ++ [Called (TagBrowse (Some (lit "--json")))].
Proof.
  intros vals1 env1 rawArgs1 vals2 env2 rawArgs2. split; [|split].
  - apply (@json_and_interactive_actions_apart env1 rawArgs1 None rawArgs1
             vals1).
    split; reflexivity.
  - apply (@json_and_interactive_actions_apart env2 rawArgs2 None rawArgs2
             vals2).
    split; reflexivity.
  - reflexivity.
Defined.

Lemma dispatch_offset env chain parseSections (parsed : ParsedOptions)
    (o1 o2 : option number) :
  chain parsed <> Today ->
  dispatch env chain parseSections parsed o1
  = dispatch env chain parseSections parsed o2.
Proof.
  intros Hmode. unfold dispatch.
  destruct (chain parsed); [contradiction|..]; reflexivity.
Qed.

(** X9: an offset matters in the mode [Today] only: when the options
    select any other mode, the run is the run of the same arguments with
    the offset arguments left out. *)
Theorem offset_only_for_today (env : Collaborators) (rawArgs : list jsstring) :
  let args := snd (scanArgs rawArgs None) in
  (forall vals, cliParse env (lit "j" :: args) = Done (UserDefined vals) ->
                mode (parsedOf vals args) <> Today) ->
  program env rawArgs = program env args.
Proof.
  intros args Hmode.
  assert (Hargs : scanArgs args None = (None, args)).
  { apply scanArgs_no_offset. apply filteredArgs_no_offset. }
  subst args.
  destruct (scanArgs rawArgs None) as [offset args] eqn:Hscan.
  cbn [snd] in *.
  assert (Hmain : main env rawArgs = main env args).
  { unfold main, mainWith. rewrite Hscan, Hargs.
    unfold parseArgs.
    destruct (cliParse env (lit "j" :: args)) as [[[|]|vals]|e];
      try reflexivity.
    cbn [bind perform ret app].
    rewrite (@dispatch_offset env mode parseSectionListArg
               {| values := vals; tagRequested := isTagRequested args |}
               offset None (Hmode vals eq_refl)).
    reflexivity. }
  unfold program. rewrite Hmain. reflexivity.
Qed.

(** X9, an instance: [j -3 --continue --json] runs as
    [j --continue --json]. *)
Lemma offset_only_for_today_witness :
  let env := Samples.stub (Done (UserDefined (Cases.continueOptions true)))
                          (Done tt) in
  program env [lit "-3"; lit "--continue"; lit "--json"]
  = program env [lit "--continue"; lit "--json"].
Proof.
  intros env.
  apply (@offset_only_for_today env
           [lit "-3"; lit "--continue"; lit "--json"]).
  intros vals Hparse. injection Hparse as <-. discriminate.
Defined.

Lemma main_switch env rawArgs offset args vals paths :
  parsesTo env rawArgs offset args vals -> journalReady env paths ->
  let p := parsedOf vals args in
  let switch :=
    if truthyFlag (jsonArg vals)
    then jsonSwitch env parseSectionListArg p offset paths (mode p)
    else interactiveSwitch env parseSectionListArg p offset (mode p) in
  main env rawArgs = (prelude args paths ++ fst switch, snd switch).
Proof.
  intros Hp [Hpaths Hmk] p switch. rewrite (main_parsed Hp).
  unfold dispatch. rewrite Hpaths. cbn [bind perform]. rewrite Hmk.
  cbn [bind perform]. fold p. cbn [jsonArg values parsedOf p]. fold switch.
  destruct switch as [t r]. reflexivity.
Qed.

Lemma logEach_trace (secs : list SectionInfo) :
  logEach secs = (map (fun s => ConsoleLog (sectionLine s)) secs, Done tt).
Proof.
  induction secs as [|s secs IH]; [reflexivity|].
  cbn [logEach map]. rewrite IH. reflexivity.
Qed.

(** X10: [j --sections <file>] lists the sections [listSections] gives,
    all of them and in its order: one line for each without [--json], and
    with [--json] one object holding the source and the sections; nothing
    else is called or printed, and the run succeeds. *)
Theorem sections_listing_in_order (env : Collaborators)
    (rawArgs : list jsstring) (offset : option number)
    (args : list jsstring) (vals : ParsedOptionValues) (paths : Paths)
    (src : jsstring) (secs : list SectionInfo) :
  parsesTo env rawArgs offset args vals -> journalReady env paths ->
  mode (parsedOf vals args) = Sections ->
  sectionsArg vals = Some src ->
  listSections env src = Done secs ->
  program env rawArgs
  = {| events :=
         prelude args paths
         ++ Called (ListSections src)
            :: (if truthyFlag (jsonArg vals)
                then [OutputJson
                        (JObject [("source", JString src);
                                  ("sections",
                                   JArray (map jsonOfSection secs))]%string)]
                else map (fun s => ConsoleLog (sectionLine s)) secs);
       exitCode := 0 |}.
Proof.
  intros Hp Hready Hmode Hsrc Hlist.
  assert (Hs := mode_Sections_source _ Hmode).
  cbn [parsedOf values] in Hs. unfold truthyText in Hs. rewrite Hsrc in Hs.
  destruct src as [|c src]; [discriminate Hs|].
  unfold program. rewrite (main_switch Hp Hready). rewrite Hmode.
  destruct (truthyFlag (jsonArg vals));
    cbn [jsonSwitch interactiveSwitch parsedOf values];
    rewrite Hsrc, Hlist; cbn [bind perform].
  - reflexivity.
  - rewrite logEach_trace. reflexivity.
Qed.

(** X10, an instance: the two sections of [today.md], line by line. *)
Lemma sections_listing_in_order_witness :
  let vals := Cases.sectionsOptions false (lit "today.md") in
  let env :=
    Cases.answering (Samples.stub (Done (UserDefined vals)) (Done tt))
                    (Done Cases.twoSections) (Done None) in
  let rawArgs := [lit "--sections"; lit "today.md"] in
  program env rawArgs
  = {| events :=
         prelude rawArgs Cases.paths
         ++ Called (ListSections (lit "today.md"))
            :: map (fun s => ConsoleLog (sectionLine s)) Cases.twoSections;
       exitCode := 0 |}.
Proof.
  intros vals env rawArgs.
  apply (@sections_listing_in_order env rawArgs None rawArgs vals Cases.paths
           (lit "today.md") Cases.twoSections).
  - split; reflexivity.
  - split; reflexivity.
  - reflexivity.
  - reflexivity.
  - reflexivity.
Defined.

(** X11: [j --continue --json] prints the path of the most recent entry
    when there is one; when there is none (or its path is empty) it prints
    nothing on standard output, reports "No entries found." on standard
    error and ends with exit code 1. *)
Theorem continue_json_needs_recent_entry (env : Collaborators)
    (rawArgs : list jsstring) (offset : option number)
    (args : list jsstring) (vals : ParsedOptionValues) (paths : Paths)
    (recent : option jsstring) :
  parsesTo env rawArgs offset args vals -> journalReady env paths ->
  mode (parsedOf vals args) = Continue ->
  truthyFlag (jsonArg vals) = true ->
  getMostRecentPath env = Done recent ->
  program env rawArgs
  = if truthyText recent
    then {| events :=
              prelude args paths
              ++ [Called GetMostRecentPath;
                  OutputJson
                    (JObject [("path",
                               JString (match recent with
                                        | Some path => path
                                        | None => []
                                        end))]%string)];
            exitCode := 0 |}
    else {| events :=
              prelude args paths
              ++ [Called GetMostRecentPath;
                  ConsoleError (lit "No entries found.")];
            exitCode := 1 |}.
Proof.
  intros Hp Hready Hmode Hjson Hrecent.
  unfold program. rewrite (main_switch Hp Hready). rewrite Hmode, Hjson.
  cbn [jsonSwitch]. rewrite Hrecent. cbn [bind perform].
  destruct recent as [[|c path]|]; reflexivity.
Qed.

(** X11, an instance: no entry to continue. *)
Lemma continue_json_needs_recent_entry_witness :
  let vals := Cases.continueOptions true in
  let env := Samples.stub (Done (UserDefined vals)) (Done tt) in
  let rawArgs := [lit "--continue"; lit "--json"] in
  program env rawArgs
  = {| events :=
         prelude rawArgs Cases.paths
         ++ [Called GetMostRecentPath;
             ConsoleError (lit "No entries found.")];
       exitCode := 1 |}.
Proof.
  intros vals env rawArgs.
  apply (@continue_json_needs_recent_entry env rawArgs None rawArgs vals
           Cases.paths None).
  - split; reflexivity.
  - split; reflexivity.
  - reflexivity.
  - reflexivity.
  - reflexivity.
Defined.

Lemma mode_agree (p : ParsedOptions) :
  tagRequested p = truthyText (tag p) -> mode p = mode2 p.
Proof. intros H. unfold mode, mode2. rewrite H. reflexivity. Qed.

(** X12: the two variants of [main.ts] select the same mode unless they
    disagree on the tag: the first asks whether [--tag] was written
    ([tagRequested]), the second whether its value is non-empty.  When
    the modes differ, one of them is [Tag], and neither is [Extract] nor
    [Sections]. *)
Theorem modes_differ_on_tag_only (p : ParsedOptions) :
  mode p = mode2 p
  \/ (tagRequested p <> truthyText (tag p)
      /\ (mode p = Tag \/ mode2 p = Tag)
      /\ mode p <> Extract /\ mode2 p <> Extract
      /\ mode p <> Sections /\ mode2 p <> Sections).
Proof.
  destruct (Bool.bool_dec (tagRequested p) (truthyText (tag p))) as [E|N].
  - left. apply mode_agree. exact E.
  - destruct (mode p) eqn:M1, (mode2 p) eqn:M2;
      try (left; reflexivity); right; (split; [exact N|]);
      unfold mode, mode2 in M1, M2;
      destruct (truthyFlag (date p)), (truthyFlag (search p)),
               (truthyFlag (timeline p)), (truthyFlag (continue p)),
               (truthyText (extract p)), (truthyText (sectionsArg p)),
               (tagRequested p), (truthyText (tag p)),
               (truthyText (note p));
      try discriminate M1; try discriminate M2;
      try (exfalso; apply N; reflexivity);
      repeat split; try discriminate; auto.
Qed.

(** X13: each variant of [main.ts] has its own option parser.  On a run
    for which the two parsers give the same options, and whose arguments
    name [--tag] exactly when the parsed tag is not empty, the two
    variants of [main] do the same, event for event. *)
Theorem variants_agree_without_bare_tag (env : Collaborators)
    (parse2 : list jsstring -> outcome ParseResult) (help2 : jsstring)
    (rawArgs : list jsstring) (offset : option number)
    (args : list jsstring) (vals : ParsedOptionValues) :
  parsesTo env rawArgs offset args vals ->
  parse2 (lit "j" :: args) = Done (UserDefined vals) ->
  isTagRequested args = truthyText (tag vals) ->
  main env rawArgs = main2 (withParser env parse2 help2) rawArgs.
Proof.
  intros [Hscan Hparse] Hparse2 Htag. unfold main, main2.
  rewrite (mainWith_parsed env mode parseSectionListArg rawArgs Hscan Hparse).
  rewrite (mainWith_parsed (withParser env parse2 help2) mode2
             parseSectionListArg2 rawArgs Hscan Hparse2).
  unfold dispatch.
  rewrite (@mode_agree {| values := vals;
                          tagRequested := isTagRequested args |} Htag).
  reflexivity.
Qed.

(** X13, an instance: [j --extract today.md --sections 1 --slug ideas],
    which both parsers read alike. *)
Lemma variants_agree_without_bare_tag_witness :
  let vals := Samples.extractOptions false (Some (lit "1"))
                                     (Some (lit "ideas")) in
  let env := Samples.stub (Done (UserDefined vals)) (Done tt) in
  let parse2 := fun _ : list jsstring => Done (UserDefined vals) in
  let rawArgs := [lit "--extract"; lit "today.md"; lit "--sections";
                  lit "1"; lit "--slug"; lit "ideas"] in
  main env rawArgs = main2 (withParser env parse2 (lit "USAGE")) rawArgs.
Proof.
  intros vals env parse2 rawArgs.
  apply (@variants_agree_without_bare_tag env parse2 (lit "USAGE") rawArgs
           None rawArgs vals).
  - split; reflexivity.
  - reflexivity.
  - reflexivity.
Defined.

(** X22: in the mode [Today] with [--json], the date printed is the one
    [dateDaysAgo] gives for the last offset argument, whatever Number its
    text stands for (zero, or not a number at all, is an offset like any
    other), and the path printed is that of the entry of this date in the
    journal directory. *)
Theorem today_json_uses_last_offset (env : Collaborators)
    (before after : list jsstring) (arg : jsstring)
    (vals : ParsedOptionValues) (paths : Paths) :
  let rawArgs := before ++ arg :: after in
  let args := snd (scanArgs rawArgs None) in
  isOffsetArg arg = true ->
  Forall (fun a => isOffsetArg a = false) after ->
  cliParse env (lit "j" :: args) = Done (UserDefined vals) ->
  journalReady env paths ->
  mode (parsedOf vals args) = Today ->
  truthyFlag (jsonArg vals) = true ->
  let d := dateDaysAgo env (offsetOf arg) in
  let path := pathJoin env (journalDir paths) (d ++ lit ".md") in
  program env rawArgs
  = {| events :=
         prelude args paths
         ++ [OutputJson
               (JObject [("date", JString d); ("path", JString path)]%string)];
       exitCode := 0 |}.
Proof.
  intros rawArgs args Harg Hafter Hparse Hready Hmode Hjson d path.
  assert (Hoffset : fst (scanArgs rawArgs None) = Some (offsetOf arg)).
  { subst rawArgs. rewrite scanArgs_offset_app.
    apply (@scanArgs_offset_set arg after (fst (scanArgs before None)) Harg Hafter). }
  assert (Hp : parsesTo env rawArgs (Some (offsetOf arg)) args vals).
  { split; [|exact Hparse]. rewrite <- Hoffset. subst args.
    destruct (scanArgs rawArgs None); reflexivity. }
  unfold program. rewrite (main_switch Hp Hready). rewrite Hmode, Hjson.
  reflexivity.
Qed.

(** X22, an instance: [j --json --offset=soon]; the offset is not a
    number, and [dateDaysAgo] is asked all the same. *)
Lemma today_json_uses_last_offset_witness :
  let vals := Cases.plainOptions true in
  let env := Samples.stub (Done (UserDefined vals)) (Done tt) in
  let rawArgs := [lit "--json"; lit "--offset=soon"] in
  let d := dateDaysAgo env (Number (lit "soon")) in
  Number (lit "soon") = S754_nan
  /\ program env rawArgs
     = {| events :=
            prelude [lit "--json"] Cases.paths
            ++ [OutputJson
                  (JObject [("date", JString d);
                            ("path",
                             JString (lit "/home/u/journal/2026-01-01.md"))
                           ]%string)];
          exitCode := 0 |}.
Proof.
  intros vals env rawArgs d. split; [reflexivity|].
  apply (@today_json_uses_last_offset env [lit "--json"] []
           (lit "--offset=soon") vals Cases.paths).
  - reflexivity.
  - constructor.
  - reflexivity.
  - split; reflexivity.
  - reflexivity.
  - reflexivity.
Defined.

(* ================================================================== *)
(** * Words handed to the shell *)
(* ================================================================== *)

Section ShellProperties.

Import Shell Sh.

Lemma tokensFrom_quoted (s w rest : jsstring) :
  tokensFrom (Some w) true (replaceQuotes s ++ 39%N :: rest)
  = tokensFrom (Some (rev s ++ w)) false rest.
Proof.
  revert w. induction s as [|c s IH]; intros w.
  - reflexivity.
  - cbn [replaceQuotes]. destruct (N.eqb_spec c 39) as [->|Hc].
    + change (lit "'\''") with [39; 92; 39; 39]%N.
      cbn [app tokensFrom N.eqb Pos.eqb wordOf]. rewrite IH.
      cbn [rev]. rewrite <- app_assoc. reflexivity.
    + cbn [app tokensFrom]. apply N.eqb_neq in Hc. rewrite Hc.
      cbn [wordOf]. rewrite IH. cbn [rev]. rewrite <- app_assoc. reflexivity.
Qed.

(** Reading an escaped string adds it, as it is, to the word being read. *)
Lemma tokensFrom_escapeShell (s rest : jsstring) (cur : option jsstring) :
  tokensFrom cur false (escapeShell s ++ rest)
  = tokensFrom (Some (rev s ++ wordOf cur)) false rest.
Proof.
  unfold escapeShell. change (lit "'") with [39%N].
  rewrite <- !app_assoc. cbn [app tokensFrom N.eqb Pos.eqb].
  apply tokensFrom_quoted.
Qed.

Lemma tokensFrom_word_end (w : jsstring) :
  tokensFrom (Some (rev w ++ [])) false [] = Some [Word w].
Proof. cbn. rewrite app_nil_r, rev_involutive. reflexivity. Qed.

Lemma tokensFrom_space_after_word (w rest : jsstring) :
  tokensFrom (Some (rev w ++ [])) false (32%N :: rest)
  = option_map (cons (Word w)) (tokensFrom None false rest).
Proof.
  cbn [tokensFrom N.eqb isBlankUnit orb flush]. 
  rewrite app_nil_r, rev_involutive. reflexivity.
Qed.

Lemma tokensFrom_space (rest : jsstring) :
  tokensFrom None false (32%N :: rest) = tokensFrom None false rest.
Proof.
  cbn [tokensFrom N.eqb isBlankUnit orb flush].
  destruct (tokensFrom None false rest); reflexivity.
Qed.

(** Escaped words joined by spaces, before a space: so many words. *)
Lemma tokensFrom_join (ws : list jsstring) (rest : jsstring) :
  tokensFrom None false (join (lit " ") (map escapeShell ws) ++ 32%N :: rest)
  = option_map (app (map Word ws)) (tokensFrom None false rest).
Proof.
  induction ws as [|w ws IH].
  - cbn [map join app]. rewrite tokensFrom_space.
    destruct (tokensFrom None false rest); reflexivity.
  - destruct ws as [|w' ws].
    + cbn [map join]. rewrite tokensFrom_escapeShell. cbn [wordOf].
      rewrite tokensFrom_space_after_word.
      destruct (tokensFrom None false rest); reflexivity.
    + change (join (lit " ") (map escapeShell (w :: w' :: ws)))
        with (escapeShell w ++ lit " "
              ++ join (lit " ") (map escapeShell (w' :: ws))).
      rewrite <- !app_assoc. rewrite tokensFrom_escapeShell. cbn [wordOf].
      change (lit " ") with [32%N] in *. cbn [app].
      rewrite tokensFrom_space_after_word, IH.
      destruct (tokensFrom None false rest); reflexivity.
Qed.

Lemma tokensFrom_redirect_in (rest : jsstring) :
  tokensFrom None false (lit "< " ++ rest)
  = option_map (cons Less) (tokensFrom None false rest).
Proof.
  change (lit "< ") with [60; 32]%N. cbn [app].
  cbn [tokensFrom N.eqb Pos.eqb isBlankUnit orb flush app].
  destruct (tokensFrom None false rest); reflexivity.
Qed.

Lemma tokensFrom_redirect_out (w rest : jsstring) :
  tokensFrom (Some (rev w ++ [])) false (lit " > " ++ rest)
  = option_map (fun ts => Word w :: Great :: ts) (tokensFrom None false rest).
Proof.
  change (lit " > ") with [32; 62; 32]%N. cbn [app].
  rewrite tokensFrom_space_after_word.
  cbn [tokensFrom N.eqb Pos.eqb isBlankUnit orb flush app].
  destruct (tokensFrom None false rest); reflexivity.
Qed.

Lemma tokensFrom_join_redirect (ws : list jsstring) (rest : jsstring) :
  tokensFrom None false
    (join (lit " ") (map escapeShell ws) ++ lit " < " ++ rest)
  = option_map (fun ts => map Word ws ++ Less :: ts)
               (tokensFrom None false rest).
Proof.
  change (lit " < " ++ rest) with (32%N :: lit "< " ++ rest).
  rewrite tokensFrom_join, tokensFrom_redirect_in.
  destruct (tokensFrom None false rest); reflexivity.
Qed.

Lemma toWellFormedFrom_plain (pending : option codeUnit) (c : codeUnit)
    (rest : jsstring) :
  plain c = true ->
  toWellFormedFrom pending (c :: rest)
  = toWellFormedFrom pending [] ++ c :: toWellFormedFrom None rest.
Proof.
  unfold plain. intros H. apply andb_true_iff in H. destruct H as [Hh Hl].
  apply negb_true_iff in Hh, Hl. cbn [toWellFormedFrom].
  rewrite Hh, Hl. destruct pending; reflexivity.
Qed.

Lemma toWellFormedFrom_app (pending : option codeUnit) (a : jsstring)
    (c : codeUnit) (b : jsstring) :
  plain c = true ->
  toWellFormedFrom pending (a ++ c :: b)
  = toWellFormedFrom pending a ++ c :: toWellFormedFrom None b.
Proof.
  intros Hc. revert pending. induction a as [|x a IH]; intros pending.
  - cbn [app]. apply toWellFormedFrom_plain. exact Hc.
  - cbn [app toWellFormedFrom].
    destruct pending as [h|]; destruct (isLowSurrogate x);
      destruct (isHighSurrogate x); cbn [app]; rewrite ?IH; reflexivity.
Qed.

Lemma toWellFormed_app (a : jsstring) (c : codeUnit) (b : jsstring) :
  plain c = true ->
  toWellFormed (a ++ c :: b) = toWellFormed a ++ c :: toWellFormed b.
Proof. apply toWellFormedFrom_app. Qed.

Lemma toWellFormed_cons (c : codeUnit) (b : jsstring) :
  plain c = true -> toWellFormed (c :: b) = c :: toWellFormed b.
Proof. intros Hc. apply (@toWellFormed_app [] c b Hc). Qed.

Lemma surrogate_not_quote (c : codeUnit) :
  plain c = false -> N.eqb c 39 = false.
Proof.
  intros H. apply N.eqb_neq. intros ->. discriminate H.
Qed.

Lemma replaceQuotes_app (a b : jsstring) :
  replaceQuotes (a ++ b) = replaceQuotes a ++ replaceQuotes b.
Proof.
  induction a as [|c a IH]; [reflexivity|].
  cbn [app replaceQuotes]. rewrite IH.
  destruct (N.eqb c 39); [rewrite <- app_assoc|]; reflexivity.
Qed.

(** Quoting and making well formed commute: a quote is no surrogate. *)
Lemma toWellFormedFrom_replaceQuotes (pending : option codeUnit)
    (s : jsstring) :
  (forall h, pending = Some h -> N.eqb h 39 = false) ->
  toWellFormedFrom pending (replaceQuotes s)
  = replaceQuotes (toWellFormedFrom pending s).
Proof.
  revert pending. induction s as [|c s IH]; intros pending Hp.
  - destruct pending; reflexivity.
  - cbn [replaceQuotes]. destruct (N.eqb_spec c 39) as [->|Hc].
    + change (lit "'\''") with [39; 92; 39; 39]%N. cbn [app].
      rewrite (@toWellFormedFrom_plain pending 39%N) by reflexivity.
      rewrite (@toWellFormedFrom_plain None 92%N) by reflexivity.
      rewrite (@toWellFormedFrom_plain None 39%N) by reflexivity.
      rewrite (@toWellFormedFrom_plain None 39%N) by reflexivity.
      rewrite (@toWellFormedFrom_plain pending 39%N) by reflexivity.
      rewrite (IH None) by discriminate.
      rewrite replaceQuotes_app. cbn [replaceQuotes N.eqb Pos.eqb app].
      destruct pending; reflexivity.
    + apply N.eqb_neq in Hc. cbn [toWellFormedFrom].
      destruct pending as [h|].
      * specialize (Hp h eq_refl).
        destruct (isLowSurrogate c).
        -- cbn [replaceQuotes]. rewrite Hp, Hc, (IH None) by discriminate.
           reflexivity.
        -- destruct (isHighSurrogate c); cbn [app replaceQuotes N.eqb].
           ++ rewrite (IH (Some c)); [reflexivity|].
              intros h' E. injection E as <-. exact Hc.
           ++ rewrite Hc, (IH None) by discriminate. reflexivity.
      * destruct (isHighSurrogate c).
        -- apply IH. intros h' E. injection E as <-. exact Hc.
        -- destruct (isLowSurrogate c); cbn [replaceQuotes N.eqb].
           ++ rewrite (IH None) by discriminate. reflexivity.
           ++ rewrite Hc, (IH None) by discriminate. reflexivity.
Qed.

Lemma toWellFormed_escapeShell (s rest : jsstring) :
  toWellFormed (escapeShell s ++ rest)
  = escapeShell (toWellFormed s) ++ toWellFormed rest.
Proof.
  unfold escapeShell. change (lit "'") with [39%N].
  rewrite <- !app_assoc. cbn [app].
  rewrite toWellFormed_cons by reflexivity.
  rewrite toWellFormed_app by reflexivity.
  unfold toWellFormed at 1.
  rewrite toWellFormedFrom_replaceQuotes by discriminate.
  reflexivity.
Qed.

Lemma toWellFormed_join (ws : list jsstring) (rest : jsstring) :
  toWellFormed (join (lit " ") (map escapeShell ws) ++ 32%N :: rest)
  = join (lit " ") (map escapeShell (map toWellFormed ws))
    ++ 32%N :: toWellFormed rest.
Proof.
  induction ws as [|w ws IH].
  - cbn [map join app]. apply toWellFormed_cons. reflexivity.
  - destruct ws as [|w' ws].
    + cbn [map join]. rewrite toWellFormed_escapeShell.
      rewrite toWellFormed_cons by reflexivity. reflexivity.
    + change (join (lit " ") (map escapeShell (w :: w' :: ws)))
        with (escapeShell w ++ lit " "
              ++ join (lit " ") (map escapeShell (w' :: ws))).
      change (join (lit " ")
                (map escapeShell (map toWellFormed (w :: w' :: ws))))
        with (escapeShell (toWellFormed w) ++ lit " "
              ++ join (lit " ")
                   (map escapeShell (map toWellFormed (w' :: ws)))).
      rewrite <- !app_assoc. rewrite toWellFormed_escapeShell.
      change (lit " ") with [32%N] in *. cbn [app].
      rewrite toWellFormed_cons by reflexivity. rewrite IH. reflexivity.
Qed.

Lemma toWellFormed_shellCmd (cmd : jsstring) (args : list jsstring)
    (inputPath : jsstring) :
  toWellFormed (shellCmd cmd args inputPath)
  = shellCmd (toWellFormed cmd) (map toWellFormed args)
             (toWellFormed inputPath).
Proof.
  unfold shellCmd. rewrite toWellFormed_escapeShell.
  change (lit " " ++ ?x) with (32%N :: x).
  rewrite toWellFormed_cons by reflexivity.
  change (lit " < " ++ ?x) with (32%N :: 60%N :: 32%N :: x).
  rewrite toWellFormed_join.
  rewrite !toWellFormed_cons by reflexivity.
  rewrite <- (app_nil_r (escapeShell inputPath)), toWellFormed_escapeShell.
  rewrite !app_nil_r. reflexivity.
Qed.

Lemma toWellFormed_fullCommand (cmd : jsstring) (args : list jsstring)
    (inputPath outputPath : jsstring) :
  toWellFormed (fullCommand cmd args inputPath outputPath)
  = fullCommand (toWellFormed cmd) (map toWellFormed args)
                (toWellFormed inputPath) (toWellFormed outputPath).
Proof.
  unfold fullCommand, commandLine. change shellEscape with escapeShell.
  change (lit " < " ++ ?x) with (32%N :: 60%N :: 32%N :: x).
  rewrite (toWellFormed_join (cmd :: args)).
  rewrite !toWellFormed_cons by reflexivity.
  rewrite toWellFormed_escapeShell.
  change (lit " > " ++ ?x) with (32%N :: 62%N :: 32%N :: x).
  rewrite !toWellFormed_cons by reflexivity.
  rewrite <- (app_nil_r (escapeShell outputPath)), toWellFormed_escapeShell.
  rewrite !app_nil_r. reflexivity.
Qed.

(** A well-formed string arrives as it is. *)
Lemma toWellFormedFrom_wellFormed (pending : option codeUnit)
    (s : jsstring) :
  isWellFormedFrom (match pending with Some _ => true | None => false end) s
  = true ->
  toWellFormedFrom pending s
  = match pending with Some h => h :: s | None => s end.
Proof.
  revert pending. induction s as [|c s IH]; intros pending H.
  - destruct pending; [discriminate H|reflexivity].
  - cbn [isWellFormedFrom toWellFormedFrom] in *. destruct pending as [h|].
    + apply andb_true_iff in H. destruct H as [Hl H]. rewrite Hl.
      rewrite (IH None H). reflexivity.
    + destruct (isHighSurrogate c).
      * apply (IH (Some c) H).
      * apply andb_true_iff in H. destruct H as [Hl H].
        apply negb_true_iff in Hl. rewrite Hl, (IH None H). reflexivity.
Qed.

Lemma toWellFormed_wellFormed (s : jsstring) :
  isWellFormed s = true -> toWellFormed s = s.
Proof. apply (@toWellFormedFrom_wellFormed None). Qed.

Lemma hasNul_app (a b : jsstring) : hasNul (a ++ b) = hasNul a || hasNul b.
Proof. apply existsb_app. Qed.

Lemma hasNul_replaceQuotes (s : jsstring) :
  hasNul (replaceQuotes s) = hasNul s.
Proof.
  induction s as [|c s IH]; [reflexivity|]. cbn [replaceQuotes].
  destruct (N.eqb_spec c 39) as [->|Hc].
  - rewrite hasNul_app, IH. reflexivity.
  - unfold hasNul in *. cbn [existsb]. rewrite IH. reflexivity.
Qed.

Lemma hasNul_escapeShell (s : jsstring) : hasNul (escapeShell s) = hasNul s.
Proof.
  unfold escapeShell. rewrite !hasNul_app, hasNul_replaceQuotes.
  cbn. rewrite orb_false_r. reflexivity.
Qed.

Lemma hasNul_join (ws : list jsstring) :
  hasNul (join (lit " ") (map escapeShell ws)) = existsb hasNul ws.
Proof.
  induction ws as [|w ws IH]; [reflexivity|].
  destruct ws as [|w' ws].
  - cbn [map join existsb]. rewrite hasNul_escapeShell, orb_false_r.
    reflexivity.
  - change (join (lit " ") (map escapeShell (w :: w' :: ws)))
      with (escapeShell w ++ lit " "
            ++ join (lit " ") (map escapeShell (w' :: ws))).
    rewrite !hasNul_app, IH, hasNul_escapeShell. reflexivity.
Qed.

Lemma tokensFrom_escaped (s : jsstring) :
  tokensFrom None false (escapeShell s) = Some [Word s].
Proof.
  rewrite <- (app_nil_r (escapeShell s)), tokensFrom_escapeShell.
  apply tokensFrom_word_end.
Qed.

Lemma tokensFrom_shellCmd (cmd : jsstring) (args : list jsstring)
    (inputPath : jsstring) :
  tokensFrom None false (shellCmd cmd args inputPath)
  = Some (Word cmd :: map Word args ++ [Less; Word inputPath]).
Proof.
  unfold shellCmd. rewrite tokensFrom_escapeShell. cbn [wordOf].
  change (lit " " ++ ?x) with (32%N :: x).
  rewrite tokensFrom_space_after_word, tokensFrom_join_redirect.
  rewrite tokensFrom_escaped. reflexivity.
Qed.

Lemma tokensFrom_fullCommand (cmd : jsstring) (args : list jsstring)
    (inputPath outputPath : jsstring) :
  tokensFrom None false (fullCommand cmd args inputPath outputPath)
  = Some (Word cmd :: map Word args
          ++ [Less; Word inputPath; Great; Word outputPath]).
Proof.
  unfold fullCommand, commandLine. change shellEscape with escapeShell.
  rewrite (tokensFrom_join_redirect (cmd :: args)).
  rewrite tokensFrom_escapeShell. cbn [wordOf].
  rewrite tokensFrom_redirect_out, tokensFrom_escaped. reflexivity.
Qed.

(** X14: a string quoted by [escapeShell] is read by the shell as one
    word, which is the string as the shell receives it: the string itself
    when it is well formed, with U+FFFD for every surrogate that has no
    partner otherwise; quotes, blanks and operators in it stay part of the
    word.  A string that holds the unit 0 is never read: no process is
    started with it.  [shellEscape], the copy of the other file, quotes
    the same way. *)
Theorem escapeShell_reads_back (s : jsstring) :
  tokens (escapeShell s)
  = (if hasNul s then None else Some [Word (toWellFormed s)])
  /\ (hasNul s = false -> isWellFormed s = true ->
      tokens (escapeShell s) = Some [Word s])
  /\ shellEscape s = escapeShell s.
Proof.
  assert (H : tokens (escapeShell s)
              = if hasNul s then None else Some [Word (toWellFormed s)]).
  { unfold tokens, received. rewrite hasNul_escapeShell.
    destruct (hasNul s); [reflexivity|].
    rewrite <- (app_nil_r (escapeShell s)), toWellFormed_escapeShell.
    rewrite app_nil_r. apply tokensFrom_escaped. }
  split; [exact H|]. split; [|reflexivity].
  intros Hnul Hwf. rewrite H, Hnul, (toWellFormed_wellFormed s Hwf).
  reflexivity.
Qed.

(** Three strings quoted and read: one with the unit 0, one with a
    surrogate that has no partner, one with a pair and a quote. *)
Example tokens_of_quoted_strings :
  tokens (escapeShell (lit "a" ++ [0%N] ++ lit "b")) = None
  /\ tokens (escapeShell (lit "lone" ++ [55296%N] ++ lit "surrogate"))
     = Some [Word (lit "lone" ++ [65533%N] ++ lit "surrogate")]
  /\ tokens (escapeShell ([55357; 56832]%N ++ lit "it's"))
     = Some [Word ([55357; 56832]%N ++ lit "it's")].
Proof. repeat split. Qed.

Lemma map_toWellFormed (ws : list jsstring) :
  Forall (fun w => hasNul w = false /\ isWellFormed w = true) ws ->
  map toWellFormed ws = ws /\ existsb hasNul ws = false.
Proof.
  induction 1 as [|w ws [Hnul Hwf] _ [IH1 IH2]]; [split; reflexivity|].
  cbn [map existsb]. rewrite IH1, IH2, Hnul, (toWellFormed_wellFormed w Hwf).
  split; reflexivity.
Qed.

(** X15: the command texts built for [sh -c] read as they were built:
    the command and each of its arguments as one word each, in order and
    as the shell receives them (unchanged when well formed), then the
    input file as the source of standard input and, in
    [runCommandInteractive], the output file as the target of standard
    output.  No argument can add a word, an operator or a redirection.
    When one of them holds the unit 0, the text is never read. *)
Theorem command_texts_read_as_built (cmd : jsstring) (args : list jsstring)
    (inputPath outputPath : jsstring) :
  let word := fun w => Word (toWellFormed w) in
  tokens (shellCmd cmd args inputPath)
  = (if existsb hasNul (cmd :: args ++ [inputPath]) then None
     else Some (word cmd :: map word args ++ [Less; word inputPath]))
  /\ tokens (fullCommand cmd args inputPath outputPath)
     = (if existsb hasNul (cmd :: args ++ [inputPath; outputPath]) then None
        else Some (word cmd :: map word args
                   ++ [Less; word inputPath; Great; word outputPath]))
  /\ (Forall (fun w => hasNul w = false /\ isWellFormed w = true)
             (cmd :: args ++ [inputPath; outputPath]) ->
      tokens (shellCmd cmd args inputPath)
      = Some (Word cmd :: map Word args ++ [Less; Word inputPath])
      /\ tokens (fullCommand cmd args inputPath outputPath)
         = Some (Word cmd :: map Word args
                 ++ [Less; Word inputPath; Great; Word outputPath])).
Proof.
  intros word.
  assert (H1 : tokens (shellCmd cmd args inputPath)
               = if existsb hasNul (cmd :: args ++ [inputPath]) then None
                 else Some (word cmd :: map word args
                            ++ [Less; word inputPath])).
  { unfold tokens, received.
    assert (Hnul : hasNul (shellCmd cmd args inputPath)
                   = existsb hasNul (cmd :: args ++ [inputPath])).
    { unfold shellCmd. rewrite !hasNul_app, !hasNul_escapeShell, hasNul_join.
      cbn [existsb]. rewrite existsb_app. cbn [existsb].
      change (hasNul (lit " ")) with false.
      change (hasNul (lit " < ")) with false.
      rewrite !orb_false_l, orb_false_r. reflexivity. }
    rewrite Hnul.
    destruct (existsb hasNul (cmd :: args ++ [inputPath])); [reflexivity|].
    rewrite toWellFormed_shellCmd, tokensFrom_shellCmd, map_map.
    reflexivity. }
  assert (H2 : tokens (fullCommand cmd args inputPath outputPath)
               = if existsb hasNul (cmd :: args ++ [inputPath; outputPath])
                 then None
                 else Some (word cmd :: map word args
                            ++ [Less; word inputPath; Great;
                                word outputPath])).
  { unfold tokens, received.
    assert (Hnul : hasNul (fullCommand cmd args inputPath outputPath)
                   = existsb hasNul (cmd :: args ++ [inputPath; outputPath])).
    { unfold fullCommand, commandLine. change shellEscape with escapeShell.
      rewrite !hasNul_app, !hasNul_escapeShell, hasNul_join.
      cbn [existsb]. rewrite existsb_app. cbn [existsb].
      change (hasNul (lit " > ")) with false.
      change (hasNul (lit " < ")) with false.
      destruct (hasNul cmd), (existsb hasNul args), (hasNul inputPath),
               (hasNul outputPath); reflexivity. }
    rewrite Hnul.
    destruct (existsb hasNul (cmd :: args ++ [inputPath; outputPath]));
      [reflexivity|].
    rewrite toWellFormed_fullCommand, tokensFrom_fullCommand, map_map.
    reflexivity. }
  split; [exact H1|]. split; [exact H2|].
  intros Hall.
  inversion Hall as [|? ? [Hnc Hwc] Hrest]; subst.
  apply Forall_app in Hrest. destruct Hrest as [Ha Hio].
  inversion Hio as [|? ? [Hni Hwi] Hio']; subst.
  inversion Hio' as [|? ? [Hno Hwo] _]; subst.
  destruct (map_toWellFormed Ha) as [Hmap Hna].
  rewrite H1, H2. cbn [existsb]. rewrite !existsb_app. cbn [existsb].
  rewrite Hnc, Hna, Hni, Hno. cbn [orb]. subst word. cbv beta.
  rewrite <- (map_map toWellFormed Word), Hmap.
  rewrite (toWellFormed_wellFormed cmd Hwc),
    (toWellFormed_wellFormed inputPath Hwi),
    (toWellFormed_wellFormed outputPath Hwo).
  split; reflexivity.
Qed.

End ShellProperties.

(* ================================================================== *)
(** * The help text *)
(* ================================================================== *)

Section HelpProperties.

Import Help.

Lemma existsb_filter {A} (f : A -> bool) (l : list A) :
  existsb f l = match filter f l with [] => false | _ :: _ => true end.
Proof.
  induction l as [|a l IH]; [reflexivity|]. cbn [existsb filter].
  destruct (f a); [reflexivity|exact IH].
Qed.

Lemma flat_map_filter_nonEmpty (docs : list HelpDoc) :
  flat_map collectParagraphs (filter (fun doc => negb (isEmpty doc)) docs)
  = flat_map collectParagraphs docs.
Proof.
  induction docs as [|d docs IH]; [reflexivity|]. cbn [filter flat_map].
  destruct d; cbn [isEmpty negb flat_map collectParagraphs app];
    rewrite IH; reflexivity.
Qed.

Lemma filter_flat_map {A B} (p : B -> bool) (f : A -> list B) (l : list A) :
  filter p (flat_map f l) = flat_map (fun a => filter p (f a)) l.
Proof.
  induction l as [|a l IH]; [reflexivity|].
  cbn [flat_map]. rewrite filter_app, IH. reflexivity.
Qed.

Section CompactLaws.

Variable blocks : list HelpDoc -> HelpDoc.
Hypothesis Hblocks : inSequence blocks.

Lemma compactBlocks_pair (a b : HelpDoc) :
  compactBlocks blocks [a; b]
  = if isEmpty a then (if isEmpty b then Empty else b)
    else if isEmpty b then a else Sequence a b.
Proof.
  destruct Hblocks as [Hone Htwo]. unfold compactBlocks. cbn [filter].
  destruct (isEmpty a) eqn:Ha, (isEmpty b) eqn:Hb; cbn [negb].
  - reflexivity.
  - apply Hone.
  - apply Hone.
  - apply Htwo; assumption.
Qed.

Lemma collectParagraphs_compactBlocks (a b : HelpDoc) :
  collectParagraphs (compactBlocks blocks [a; b])
  = collectParagraphs a ++ collectParagraphs b.
Proof.
  rewrite compactBlocks_pair.
  destruct a, b; cbn [isEmpty collectParagraphs app];
    rewrite ?app_nil_r; reflexivity.
Qed.

Lemma nonFiller_kept (doc : HelpDoc) :
  filter nonFiller (collectParagraphs (compactHelpDoc blocks doc))
  = filter nonFiller (collectParagraphs doc).
Proof.
  induction doc as [|value level|value|definitions IH|elements IH|l r IHl IHr]
    using HelpDoc_induction.
  - reflexivity.
  - reflexivity.
  - cbn [compactHelpDoc collectParagraphs filter]. unfold nonFiller.
    destruct (isFillerParagraph value) eqn:Hf; cbn [collectParagraphs filter negb].
    + reflexivity.
    + rewrite Hf. reflexivity.
  - cbn [compactHelpDoc].
    set (clean := fun definition : Span * HelpDoc => _).
    assert (Hmap : filter nonFiller
                     (flat_map (fun d => collectParagraphs (snd d))
                               (map clean definitions))
                   = filter nonFiller
                       (flat_map (fun d => collectParagraphs (snd d))
                                 definitions)).
    { induction IH as [|d ds Hd _ IHds]; [reflexivity|].
      cbn [map flat_map]. rewrite !filter_app, IHds. f_equal.
      subst clean. cbn [snd].
      destruct (existsb _ _); [exact Hd|reflexivity]. }
    destruct (map clean definitions) as [|first rest] eqn:Hm.
    + destruct definitions; [reflexivity|discriminate Hm].
    + cbn [collectParagraphs]. exact Hmap.
  - cbn [compactHelpDoc].
    assert (Hmap : filter nonFiller
                     (flat_map collectParagraphs
                        (filter (fun e => negb (isEmpty e))
                                (map (compactHelpDoc blocks) elements)))
                   = filter nonFiller (flat_map collectParagraphs elements)).
    { rewrite flat_map_filter_nonEmpty.
      induction IH as [|e es He _ IHes]; [reflexivity|].
      cbn [map flat_map]. rewrite !filter_app, IHes, He. reflexivity. }
    destruct (filter _ (map _ elements)) as [|first rest].
    + cbn [collectParagraphs flat_map filter] in *. exact Hmap.
    + cbn [collectParagraphs]. exact Hmap.
  - cbn [compactHelpDoc collectParagraphs].
    rewrite collectParagraphs_compactBlocks, !filter_app, IHl, IHr.
    reflexivity.
Qed.

Lemma no_filler_left (doc : HelpDoc) :
  noDescriptionList doc = true ->
  Forall (fun p => nonFiller p = true)
         (collectParagraphs (compactHelpDoc blocks doc)).
Proof.
  induction doc as [|value level|value|definitions IH|elements IH|l r IHl IHr]
    using HelpDoc_induction; intros Hno.
  - constructor.
  - constructor.
  - cbn [compactHelpDoc]. destruct (isFillerParagraph value) eqn:Hf.
    + constructor.
    + repeat constructor. unfold nonFiller. rewrite Hf. reflexivity.
  - discriminate Hno.
  - cbn [compactHelpDoc noDescriptionList] in *.
    assert (Hall : Forall (fun p => nonFiller p = true)
                     (flat_map collectParagraphs
                        (filter (fun e => negb (isEmpty e))
                                (map (compactHelpDoc blocks) elements)))).
    { rewrite flat_map_filter_nonEmpty.
      induction IH as [|e es He _ IHes]; [constructor|].
      cbn [forallb] in Hno. apply andb_true_iff in Hno.
      destruct Hno as [Hne Hnes]. cbn [map flat_map].
      apply Forall_app. split; [apply He; exact Hne|apply IHes; exact Hnes]. }
    destruct (filter _ (map _ elements)) as [|first rest].
    + constructor.
    + exact Hall.
  - cbn [compactHelpDoc noDescriptionList] in *.
    apply andb_true_iff in Hno. destruct Hno as [Hl Hr].
    rewrite collectParagraphs_compactBlocks. apply Forall_app.
    split; [apply IHl; exact Hl|apply IHr; exact Hr].
Qed.

Lemma filter_all {A} (p : A -> bool) (l : list A) :
  Forall (fun a => p a = true) l -> filter p l = l.
Proof.
  induction 1 as [|a l Ha _ IH]; [reflexivity|].
  cbn [filter]. rewrite Ha, IH. reflexivity.
Qed.

(** X16: compacting a help document twice is compacting it once (when
    [HelpDoc.blocks] puts documents in sequence). *)
Theorem compactHelpDoc_idempotent (doc : HelpDoc) :
  compactHelpDoc blocks (compactHelpDoc blocks doc) = compactHelpDoc blocks doc.
Proof.
  induction doc as [|value level|value|definitions IH|elements IH|l r IHl IHr]
    using HelpDoc_induction.
  - reflexivity.
  - reflexivity.
  - cbn [compactHelpDoc]. destruct (isFillerParagraph value) eqn:Hf.
    + reflexivity.
    + cbn [compactHelpDoc]. rewrite Hf. reflexivity.
  - cbn [compactHelpDoc].
    set (clean := fun definition : Span * HelpDoc => _).
    assert (Hmap : map clean (map clean definitions) = map clean definitions).
    { induction IH as [|d ds Hd _ IHds]; [reflexivity|].
      cbn [map]. rewrite IHds. f_equal.
      subst clean. cbn [fst snd].
      destruct (existsb _ (collectParagraphs (snd d))) eqn:Hex.
      - assert (Hex' : existsb (fun p => negb (isFillerParagraph p))
                         (collectParagraphs (compactHelpDoc blocks (snd d)))
                       = true).
        { rewrite existsb_filter in *.
          change (fun p => negb (isFillerParagraph p)) with nonFiller in *.
          rewrite nonFiller_kept. exact Hex. }
        rewrite Hex', Hd. reflexivity.
      - rewrite Hex. reflexivity. }
    destruct (map clean definitions) as [|first rest] eqn:Hm.
    + reflexivity.
    + cbn [compactHelpDoc]. fold clean. rewrite Hmap. reflexivity.
  - cbn [compactHelpDoc].
    set (kept := filter (fun e => negb (isEmpty e))
                        (map (compactHelpDoc blocks) elements)).
    assert (Hmap : filter (fun e => negb (isEmpty e))
                          (map (compactHelpDoc blocks) kept) = kept).
    { subst kept. induction IH as [|e es He _ IHes]; [reflexivity|].
      cbn [map filter].
      destruct (negb (isEmpty (compactHelpDoc blocks e))) eqn:Hne.
      - cbn [map filter]. rewrite He, Hne, IHes. reflexivity.
      - exact IHes. }
    destruct kept as [|first rest] eqn:Hk.
    + reflexivity.
    + cbn [compactHelpDoc]. rewrite Hmap. reflexivity.
  - cbn [compactHelpDoc]. rewrite compactBlocks_pair.
    destruct (isEmpty (compactHelpDoc blocks l)) eqn:Hl,
             (isEmpty (compactHelpDoc blocks r)) eqn:Hr.
    + reflexivity.
    + exact IHr.
    + exact IHl.
    + cbn [compactHelpDoc]. rewrite IHl, IHr, compactBlocks_pair, Hl, Hr.
      reflexivity.
Qed.

End CompactLaws.

Lemma blocksInSequence_inSequence : inSequence blocksInSequence.
Proof.
  split.
  - reflexivity.
  - intros a b Ha Hb. cbn. rewrite Ha, Hb. reflexivity.
Qed.

(** X16, an instance: the sample help text. *)
Lemma compactHelpDoc_idempotent_witness :
  compactHelpDoc blocksInSequence (compactHelpDoc blocksInSequence Cases.help)
  = compactHelpDoc blocksInSequence Cases.help.
Proof.
  apply (@compactHelpDoc_idempotent blocksInSequence
           blocksInSequence_inSequence Cases.help).
Defined.

(** X17: [compactHelpDoc] drops filler paragraphs and nothing else: the
    paragraphs that are no filler are all kept, in their order; and in a
    document without description lists no filler paragraph is left. *)
Theorem compactHelpDoc_keeps_paragraphs (blocks : list HelpDoc -> HelpDoc)
    (doc : HelpDoc) :
  inSequence blocks ->
  filter nonFiller (collectParagraphs (compactHelpDoc blocks doc))
  = filter nonFiller (collectParagraphs doc)
  /\ (noDescriptionList doc = true ->
      collectParagraphs (compactHelpDoc blocks doc)
      = filter nonFiller (collectParagraphs doc)).
Proof.
  intros Hblocks. split; [apply nonFiller_kept; exact Hblocks|].
  intros Hno. rewrite <- (@nonFiller_kept blocks Hblocks doc).
  symmetry. apply filter_all. apply no_filler_left; assumption.
Qed.

(** X17, an instance: of the two paragraphs of the sample help text, the
    one that only names the type of the option goes. *)
Lemma compactHelpDoc_keeps_paragraphs_witness :
  collectParagraphs (compactHelpDoc blocksInSequence Cases.help)
  = [Strong (SpanText (lit "Days to go back."))].
Proof.
  destruct (@compactHelpDoc_keeps_paragraphs blocksInSequence Cases.help
              blocksInSequence_inSequence) as [_ H].
  rewrite (H eq_refl). reflexivity.
Defined.

End HelpProperties.

(* ================================================================== *)
(** * Dates *)
(* ================================================================== *)

Section DateProperties.

Import Dates.

Lemma decimalFrom_acc (fuel : nat) (n : N) (acc : jsstring) :
  decimalFrom fuel n acc = decimalFrom fuel n [] ++ acc.
Proof.
  revert n acc. induction fuel as [|fuel IH]; intros n acc; [reflexivity|].
  cbn [decimalFrom]. destruct (n <? 10)%N; [reflexivity|].
  rewrite (IH _ [_]), (IH _ (_ :: acc)), <- app_assoc. reflexivity.
Qed.

Lemma digit_unit (k : N) :
  (k < 10)%N ->
  isDigit (48 + k)%N = true /\ digitValue (48 + k)%N = Some (Z.of_N k).
Proof.
  intros Hk. unfold digitValue.
  assert (H : isDigit (48 + k)%N = true).
  { unfold isDigit. apply andb_true_iff. split; apply N.leb_le; lia. }
  rewrite H. split; [reflexivity|]. f_equal. lia.
Qed.

Lemma radixValue_snoc (s : jsstring) (c : codeUnit) (d : Z) :
  digitValue c = Some d ->
  radixValue 10 (s ++ [c]) = (10 * radixValue 10 s + d)%Z.
Proof.
  intros Hc. unfold radixValue. rewrite fold_left_app. cbn [fold_left].
  rewrite Hc. reflexivity.
Qed.

(** The digits of [n], given fuel enough for them. *)
Lemma decimalFrom_digits (fuel : nat) (n : N) :
  (n < 2 ^ N.of_nat fuel)%N -> (0 < fuel)%nat ->
  isDigits (decimalFrom fuel n []) = true
  /\ radixValue 10 (decimalFrom fuel n []) = Z.of_N n.
Proof.
  revert n. induction fuel as [|fuel IH]; intros n Hn Hfuel; [lia|].
  cbn [decimalFrom]. assert (Hmod : (n mod 10 < 10)%N) by (apply N.mod_lt; lia).
  destruct (digit_unit Hmod) as [Hdigit Hvalue].
  destruct (N.ltb_spec n 10) as [Hsmall|Hbig].
  - rewrite N.mod_small by exact Hsmall.
    rewrite N.mod_small in Hdigit, Hvalue by exact Hsmall.
    split.
    + unfold isDigits. cbn [truthy forallb]. rewrite Hdigit. reflexivity.
    + unfold radixValue. cbn [fold_left]. rewrite Hvalue. lia.
  - rewrite decimalFrom_acc.
    assert (Hdiv : (n / 10 < 2 ^ N.of_nat fuel)%N).
    { apply N.Div0.div_lt_upper_bound.
      rewrite Nat2N.inj_succ, N.pow_succ_r' in Hn. lia. }
    assert (Hpos : (0 < fuel)%nat).
    { destruct fuel; [|lia]. cbn in Hdiv.
      assert (1 <= n / 10)%N by (apply N.div_le_lower_bound; lia). lia. }
    destruct (IH (n / 10)%N Hdiv Hpos) as [Hd Hv].
    split.
    + unfold isDigits in *. apply andb_true_iff in Hd. destruct Hd as [Hne Hall].
      apply andb_true_iff. split.
      * destruct (decimalFrom fuel (n / 10) []); [discriminate Hne|reflexivity].
      * rewrite forallb_app, Hall. cbn [forallb]. rewrite Hdigit. reflexivity.
    + rewrite (radixValue_snoc _ _ Hvalue), Hv.
      rewrite (N.div_mod n 10) at 3 by lia. lia.
Qed.

Lemma decimal_digits (n : N) :
  isDigits (decimal n) = true /\ radixValue 10 (decimal n) = Z.of_N n.
Proof.
  unfold decimal. apply decimalFrom_digits; [|lia].
  rewrite Nat2N.inj_succ, N2Nat.id.
  destruct n as [|p]; [cbn; lia|]. apply N.log2_spec. lia.
Qed.
(** The number of digits: [k] of them for a number from [10^(k-1)]
    (or from 0 when [k] is 1) to [10^k - 1]. *)
Lemma decimalFrom_length (k fuel : nat) (n : N) (acc : jsstring) :
  (1 <= k <= fuel)%nat -> (n < 10 ^ N.of_nat k)%N ->
  (k = 1%nat \/ 10 ^ N.of_nat (k - 1) <= n)%N ->
  List.length (decimalFrom fuel n acc) = (k + List.length acc)%nat.
Proof.
  revert fuel n acc. induction k as [|k IH]; intros fuel n acc Hk Hlt Hge.
  - lia.
  - destruct fuel as [|fuel]; [lia|]. cbn [decimalFrom].
    destruct (N.ltb_spec n 10) as [Hsmall|Hbig].
    + destruct Hge as [->|Hge]; [reflexivity|].
      destruct k as [|k]; [reflexivity|].
      exfalso. replace (S (S k) - 1)%nat with (S k) in Hge by lia.
      rewrite Nat2N.inj_succ, N.pow_succ_r' in Hge.
      assert (1 <= 10 ^ N.of_nat k)%N by (apply N.lt_pred_le, N.neq_0_lt_0, N.pow_nonzero; lia).
      lia.
    + destruct k as [|k].
      { exfalso. cbn in Hlt. lia. }
      rewrite (IH fuel (n / 10)%N).
      * cbn [List.length]. lia.
      * lia.
      * apply N.Div0.div_lt_upper_bound.
        rewrite Nat2N.inj_succ, N.pow_succ_r' in Hlt. lia.
      * destruct Hge as [Hk1|Hge]; [lia|]. right.
        replace (S (S k) - 1)%nat with (S k) in Hge by lia.
        replace (S k - 1)%nat with k by lia.
        rewrite Nat2N.inj_succ, N.pow_succ_r' in Hge.
        apply N.div_le_lower_bound; lia.
Qed.

Lemma log2_fuel (k : nat) (n : N) :
  (10 ^ N.of_nat (k - 1) <= n)%N -> (k <= S (N.to_nat (N.log2 n)))%nat.
Proof.
  intros Hge.
  assert (Hpow : (2 ^ N.of_nat (k - 1) <= 10 ^ N.of_nat (k - 1))%N)
    by (apply N.pow_le_mono_l; lia).
  assert (H2 : (2 ^ N.of_nat (k - 1) <= n)%N) by lia.
  assert (Hn : (0 < n)%N).
  { assert (0 < 2 ^ N.of_nat (k - 1))%N
      by (apply N.neq_0_lt_0, N.pow_nonzero; lia). lia. }
  apply N.log2_le_pow2 in H2; [|exact Hn]. lia.
Qed.

Lemma decimal_length (k : nat) (n : N) :
  (1 <= k)%nat -> (n < 10 ^ N.of_nat k)%N ->
  (10 ^ N.of_nat (k - 1) <= n)%N ->
  List.length (decimal n) = k.
Proof.
  intros Hk Hlt Hge. unfold decimal.
  rewrite (@decimalFrom_length k).
  - cbn [List.length]. lia.
  - split; [exact Hk|]. apply log2_fuel. exact Hge.
  - exact Hlt.
  - right. exact Hge.
Qed.

Lemma decimal_one_digit (n : N) : (n < 10)%N -> List.length (decimal n) = 1%nat.
Proof.
  intros Hn. unfold decimal.
  rewrite (@decimalFrom_length 1).
  - reflexivity.
  - lia.
  - exact Hn.
  - left. reflexivity.
Qed.

Lemma cycle_zero (current : jsstring) (k : nat) :
  current = [] \/ current = [48%N] ->
  cycle (lit "0") current k = repeat 48%N k.
Proof.
  revert current. induction k as [|k IH]; intros current Hc; [reflexivity|].
  cbn [cycle repeat].
  destruct Hc as [->| ->]; change (lit "0") with [48%N]; cbn [cycle];
    rewrite <- (IH []) by (left; reflexivity); reflexivity.
Qed.

Lemma padStart_zero (target : nat) (s : jsstring) :
  padStart target (lit "0") s = repeat 48%N (target - List.length s) ++ s.
Proof.
  unfold padStart. rewrite cycle_zero; [reflexivity|right; reflexivity].
Qed.

Lemma radixValue_zeros (k : nat) (s : jsstring) :
  radixValue 10 (repeat 48%N k ++ s) = radixValue 10 s.
Proof.
  unfold radixValue. rewrite fold_left_app. f_equal.
  induction k as [|k IH]; [reflexivity|]. cbn [repeat fold_left].
  exact IH.
Qed.

Lemma isDigits_zeros (k : nat) (s : jsstring) :
  isDigits s = true -> isDigits (repeat 48%N k ++ s) = true.
Proof.
  unfold isDigits. intros H. apply andb_true_iff in H. destruct H as [Hne Hall].
  apply andb_true_iff. split.
  - destruct k; [exact Hne|reflexivity].
  - rewrite forallb_app. apply andb_true_iff. split; [|exact Hall].
    clear. induction k as [|k IH]; [reflexivity|exact IH].
Qed.

Lemma splitOn_dash_digits (a cur : jsstring) :
  forallb isDigit a = true ->
  (forall rest, splitOn 45%N cur (a ++ 45%N :: rest)
                = (rev cur ++ a) :: splitOn 45%N [] rest)
  /\ splitOn 45%N cur a = [rev cur ++ a].
Proof.
  revert cur. induction a as [|c a IH]; intros cur Ha.
  - cbn [app splitOn N.eqb Pos.eqb]. rewrite app_nil_r. split; reflexivity.
  - cbn [forallb] in Ha. apply andb_true_iff in Ha. destruct Ha as [Hc Ha].
    assert (Hne : N.eqb c 45 = false).
    { unfold isDigit in Hc. apply andb_true_iff in Hc. destruct Hc as [H1 _].
      apply N.leb_le in H1. apply N.eqb_neq. lia. }
    destruct (IH (c :: cur) Ha) as [IH1 IH2].
    cbn [app splitOn]. rewrite Hne. cbn [rev] in *.
    rewrite <- app_assoc in *. split; [exact IH1|exact IH2].
Qed.

(** X18: [formatDate] writes the year, the month counted from 1 and the
    day of the month in decimal, the last two padded with a zero to two
    digits, with a dash between them: split at the dashes, the text gives
    back three strings of digits whose values are these three numbers.
    For a year of four digits, a month up to 11 and a day up to 31 the
    text has the ten units of [yyyy-mm-dd]. *)
Theorem formatDate_reads_back (date : JsDate) :
  let pieces := splitOn 45%N [] (formatDate date) in
  pieces = [decimal (getFullYear date);
            padStart 2 (lit "0") (decimal (getMonth date + 1));
            padStart 2 (lit "0") (decimal (getDate date))]
  /\ Forall (fun piece => isDigits piece = true) pieces
  /\ map (radixValue 10) pieces
     = [Z.of_N (getFullYear date); Z.of_N (getMonth date + 1);
        Z.of_N (getDate date)]
  /\ ((1000 <= getFullYear date <= 9999)%N -> (getMonth date <= 11)%N ->
      (getDate date <= 31)%N ->
      map (@List.length codeUnit) pieces = [4; 2; 2]%nat
      /\ List.length (formatDate date) = 10%nat).
Proof.
  destruct (decimal_digits (getFullYear date)) as [Hy Hyv].
  destruct (decimal_digits (getMonth date + 1)) as [Hm Hmv].
  destruct (decimal_digits (getDate date)) as [Hd Hdv].
  assert (Hpieces : splitOn 45%N [] (formatDate date)
            = [decimal (getFullYear date);
               padStart 2 (lit "0") (decimal (getMonth date + 1));
               padStart 2 (lit "0") (decimal (getDate date))]).
  { unfold formatDate. cbv zeta. change (lit "-") with [45%N]. cbn [app].
    rewrite !padStart_zero.
    assert (Hall : forall s, isDigits s = true -> forallb isDigit s = true).
    { intros s H. unfold isDigits in H. apply andb_true_iff in H. apply H. }
    rewrite (proj1 (@splitOn_dash_digits _ [] (Hall _ Hy))). cbn [rev app].
    rewrite (proj1 (@splitOn_dash_digits _ [] (Hall _ (@isDigits_zeros _ _ Hm)))).
    rewrite (proj2 (@splitOn_dash_digits _ [] (Hall _ (@isDigits_zeros _ _ Hd)))).
    reflexivity. }
  cbv zeta. rewrite Hpieces. split; [reflexivity|]. split; [|split].
  - rewrite !padStart_zero. repeat constructor;
      [exact Hy|apply isDigits_zeros; exact Hm|apply isDigits_zeros; exact Hd].
  - cbn [map]. rewrite !padStart_zero, !radixValue_zeros, Hyv, Hmv, Hdv.
    reflexivity.
  - intros Hyear Hmonth Hday.
    assert (Ly : List.length (decimal (getFullYear date)) = 4%nat).
    { apply decimal_length; cbn; lia. }
    assert (Lpad : forall n, (n < 100)%N ->
              List.length (padStart 2 (lit "0") (decimal n)) = 2%nat).
    { intros n Hn. rewrite padStart_zero, length_app, repeat_length.
      destruct (N.ltb_spec n 10) as [Hs|Hb].
      - assert (L := decimal_one_digit Hs).
        unfold jsstring, codeUnit in *. rewrite L. reflexivity.
      - assert (L : List.length (decimal n) = 2%nat)
          by (apply decimal_length; cbn; lia).
        unfold jsstring, codeUnit in *. rewrite L. reflexivity. }
    assert (Lm := Lpad (getMonth date + 1)%N ltac:(lia)).
    assert (Ld := Lpad (getDate date) ltac:(lia)).
    split.
    + cbn [map]. rewrite Ly, Lm, Ld. reflexivity.
    + unfold formatDate. cbv zeta. rewrite !length_app, Ly, Lm, Ld.
      reflexivity.
Qed.

End DateProperties.

(* ================================================================== *)
(** * The plugin and the CLI *)
(* ================================================================== *)

Section PluginProperties.

Import Dates Plugin.

Lemma insertAscending_perm (i : N) (l : list N) :
  Permutation (i :: l) (insertAscending i l).
Proof.
  induction l as [|j l IH]; [reflexivity|]. cbn [insertAscending].
  destruct (i <=? j)%N; [reflexivity|].
  rewrite perm_swap. apply perm_skip. exact IH.
Qed.

Lemma table_sort_perm (l : list N) : Permutation l (table_sort l).
Proof.
  induction l as [|i l IH]; [reflexivity|]. cbn [table_sort fold_right].
  rewrite <- insertAscending_perm. apply perm_skip. exact IH.
Qed.

Lemma insertAscending_sorted (i : N) (l : list N) :
  StronglySorted N.le l -> StronglySorted N.le (insertAscending i l).
Proof.
  induction 1 as [|j l Hl IH Hj]; cbn [insertAscending].
  - repeat constructor.
  - destruct (N.leb_spec i j) as [Hle|Hgt].
    + constructor; [constructor; assumption|].
      constructor; [exact Hle|].
      eapply Forall_impl; [|exact Hj]. intros k Hk. cbv beta in *. lia.
    + constructor; [exact IH|].
      assert (Hperm := insertAscending_perm i l).
      eapply Permutation_Forall; [exact Hperm|].
      constructor; [lia|exact Hj].
Qed.

Lemma table_sort_sorted (l : list N) : StronglySorted N.le (table_sort l).
Proof.
  induction l as [|i l IH]; [constructor|].
  cbn [table_sort fold_right]. apply insertAscending_sorted. exact IH.
Qed.

Lemma table_concat_comma (tokens : list jsstring) :
  table_concat tokens [44%N] = joinComma tokens.
Proof.
  induction tokens as [|t tokens IH]; [reflexivity|].
  destruct tokens as [|t' tokens]; [reflexivity|].
  change (table_concat (t :: t' :: tokens) [44%N])
    with (t ++ [44%N] ++ table_concat (t' :: tokens) [44%N]).
  rewrite IH. reflexivity.
Qed.

Lemma sectionsValue_decodes (indices : list N) :
  Forall (fun i => (0 < i < 10 ^ 14)%N) indices ->
  map integerOf (parseSectionListArg (sectionsValue indices))
  = map (fun i => Some (Z.of_N i)) (table_sort indices).
Proof.
  intros Hrange.
  assert (Hsorted : Forall (fun i => (0 < i < 10 ^ 14)%N)
                           (table_sort indices))
    by (eapply Permutation_Forall; [apply table_sort_perm|exact Hrange]).
  unfold sectionsValue. rewrite table_concat_comma.
  assert (Htokens :
    Forall (fun t => isDigits t = true /\ (0 < radixValue 10 t < 2 ^ 53)%Z)
           (map decimal (table_sort indices))).
  { apply Forall_map. eapply Forall_impl; [|exact Hsorted].
    intros i Hi. cbv beta in *. destruct (decimal_digits i) as [Hd Hv].
    split; [exact Hd|]. rewrite Hv.
    assert (10 ^ 14 < 2 ^ 53)%N by reflexivity.
    change (2 ^ 53)%Z with (Z.of_N (2 ^ 53)). lia. }
  rewrite (parseSectionListArg_joinComma Htokens),
    (integerOf_digits Htokens), map_map.
  apply map_ext. intros i. rewrite (proj2 (decimal_digits i)). reflexivity.
Qed.

(** X19: when [confirm] of [extract_section] starts the CLI, it does so
    with a slug that is not empty and with [--sections=] followed by the
    section numbers of the selected items, sorted in ascending order; for
    section numbers from 1 to 10^14 - 1, [parseSectionListArg] reads that
    value back as exactly these numbers, so none is lost between the
    plugin and the CLI. *)
Theorem confirm_requests_selected_sections (file : text)
    (selected : list (option N)) (slug : option text) (args : list text) :
  Forall (fun i => (0 < i < 10 ^ 14)%N) (selectedIndices selected) ->
  confirm file selected slug = RunJ args ->
  let indices := selectedIndices selected in
  let sorted := table_sort indices in
  exists chosen,
    slug = Some chosen /\ chosen <> []
    /\ args = [lit "--extract"; file;
               lit "--sections=" ++ sectionsValue indices;
               lit "--slug"; chosen]
    /\ sorted <> []
    /\ StronglySorted N.le sorted
    /\ Permutation indices sorted
    /\ map integerOf (parseSectionListArg (sectionsValue indices))
       = map (fun i => Some (Z.of_N i)) sorted.
Proof.
  intros Hrange Hconfirm indices sorted. unfold confirm in Hconfirm.
  fold indices in Hconfirm, Hrange.
  destruct selected as [|item rest]; [discriminate Hconfirm|].
  destruct indices as [|i others] eqn:Hindices; [discriminate Hconfirm|].
  destruct slug as [[|c chosen]|]; try discriminate Hconfirm.
  injection Hconfirm as <-. exists (c :: chosen).
  split; [reflexivity|]. split; [discriminate|]. split; [reflexivity|].
  assert (Hperm : Permutation (i :: others) sorted) by apply table_sort_perm.
  split.
  - intros Hnil. rewrite Hnil in Hperm.
    apply Permutation_sym, Permutation_nil in Hperm. discriminate Hperm.
  - split; [apply table_sort_sorted|]. split; [exact Hperm|].
    apply sectionsValue_decodes. exact Hrange.
Qed.

(** X19, an instance: the third and the first section are selected, with
    an item that has no section number; the slug chosen is [ideas]. *)
Lemma confirm_requests_selected_sections_witness :
  exists chosen,
    Some (lit "ideas") = Some chosen /\ chosen <> []
    /\ [lit "--extract"; lit "/j/today.md"; lit "--sections=1,3";
        lit "--slug"; lit "ideas"]
       = [lit "--extract"; lit "/j/today.md";
          lit "--sections=" ++ sectionsValue [3; 1]%N;
          lit "--slug"; chosen]
    /\ table_sort [3; 1]%N <> []
    /\ StronglySorted N.le (table_sort [3; 1]%N)
    /\ Permutation [3; 1]%N (table_sort [3; 1]%N)
    /\ map integerOf (parseSectionListArg (sectionsValue [3; 1]%N))
       = [Some 1%Z; Some 3%Z].
Proof.
  apply (@confirm_requests_selected_sections (lit "/j/today.md")
           [Some 3%N; None; Some 1%N] (Some (lit "ideas"))
           [lit "--extract"; lit "/j/today.md"; lit "--sections=1,3";
            lit "--slug"; lit "ideas"]).
  - repeat constructor.
  - reflexivity.
Defined.

Lemma silent_no_stdout (t t' : list event) :
  silent t -> Forall (fun ev => isStdout ev = false) t' ->
  filter isStdout (t ++ t') = [].
Proof.
  intros Ht Ht'. rewrite filter_app.
  assert (H : forall l, Forall (fun ev => isStdout ev = false) l ->
                        filter isStdout l = []).
  { induction 1 as [|ev l Hev _ IH]; [reflexivity|].
    cbn [filter]. rewrite Hev. exact IH. }
  rewrite (H t Ht), (H t' Ht'). reflexivity.
Qed.


(** X20: what the plugin shows of a run of the CLI that failed, when
    [handle_output] is given the standard output, the exit code and the
    standard error of the run (as it is with [vim.system]): an error
    notification, never the success callback; its text is the message of
    the failure as the CLI printed it on standard error, and
    "j command failed." when the failure carries no message (the CLI has
    then printed nothing at all, on either stream). *)
Theorem plugin_reports_failed_run (D : Type) (decode : text -> option D)
    (render : event -> jsstring) (on_success : bool)
    (env : Collaborators) (rawArgs : list jsstring) (e : failure) :
  snd (main env rawArgs) = Failed e ->
  let run := program env rawArgs in
  handle_output decode on_success (Some (stdoutText render run))
                (exitCode run) (Some (stderrText run))
  = Notify (match e with
            | ErrorInstance (c :: msg) => (c :: msg) ++ [10%N]
            | ErrorInstance [] | OtherFailure => lit "j command failed."
            end) ERROR.
Proof.
  intros Hfail run.
  assert (Hsilent := @mainWith_silentOnFailure env mode parseSectionListArg
                       rawArgs e Hfail).
  assert (Herr := errorMessages_main env rawArgs Hfail).
  fold (main env rawArgs) in Hsilent.
  subst run. unfold program, stdoutText, stderrText.
  destruct (main env rawArgs) as [t r]. cbn [fst snd] in *. subst r.
  cbn [events exitCode]. unfold handle_output.
  change (negb (1 =? 0)%Z) with true. cbv iota.
  rewrite silent_no_stdout;
    [|exact Hsilent|destruct e as [[|c msg]|]; repeat constructor].
  assert (Happ : errorMessages (t ++ catchAll e) = errorMessages (catchAll e)).
  { unfold errorMessages in *. rewrite flat_map_app, Herr. reflexivity. }
  rewrite Happ.
  destruct e as [[|c msg]|]; cbn; rewrite ?app_nil_r; reflexivity.
Qed.

(** X20, an instance: [j --extract today.md --slug ideas --json] fails
    for want of sections. *)
Lemma plugin_reports_failed_run_witness :
  let env :=
    Samples.stub
      (Done (UserDefined
               (Samples.extractOptions true None (Some (lit "ideas")))))
      (Done tt) in
  let rawArgs := [lit "--extract"; lit "today.md"; lit "--slug"; lit "ideas";
                  lit "--json"] in
  let run := program env rawArgs in
  handle_output (fun _ : text => @None unit) true
                (Some (stdoutText (fun _ => []) run)) (exitCode run)
                (Some (stderrText run))
  = Notify (lit "Missing extract sections." ++ [10%N]) ERROR.
Proof.
  intros env rawArgs run.
  apply (@plugin_reports_failed_run unit (fun _ => None) (fun _ => []) true
           env rawArgs (ErrorInstance (lit "Missing extract sections."))).
  reflexivity.
Defined.

Lemma splitOn_line (msg cur : jsstring) :
  forallb (fun c => negb (N.eqb c 10)) msg = true ->
  splitOn 10%N cur (msg ++ [10%N]) = [rev cur ++ msg; []].
Proof.
  revert cur. induction msg as [|c msg IH]; intros cur Hmsg.
  - cbn. rewrite app_nil_r. reflexivity.
  - cbn [forallb] in Hmsg. apply andb_true_iff in Hmsg.
    destruct Hmsg as [Hc Hmsg]. apply negb_true_iff in Hc.
    cbn [app splitOn]. rewrite Hc, (IH (c :: cur) Hmsg). cbn [rev].
    rewrite <- app_assoc. reflexivity.
Qed.

(** X21: the same for a run started with [run_j_async], which is handed
    standard error as lines (the text split at its line feeds) and keeps
    those that are not empty: a failed run gives an error notification
    and never the success callback; its text is the message of the
    failure, when that is one line, and "j command failed." when the
    failure carries no message. *)
Theorem plugin_async_reports_failed_run (on_success : bool)
    (env : Collaborators) (rawArgs : list jsstring) (e : failure) :
  snd (main env rawArgs) = Failed e ->
  (forall msg, e = ErrorInstance msg ->
               forallb (fun c => negb (N.eqb c 10)) msg = true) ->
  let run := program env rawArgs in
  on_exit (on_stderr [] (splitOn 10%N [] (stderrText run))) on_success
          (exitCode run)
  = Notify (match e with
            | ErrorInstance (c :: msg) => c :: msg
            | ErrorInstance [] | OtherFailure => lit "j command failed."
            end) ERROR.
Proof.
  intros Hfail Hline run.
  assert (Herr := errorMessages_main env rawArgs Hfail).
  subst run. unfold program, stderrText.
  destruct (main env rawArgs) as [t r]. cbn [fst snd] in *. subst r.
  cbn [events exitCode]. unfold on_exit.
  change (negb (1 =? 0)%Z) with true. cbv iota.
  assert (Happ : errorMessages (t ++ catchAll e) = errorMessages (catchAll e)).
  { unfold errorMessages in *. rewrite flat_map_app, Herr. reflexivity. }
  rewrite Happ.
  destruct e as [[|c msg]|]; try reflexivity.
  specialize (Hline (c :: msg) eq_refl).
  cbn [catchAll errorMessages flat_map map List.concat app].
  rewrite app_nil_r.
  change ((c :: msg) ++ [10%N]) with (c :: (msg ++ [10%N])).
  change (c :: msg ++ [10%N]) with ((c :: msg) ++ [10%N]).
  rewrite (splitOn_line (c :: msg) [] Hline). reflexivity.
Qed.

(** X21, an instance: the same failed run, read line by line. *)
Lemma plugin_async_reports_failed_run_witness :
  let env :=
    Samples.stub
      (Done (UserDefined
               (Samples.extractOptions false None (Some (lit "ideas")))))
      (Done tt) in
  let rawArgs := [lit "--extract"; lit "today.md"; lit "--slug";
                  lit "ideas"] in
  let run := program env rawArgs in
  on_exit (on_stderr [] (splitOn 10%N [] (stderrText run))) true
          (exitCode run)
  = Notify (lit "Missing extract sections.") ERROR.
Proof.
  intros env rawArgs run.
  apply (@plugin_async_reports_failed_run true env rawArgs
           (ErrorInstance (lit "Missing extract sections."))).
  - reflexivity.
  - intros msg Hmsg. injection Hmsg as <-. reflexivity.
Defined.

End PluginProperties.

(* ================================================================== *)
(** * Properties of the section engine *)
(* ================================================================== *)

Import Engine.

Lemma forallb_eqb_repeat (c : codeUnit) (l : jsstring) :
  forallb (N.eqb c) l = true <-> l = repeat c (List.length l).
Proof.
  induction l as [|d l IH]; cbn [forallb repeat List.length].
  - split; reflexivity.
  - rewrite andb_true_iff, N.eqb_eq, IH. split.
    + intros [-> <-]. reflexivity.
    + intros H. injection H as -> H. split; [reflexivity|exact H].
Qed.

Lemma isSeparator_iff (line : jsstring) :
  isSeparator line = true
  <-> exists c n, isRuleUnit c = true /\ (3 <= n)%nat
                  /\ trim line = repeat c n.
Proof.
  unfold isSeparator. destruct (trim line) as [|c rest].
  - split; [discriminate|]. intros (c & [|n] & _ & Hn & H); [lia|discriminate H].
  - rewrite !andb_true_iff, forallb_eqb_repeat, Nat.leb_le. split.
    + intros [[Hc Hrest] Hlen]. exists c, (S (List.length rest)).
      split; [exact Hc|]. split; [lia|]. cbn [repeat]. congruence.
    + intros (c' & [|n] & Hc & Hn & H); [lia|]. cbn [repeat] in H.
      injection H as <- ->. rewrite repeat_length.
      split; [split; [exact Hc|reflexivity]|lia].
Qed.

(** C6: ["Line A\n\n---\n\nLine B"] splits into two sections, titled
    ["Line A"] (line 1) and ["Line B"] (line 5); a line is a separator,
    hence a boundary, exactly when, trimmed, it is three or more
    repetitions of one of [-], [*], [_]. *)
Theorem split_lineA_rule_lineB :
  split Samples.lineA_rule_lineB
  = [ {| index := 1; startLine := 1; endLine := 1;
         title := lit "Line A"; preview := lit "Line A";
         rawLines := [lit "Line A"] |};
      {| index := 2; startLine := 5; endLine := 5;
         title := lit "Line B"; preview := lit "Line B";
         rawLines := [lit "Line B"] |} ]
  /\ forall line,
       (isSeparator line = true
        <-> exists c n, isRuleUnit c = true /\ (3 <= n)%nat
                        /\ trim line = repeat c n)
       /\ (isSeparator line = true -> isBoundary line = true).
Proof.
  split; [reflexivity|]. intros line. split; [apply isSeparator_iff|].
  intros H. unfold isBoundary. rewrite H. apply orb_true_r.
Qed.

(** C6, an instance: the line [" --- "] is a separator and a boundary. *)
Lemma split_lineA_rule_lineB_witness :
  isSeparator (lit " --- ") = true /\ isBoundary (lit " --- ") = true.
Proof.
  destruct split_lineA_rule_lineB as [_ H].
  destruct (H (lit " --- ")) as [[_ Hsep] Hb].
  assert (Hs : isSeparator (lit " --- ") = true).
  { apply Hsep. exists 45%N, 3%nat.
    split; [reflexivity|]. split; [lia|reflexivity]. }
  split; [exact Hs|exact (Hb Hs)].
Defined.

(** ** Extraction *)

Lemma findSection_None (sections : list Section) (i : nat) :
  (forall s, In s sections -> index s <> i) -> findSection sections i = None.
Proof.
  unfold findSection. induction sections as [|s sections IH]; intros H.
  - reflexivity.
  - cbn [find]. destruct (Nat.eqb_spec (index s) i) as [Heq|_].
    + exfalso. apply (H s); [left; reflexivity|exact Heq].
    + apply IH. intros s' Hs'. apply H. right. exact Hs'.
Qed.

Lemma resolve_None (sections : list Section) (indices : list nat) (i : nat) :
  In i indices -> findSection sections i = None ->
  resolve sections indices = None.
Proof.
  intros Hin Hnone. induction indices as [|j indices IH]; [destruct Hin|].
  cbn [resolve]. destruct Hin as [->|Hin].
  - rewrite Hnone. reflexivity.
  - rewrite (IH Hin). destruct (findSection sections j); reflexivity.
Qed.

Lemma extract_invalid (doc : jsstring) (indices : list nat)
    (sections : list Section) (i : nat) :
  In i indices -> (forall s, In s sections -> index s <> i) ->
  extract doc indices sections = inl InvalidSectionIndex.
Proof.
  intros Hin Hnone. unfold extract.
  rewrite (@resolve_None sections (nodup Nat.eq_dec indices) i).
  - reflexivity.
  - apply nodup_In. exact Hin.
  - apply findSection_None. exact Hnone.
Qed.

(** C2: when one requested index has no section, the extractor answers
    [InvalidSectionIndex] and computes no result, and its caller makes no
    call of [write]: neither the source nor the note is written. *)
Theorem invalid_index_zero_writes
    (appendNote : jsstring -> jsstring -> jsstring)
    (doc : jsstring) (indices : list nat) (i : nat) :
  In i indices -> (forall s, In s (split doc) -> index s <> i) ->
  extract doc indices (split doc) = inl InvalidSectionIndex
  /\ forall store src targetSlug,
       read store src = Some doc -> targetSlug <> [] ->
       persistExtraction appendNote store src indices targetSlug
       = (inl InvalidSectionIndex, []).
Proof.
  intros Hin Hnone.
  assert (He := @extract_invalid doc indices (split doc) i Hin Hnone).
  split; [exact He|].
  intros store src targetSlug Hread Hslug. unfold persistExtraction.
  destruct targetSlug as [|c targetSlug]; [contradiction|].
  destruct indices as [|j indices]; [destruct Hin|].
  rewrite Hread, He. reflexivity.
Qed.

(** C2, an instance: index 5 on a document of three sections. *)
Lemma invalid_index_zero_writes_witness :
  let store := {| read := fun ref => if jsstring_eqb ref (lit "today.md")
                                     then Some Samples.threeSections
                                     else None;
                  writable := fun _ => true |} in
  List.length (split Samples.threeSections) = 3%nat
  /\ extract Samples.threeSections [5%nat] (split Samples.threeSections)
     = inl InvalidSectionIndex
  /\ persistExtraction (fun old new => old ++ [10; 10]%N ++ new) store
       (lit "today.md") [5%nat] (lit "ideas")
     = (inl InvalidSectionIndex, []).
Proof.
  intros store.
  assert (Hin : In 5%nat [5%nat]) by (left; reflexivity).
  assert (Hnone : forall s, In s (split Samples.threeSections) ->
                            index s <> 5%nat).
  { intros s Hs. vm_compute in Hs.
    destruct Hs as [<-|[<-|[<-|[]]]]; discriminate. }
  destruct (@invalid_index_zero_writes
              (fun old new => old ++ [10; 10]%N ++ new)
              Samples.threeSections [5%nat] 5%nat Hin Hnone) as [He Hp].
  split; [reflexivity|]. split; [exact He|].
  apply Hp; [reflexivity|discriminate].
Defined.

(** C7: on a document of at least three sections, extracting the indices
    [2, 1] and extracting [1, 2] give the same result, whose note text is
    the first section, a blank line, the second section. *)
Theorem extract_order_independent (doc : jsstring) :
  (3 <= List.length (split doc))%nat ->
  exists r,
    extract doc [2; 1]%nat (split doc) = inr r
    /\ extract doc [1; 2]%nat (split doc) = inr r
    /\ newNoteText r = unlines (noteLines (firstn 2 (split doc))).
Proof.
  unfold split.
  destruct (runsFrom 1 None (lines doc))
    as [|[[f1 l1] raw1] [|[[f2 l2] raw2] [|[[f3 l3] raw3] rest]]];
    cbn [numberFrom List.length]; try lia.
  intros _. unfold extract.
  cbn [nodup In resolve findSection find index Nat.eqb sortByIndex fold_right
       insertByIndex Nat.leb firstn].
  eexists. split; [|split]; reflexivity.
Qed.

(** C7, an instance: the document of three sections. *)
Lemma extract_order_independent_witness :
  exists r,
    extract Samples.threeSections [2; 1]%nat (split Samples.threeSections)
    = inr r
    /\ extract Samples.threeSections [1; 2]%nat (split Samples.threeSections)
       = inr r
    /\ newNoteText r
       = lit "# One" ++ [10]%N ++ lit "body" ++ [10; 10]%N ++ lit "two".
Proof.
  assert (H3 : (3 <= List.length (split Samples.threeSections))%nat)
    by (vm_compute; lia).
  destruct (extract_order_independent Samples.threeSections H3)
    as (r & H21 & H12 & Hnote).
  exists r. split; [exact H21|]. split; [exact H12|].
  rewrite Hnote. reflexivity.
Defined.
